(** * Overlap layout of the schedule calendars

    A shallow embedding of the overlap-layout code of the two calendar
    screens, [AdminSchedule] (groupOverlappingEvents, getEventStyle) and
    [TeacherSchedule] (timeToMinutes, the column pass of getWeekEvents),
    together with the day-of-week key both screens derive from a date. *)

From Stdlib Require Import ZArith Lia Ascii String.
From Stdlib Require DecimalString.
From stdpp Require Import base option list sorting strings gmap.

Local Open Scope string_scope.
Local Open Scope list_scope.
Local Open Scope Z_scope.

(** ** The fragment of the JavaScript runtime the screens rely on *)

Module JS.

(** A [number] that is either an integer or NaN.  The screens only add,
    subtract and multiply hour and minute fields, so no fraction arises. *)
Inductive number : Set :=
| Num (z : Z)
| NaN.

Definition add (a b : number) : number :=
  match a, b with Num x, Num y => Num (x + y) | _, _ => NaN end.

Definition sub (a b : number) : number :=
  match a, b with Num x, Num y => Num (x - y) | _, _ => NaN end.

Definition mul (a b : number) : number :=
  match a, b with Num x, Num y => Num (x * y) | _, _ => NaN end.

(** [a < b] and [a >= b]: every comparison with NaN is false. *)
Definition lt (a b : number) : bool :=
  match a, b with Num x, Num y => x <? y | _, _ => false end.

Definition ge (a b : number) : bool :=
  match a, b with Num x, Num y => y <=? x | _, _ => false end.

(** [Math.max(a, b)]: NaN as soon as one argument is NaN. *)
Definition max (a b : number) : number :=
  match a, b with Num x, Num y => Num (Z.max x y) | _, _ => NaN end.

(** [a < b] and [a > b] on two strings compare code units. *)
Definition str_lt (a b : string) : bool := String.ltb a b.
Definition str_gt (a b : string) : bool := String.ltb b a.

(** [!s] on a string: only the empty string is falsy. *)
Definition falsy (s : string) : bool := String.eqb s "".

Definition is_digit (c : Ascii.ascii) : bool :=
  let n := Ascii.N_of_ascii c in ((48 <=? n) && (n <=? 57))%N.

Fixpoint all_digits (s : string) : bool :=
  match s with
  | EmptyString => true
  | String c s' => is_digit c && all_digits s'
  end.

Fixpoint digits_value (acc : Z) (s : string) : Z :=
  match s with
  | EmptyString => acc
  | String c s' => digits_value (10 * acc + (Z.of_N (Ascii.N_of_ascii c) - 48)) s'
  end.

(** [Number(s)] on the literals an hour or minute field holds: the empty
    string is 0 and a run of decimal digits is its value.  Every other
    string is sent to NaN, which is what the runtime does for text that
    is no numeric literal; signed, fractional, exponent and hexadecimal
    literals and surrounding blanks are not covered by this model. *)
Definition Number (s : string) : number :=
  if all_digits s then Num (digits_value 0 s) else NaN.

(** [s.split(sep)] for a one-character separator. *)
Fixpoint split_go (sep : Ascii.ascii) (cur : string) (s : string) : list string :=
  match s with
  | EmptyString => [String.rev cur]
  | String c s' =>
      if Ascii.eqb c sep then String.rev cur :: split_go sep EmptyString s'
      else split_go sep (String c cur) s'
  end.

Definition split (sep : Ascii.ascii) (s : string) : list string :=
  split_go sep EmptyString s.

(** Reading position [i] of a destructured array of numbers: a missing
    element is [undefined], which arithmetic turns into NaN. *)
Definition at_index (l : list number) (i : nat) : number :=
  default NaN (l !! i).

(** [Array.prototype.sort(comparefn)] is stable, and a comparator result
    of NaN counts as 0.  For a consistent comparator the stable sorted
    permutation is unique; it is computed here by insertion, each
    element going in front of the first one it does not exceed. *)
Definition exceeds (v : number) : bool := lt (Num 0) v.

Fixpoint insert {A : Type} (comparefn : A → A → number) (x : A) (l : list A) : list A :=
  match l with
  | [] => [x]
  | y :: l' => if exceeds (comparefn x y) then y :: insert comparefn x l' else x :: l
  end.

Definition sort {A : Type} (comparefn : A → A → number) (l : list A) : list A :=
  foldr (insert comparefn) [] l.

(** Code-unit comparison of two strings as a comparator.  On zero-padded
    HH:mm strings it orders like [localeCompare] in every locale. *)
Definition codeUnitCompare (a b : string) : Z :=
  match String.compare a b with Lt => -1 | Eq => 0 | Gt => 1 end.

End JS.

(** A dayjs date, kept as its day number (days since 1970-01-01). *)
Module Dayjs.

Definition t : Set := Z.

(** [date.day()]: 0 for Sunday up to 6 for Saturday; day 0 of the epoch
    was a Thursday. *)
Definition day (date : t) : Z := (date + 4) mod 7.

(** [a.isSame(b, "day")]. *)
Definition isSame (a b : t) : bool := a =? b.

End Dayjs.

(** [date.day() === 0 ? 8 : date.day() + 1], the key under which both
    screens look up the schedules of a date. *)
Definition dayOfWeek (date : Dayjs.t) : Z :=
  if Dayjs.day date =? 0 then 8 else Dayjs.day date + 1.

(** A schedule entry of a class: the weekday key and the two HH:mm strings. *)
Record ClassSchedule : Set := mkClassSchedule {
  Thu : Z;
  Gio_bat_dau : string;
  Gio_ket_thuc : string
}.

(** ** The admin calendar *)

Module AdminSchedule.

Record ScheduleEvent : Set := mkScheduleEvent {
  class : string;   (* the id of the class record *)
  schedule : ClassSchedule;
  date : string;
  scheduleId : option string;
  isCustomSchedule : option bool
}.

Record Style : Set := mkStyle { top : JS.number; height : JS.number }.

(** getEventStyle: position and height of an event box, one pixel per
    minute counted from 6:00. *)
Definition getEventStyle (event : ScheduleEvent) : Style :=
  let startTime := Gio_bat_dau (schedule event) in
  let endTime := Gio_ket_thuc (schedule event) in
  if JS.falsy startTime || JS.falsy endTime then mkStyle (JS.Num 0) (JS.Num 60)
  else
    let start := JS.Number <$> JS.split ":"%char startTime in
    let startHour := JS.at_index start 0 in
    let startMin := JS.at_index start 1 in
    let end_ := JS.Number <$> JS.split ":"%char endTime in
    let endHour := JS.at_index end_ 0 in
    let endMin := JS.at_index end_ 1 in
    let startOffset := JS.add (JS.mul (JS.sub startHour (JS.Num 6)) (JS.Num 60)) startMin in
    let endOffset := JS.add (JS.mul (JS.sub endHour (JS.Num 6)) (JS.Num 60)) endMin in
    let duration := JS.sub endOffset startOffset in
    mkStyle startOffset (JS.max duration (JS.Num 30)).

(** An entry of the [positioned] array.  The entries are objects that
    [overlapping] shares with [positioned]; they are addressed here by
    their index in [positioned]. *)
Record Positioned : Set := mkPositioned {
  event : ScheduleEvent;
  column : nat;
  totalColumns : nat
}.

Definition set_totalColumns (n : nat) (p : Positioned) : Positioned :=
  mkPositioned (event p) (column p) n.

(** [eventStart < pEnd && eventEnd > pStart] *)
Definition overlaps (e p : ScheduleEvent) : bool :=
  JS.str_lt (Gio_bat_dau (schedule e)) (Gio_ket_thuc (schedule p))
  && JS.str_gt (Gio_ket_thuc (schedule e)) (Gio_bat_dau (schedule p)).

(** [positioned.filter(...)] of the placement loop, as the indices of
    the entries it keeps. *)
Definition overlaps_at (positioned : list Positioned) (e : ScheduleEvent) (i : nat) : bool :=
  match positioned !! i with
  | Some p => overlaps e (event p)
  | None => false
  end.

Definition overlapping_of (positioned : list Positioned) (e : ScheduleEvent) : list nat :=
  filter (λ i, overlaps_at positioned e i) (seq 0 (length positioned)).

(** [while (usedColumns.has(column)) column++].  Each turn of the loop
    finds a further member of the set, so one more turn than the set
    has members ends it. *)
Fixpoint first_free (fuel : nat) (usedColumns : gset nat) (column : nat) : nat :=
  match fuel with
  | O => column
  | S fuel' =>
      if bool_decide (column ∈ usedColumns)
      then first_free fuel' usedColumns (S column)
      else column
  end.

(** The values [f p] of the entries a list of indices refers to. *)
Definition read {B : Type} (f : Positioned → B) (positioned : list Positioned)
    (refs : list nat) : list B :=
  omap (λ i, f <$> positioned !! i) refs.

(** One turn of [sorted.forEach]: place [e] and raise the counts of
    the entries it overlaps. *)
Definition place (positioned : list Positioned) (e : ScheduleEvent) : list Positioned :=
  let overlapping := overlapping_of positioned e in
  let usedColumns : gset nat := list_to_set (read column positioned overlapping) in
  let column := first_free (S (size usedColumns)) usedColumns 0 in
  let positioned := positioned ++ [mkPositioned e column 1] in
  let maxColumn := foldr Nat.max (column + 1)%nat (read totalColumns positioned overlapping) in
  let positioned :=
    foldl (λ ps i, alter (set_totalColumns maxColumn) i ps) positioned overlapping in
  alter (set_totalColumns maxColumn) (length positioned - 1)%nat positioned.

(** The body of the two nested [positioned.forEach] of the final pass
    for the pair of indices [i], [j]. *)
Definition reconcile_pair (i j : nat) (positioned : list Positioned) : list Positioned :=
  if (i =? j)%nat then positioned
  else
    match positioned !! i, positioned !! j with
    | Some p, Some other =>
        if overlaps (event p) (event other) then
          let maxCols := Nat.max (totalColumns p) (totalColumns other) in
          alter (set_totalColumns maxCols) j (alter (set_totalColumns maxCols) i positioned)
        else positioned
    | _, _ => positioned
    end.

Definition reconcile (positioned : list Positioned) : list Positioned :=
  let indices := seq 0 (length positioned) in
  foldl (λ ps i, foldl (λ ps' j, reconcile_pair i j ps') ps indices) positioned indices.

Section Layout.

(** [String.prototype.localeCompare] belongs to the runtime and its
    order to the locale; the layout is kept generic in it. *)
Variable localeCompare : string → string → Z.

Definition by_start (a b : ScheduleEvent) : JS.number :=
  JS.Num (localeCompare (Gio_bat_dau (schedule a)) (Gio_bat_dau (schedule b))).

Definition groupOverlappingEvents (events : list ScheduleEvent) : list Positioned :=
  if (length events =? 0)%nat then []
  else
    let sorted := JS.sort by_start events in
    let positioned := foldl place [] sorted in
    reconcile positioned.

(** The arrays of events the caller holds, by address.  The events
    themselves are never written by the layout. *)
Definition arrays : Type := gmap nat (list ScheduleEvent).

(** [[...a]]: a fresh array with the elements of the array at [a]. *)
Definition spread (a : nat) (h : arrays) : option (nat * arrays) :=
  arr ← h !! a;
  let r := fresh (dom h) in
  Some (r, <[r := arr]> h).

(** [a.sort(comparefn)] reorders the array at [a] itself. *)
Definition sort_in_place (comparefn : ScheduleEvent → ScheduleEvent → JS.number)
    (a : nat) (h : arrays) : option arrays :=
  arr ← h !! a;
  Some (<[a := JS.sort comparefn arr]> h).

(** groupOverlappingEvents as a call on the array at address
    [events]: its result and the arrays it leaves behind. *)
Definition call_groupOverlappingEvents (events : nat) (h : arrays)
    : option (list Positioned * arrays) :=
  arr ← h !! events;
  if (length arr =? 0)%nat then Some ([], h)
  else
    '(sorted, h1) ← spread events h;
    h2 ← sort_in_place by_start sorted h1;
    sortedArr ← h2 !! sorted;
    Some (reconcile (foldl place [] sortedArr), h2).

End Layout.

End AdminSchedule.

(** ** The teacher calendar *)

Module TeacherSchedule.

(** timeToMinutes: minutes since midnight of an HH:mm string. *)
Definition timeToMinutes (time : string) : JS.number :=
  let parts := JS.Number <$> JS.split ":"%char time in
  let hours := JS.at_index parts 0 in
  let minutes := JS.at_index parts 1 in
  JS.add (JS.mul hours (JS.Num 60)) minutes.

Record ScheduleEvent : Set := mkScheduleEvent {
  class : string;   (* the id of the class record *)
  schedule : ClassSchedule;
  date : Dayjs.t;
  startMinutes : JS.number;
  durationMinutes : JS.number;
  scheduleId : option string;
  isCustomSchedule : option bool
}.

(** The event getWeekEvents pushes for a schedule of a class on a date. *)
Definition scheduleEvent (classData : string) (schedule : ClassSchedule)
    (date : Dayjs.t) : ScheduleEvent :=
  let startMinutes := timeToMinutes (Gio_bat_dau schedule) in
  let endMinutes := timeToMinutes (Gio_ket_thuc schedule) in
  mkScheduleEvent classData schedule date startMinutes
    (JS.sub endMinutes startMinutes) None (Some false).

(** An element of [eventsWithColumns]: the event spread into a fresh
    object with the two layout fields.  These objects are shared by
    [eventsWithColumns], [dayEvents] and [overlapping], and are
    addressed by their index in [eventsWithColumns]. *)
Record WeekEvent : Set := mkWeekEvent {
  event : ScheduleEvent;
  column : nat;
  totalColumns : nat
}.

Definition set_layout (c n : nat) (e : WeekEvent) : WeekEvent :=
  mkWeekEvent (event e) c n.

(** The condition under which the inner loop pushes [otherEvent]. *)
Definition overlap_test (currentEvent otherEvent : ScheduleEvent) : bool :=
  let currentEnd := JS.add (startMinutes currentEvent) (durationMinutes currentEvent) in
  let otherEnd := JS.add (startMinutes otherEvent) (durationMinutes otherEvent) in
  (JS.lt (startMinutes otherEvent) currentEnd
   && JS.ge (startMinutes otherEvent) (startMinutes currentEvent))
  || (JS.lt (startMinutes currentEvent) otherEnd
      && JS.ge (startMinutes currentEvent) (startMinutes otherEvent)).

Definition test_refs (store : list WeekEvent) (current other : nat) : bool :=
  match store !! current, store !! other with
  | Some c, Some o => overlap_test (event c) (event o)
  | _, _ => false
  end.

(** The [for j] loop: the array [overlapping] built for position [i]
    of [dayEvents]. *)
Definition overlapping_of (store : list WeekEvent) (dayEvents : list nat) (i : nat)
    : list nat :=
  match dayEvents !! i with
  | None => []
  | Some currentEvent =>
      foldl (λ overlapping j,
               if (i =? j)%nat then overlapping
               else match dayEvents !! j with
                    | None => overlapping
                    | Some otherEvent =>
                        if test_refs store currentEvent otherEvent
                        then if bool_decide (otherEvent ∈ overlapping) then overlapping
                             else overlapping ++ [otherEvent]
                        else overlapping
                    end)
            [currentEvent] (seq 0 (length dayEvents))
  end.

(** [overlapping.forEach((event, index) => ...)] *)
Definition assign (overlapping : list nat) (store : list WeekEvent) : list WeekEvent :=
  foldl (λ st ir, alter (set_layout (fst ir) (length overlapping)) (snd ir) st)
        store (imap pair overlapping).

(** One turn of the [for i] loop. *)
Definition column_step (dayEvents : list nat) (store : list WeekEvent) (i : nat)
    : list WeekEvent :=
  let overlapping := overlapping_of store dayEvents i in
  if (1 <? length overlapping)%nat then assign overlapping store else store.

Definition by_startMinutes (store : list WeekEvent) (a b : nat) : JS.number :=
  match store !! a, store !! b with
  | Some x, Some y => JS.sub (startMinutes (event x)) (startMinutes (event y))
  | _, _ => JS.NaN
  end.

Definition same_day (store : list WeekEvent) (day : Dayjs.t) (i : nat) : bool :=
  match store !! i with
  | Some e => Dayjs.isSame (date (event e)) day
  | None => false
  end.

(** One turn of [weekDays.forEach]: the events of [day], sorted by
    start, then the column loop over them. *)
Definition layout_day (store : list WeekEvent) (day : Dayjs.t) : list WeekEvent :=
  let dayEvents := filter (λ i, same_day store day i) (seq 0 (length store)) in
  let dayEvents := JS.sort (by_startMinutes store) dayEvents in
  foldl (column_step dayEvents) store (seq 0 (length dayEvents)).

(** [Array.from({ length: 7 }, (_, i) => currentWeekStart.add(i, "day"))] *)
Definition weekDays (currentWeekStart : Dayjs.t) : list Dayjs.t :=
  (λ i, currentWeekStart + i) <$> seqZ 0 7.

(** The column pass of getWeekEvents, on the array [events] its first
    half has gathered for the days [weekDays]. *)
Definition getWeekEvents (weekDays : list Dayjs.t) (events : list ScheduleEvent)
    : list WeekEvent :=
  let eventsWithColumns := (λ e, mkWeekEvent e 0 1) <$> events in
  foldl layout_day eventsWithColumns weekDays.

End TeacherSchedule.

(** ** Notions the layout is specified with *)

(** The interval of an admin event with the ends [start], [end]:
    [A.start < B.end && B.start < A.end]. *)
Definition interval_overlap (A B : AdminSchedule.ScheduleEvent) : bool :=
  JS.str_lt (Gio_bat_dau (AdminSchedule.schedule A)) (Gio_ket_thuc (AdminSchedule.schedule B))
  && JS.str_lt (Gio_bat_dau (AdminSchedule.schedule B)) (Gio_ket_thuc (AdminSchedule.schedule A)).

(** Two different positions of a list of events whose events overlap. *)
Definition adjacent (evs : list AdminSchedule.ScheduleEvent) (i j : nat) : bool :=
  negb (i =? j)%nat
  && match evs !! i, evs !! j with
     | Some a, Some b => interval_overlap a b
     | _, _ => false
     end.

(** The positions one overlap step away from a set of positions,
    together with the set itself. *)
Definition expand (evs : list AdminSchedule.ScheduleEvent) (members : list nat) : list nat :=
  filter (λ j, existsb (λ i, (i =? j)%nat || adjacent evs i j) members)
         (seq 0 (length evs)).

(** The connected overlap group of position [i]: the positions reached
    from [i] by overlap steps. *)
Definition cluster (evs : list AdminSchedule.ScheduleEvent) (i : nat) : list nat :=
  Nat.iter (length evs) (expand evs) [i].

Definition cluster_size (evs : list AdminSchedule.ScheduleEvent) (i : nat) : nat :=
  length (cluster evs i).

(** The number of events of a group that are running at the instant
    [t], and the largest such number over the starts of the group. *)
Definition running (evs : list AdminSchedule.ScheduleEvent) (t : string) (j : nat) : bool :=
  match evs !! j with
  | Some e => negb (JS.str_lt t (Gio_bat_dau (AdminSchedule.schedule e)))
              && JS.str_lt t (Gio_ket_thuc (AdminSchedule.schedule e))
  | None => false
  end.

Definition active_at (evs : list AdminSchedule.ScheduleEvent) (group : list nat) (t : string) : nat :=
  length (filter (λ j, running evs t j) group).

Definition max_active (evs : list AdminSchedule.ScheduleEvent) (group : list nat) : nat :=
  foldr Nat.max 0%nat
    (omap (λ i, (λ e, active_at evs group (Gio_bat_dau (AdminSchedule.schedule e))) <$> evs !! i)
          group).

(** The weekdays, the index dayjs gives each of them, and the key the
    stored schedules use for each. *)
Inductive Weekday : Set :=
  Monday | Tuesday | Wednesday | Thursday | Friday | Saturday | Sunday.

Definition weekday_of_index (d : Z) : option Weekday :=
  match d with
  | 0 => Some Sunday
  | 1 => Some Monday
  | 2 => Some Tuesday
  | 3 => Some Wednesday
  | 4 => Some Thursday
  | 5 => Some Friday
  | 6 => Some Saturday
  | _ => None
  end.

Definition weekday_key (w : Weekday) : Z :=
  match w with
  | Monday => 2
  | Tuesday => 3
  | Wednesday => 4
  | Thursday => 5
  | Friday => 6
  | Saturday => 7
  | Sunday => 8
  end.

(** The interval of a teacher event and the standard overlap predicate
    on two of them. *)
Definition endMinutes (e : TeacherSchedule.ScheduleEvent) : JS.number :=
  JS.add (TeacherSchedule.startMinutes e) (TeacherSchedule.durationMinutes e).

Definition minutes_overlap (A B : TeacherSchedule.ScheduleEvent) : bool :=
  JS.lt (TeacherSchedule.startMinutes A) (endMinutes B)
  && JS.lt (TeacherSchedule.startMinutes B) (endMinutes A).

(** Events used in the examples: a class on Monday 2025-01-06. *)
Definition admin_event (start_ end_ : string) : AdminSchedule.ScheduleEvent :=
  AdminSchedule.mkScheduleEvent "L1" (mkClassSchedule 2 start_ end_) "2025-01-06" None (Some false).

Definition teacher_event (start_ end_ : string) : TeacherSchedule.ScheduleEvent :=
  TeacherSchedule.scheduleEvent "L1" (mkClassSchedule 2 start_ end_) 20094.

Definition admin_layout (l : list AdminSchedule.Positioned) : list (nat * nat) :=
  (λ p, (AdminSchedule.column p, AdminSchedule.totalColumns p)) <$> l.

Definition teacher_layout (l : list TeacherSchedule.WeekEvent) : list (nat * nat) :=
  (λ p, (TeacherSchedule.column p, TeacherSchedule.totalColumns p)) <$> l.

(** The week shown for that Monday. *)
Definition week : list Dayjs.t := TeacherSchedule.weekDays 20094.

(** The layouts the two screens give the same schedules of one day. *)
Definition admin_result (schedules : list (string * string)) : list (nat * nat) :=
  admin_layout (AdminSchedule.groupOverlappingEvents JS.codeUnitCompare
                  ((λ s, admin_event (fst s) (snd s)) <$> schedules)).

Definition teacher_result (schedules : list (string * string)) : list (nat * nat) :=
  teacher_layout (TeacherSchedule.getWeekEvents week
                    ((λ s, teacher_event (fst s) (snd s)) <$> schedules)).

(** What one turn of the placement loop computes for [e]: the entries
    it overlaps, its column, the count it spreads, and the effect on an
    older entry. *)
Definition overlapped (positioned : list AdminSchedule.Positioned)
    (e : AdminSchedule.ScheduleEvent) : list AdminSchedule.Positioned :=
  filter (λ p, AdminSchedule.overlaps e (AdminSchedule.event p)) positioned.

Definition placed_column (positioned : list AdminSchedule.Positioned)
    (e : AdminSchedule.ScheduleEvent) : nat :=
  let usedColumns : gset nat := list_to_set (AdminSchedule.column <$> overlapped positioned e) in
  AdminSchedule.first_free (S (size usedColumns)) usedColumns 0.

Definition placed_total (positioned : list AdminSchedule.Positioned)
    (e : AdminSchedule.ScheduleEvent) : nat :=
  foldr Nat.max (placed_column positioned e + 1)%nat
        (AdminSchedule.totalColumns <$> overlapped positioned e).

Definition raise (e : AdminSchedule.ScheduleEvent) (m : nat) (p : AdminSchedule.Positioned)
    : AdminSchedule.Positioned :=
  if AdminSchedule.overlaps e (AdminSchedule.event p)
  then AdminSchedule.set_totalColumns m p else p.

(** Positions joined by a chain of overlapping events. *)
Definition linked (evs : list AdminSchedule.ScheduleEvent) : relation nat :=
  rtc (λ i j, adjacent evs i j = true).

(** Entry [q] at position [j] has the least column that no earlier
    overlapping entry has. *)
Definition first_fit_at (positioned : list AdminSchedule.Positioned) (j : nat)
    (q : AdminSchedule.Positioned) : Prop :=
  (∀ i p, (i < j)%nat → positioned !! i = Some p →
          interval_overlap (AdminSchedule.event q) (AdminSchedule.event p) = true →
          AdminSchedule.column p ≠ AdminSchedule.column q)
  ∧ (∀ c, (c < AdminSchedule.column q)%nat →
          ∃ i p, (i < j)%nat ∧ positioned !! i = Some p
                 ∧ interval_overlap (AdminSchedule.event q) (AdminSchedule.event p) = true
                 ∧ AdminSchedule.column p = c).

(** What the placement loop and the final pass keep true of
    [positioned], the events in processing order being [evs]. *)
Record layout_inv (evs : list AdminSchedule.ScheduleEvent)
    (positioned : list AdminSchedule.Positioned) : Prop := mkLayoutInv {
  inv_events : ∀ k p, positioned !! k = Some p → evs !! k = Some (AdminSchedule.event p);
  inv_first_fit : ∀ j q, positioned !! j = Some q → first_fit_at positioned j q;
  inv_column : ∀ k p, positioned !! k = Some p →
      (AdminSchedule.column p < AdminSchedule.totalColumns p)%nat;
  inv_neighbour : ∀ i j p q, i ≠ j → positioned !! i = Some p → positioned !! j = Some q →
      interval_overlap (AdminSchedule.event p) (AdminSchedule.event q) = true →
      (AdminSchedule.column q < AdminSchedule.totalColumns p)%nat;
  inv_source : ∀ k p, positioned !! k = Some p →
      ∃ w q, positioned !! w = Some q ∧ linked evs k w
             ∧ AdminSchedule.totalColumns p = (AdminSchedule.column q + 1)%nat
}.

(** [positioned'] has the entries of [positioned] with their events and
    columns, and the count of each either kept or raised to the count
    of an overlapping entry. *)
Definition settles (positioned positioned' : list AdminSchedule.Positioned) : Prop :=
  length positioned' = length positioned
  ∧ ∀ k p, positioned !! k = Some p →
      ∃ p', positioned' !! k = Some p'
            ∧ AdminSchedule.event p' = AdminSchedule.event p
            ∧ AdminSchedule.column p' = AdminSchedule.column p
            ∧ (AdminSchedule.totalColumns p' = AdminSchedule.totalColumns p
               ∨ ∃ k2 p2, k2 ≠ k ∧ positioned !! k2 = Some p2
                   ∧ interval_overlap (AdminSchedule.event p) (AdminSchedule.event p2) = true
                   ∧ (AdminSchedule.totalColumns p ≤ AdminSchedule.totalColumns p2)%nat
                   ∧ AdminSchedule.totalColumns p' = AdminSchedule.totalColumns p2).

(** A set of positions that no overlap step leaves. *)
Definition closed_under (evs : list AdminSchedule.ScheduleEvent) (members : list nat) : Prop :=
  ∀ x y, x ∈ members → adjacent evs x y = true → y ∈ members.

(** The events of the input with their positions, and the order in
    which two of them are processed: by start, ties by position. *)
Definition indexed (events : list AdminSchedule.ScheduleEvent)
    : list (nat * AdminSchedule.ScheduleEvent) :=
  zip (seq 0 (length events)) events.

Definition before (localeCompare : string → string → Z)
    (a b : nat * AdminSchedule.ScheduleEvent) : Prop :=
  let order := localeCompare (Gio_bat_dau (AdminSchedule.schedule (snd a)))
                             (Gio_bat_dau (AdminSchedule.schedule (snd b))) in
  order < 0 ∨ (order = 0 ∧ (fst a < fst b)%nat).

Definition by_start_indexed (localeCompare : string → string → Z)
    (a b : nat * AdminSchedule.ScheduleEvent) : JS.number :=
  AdminSchedule.by_start localeCompare (snd a) (snd b).

(** No two events of an admin list overlap. *)
Definition apart (events : list AdminSchedule.ScheduleEvent) : Prop :=
  ∀ i j a b, i ≠ j → events !! i = Some a → events !! j = Some b →
             interval_overlap a b = false.

(** A teacher event that starts strictly before it ends, and a list of
    teacher events of which no two of the same day overlap. *)
Definition positive (e : TeacherSchedule.ScheduleEvent) : Prop :=
  JS.lt (TeacherSchedule.startMinutes e) (endMinutes e) = true.

Definition apart_minutes (events : list TeacherSchedule.ScheduleEvent) : Prop :=
  ∀ i j a b, i ≠ j → events !! i = Some a → events !! j = Some b →
             Dayjs.isSame (TeacherSchedule.date a) (TeacherSchedule.date b) = true →
             minutes_overlap a b = false.

(** The number of events of a list that fall on a day. *)
Definition events_on (events : list TeacherSchedule.ScheduleEvent) (day : Dayjs.t) : nat :=
  length (filter (λ e, Dayjs.isSame (TeacherSchedule.date e) day) events).

(** An entry of the teacher layout whose column lies within its count,
    the count being at most the number of events of the entry's day. *)
Definition within (events : list TeacherSchedule.ScheduleEvent)
    (e : TeacherSchedule.WeekEvent) : Prop :=
  (TeacherSchedule.column e < TeacherSchedule.totalColumns e
   ≤ events_on events (TeacherSchedule.date (TeacherSchedule.event e)))%nat.

(** What the column pass of getWeekEvents keeps true of its store. *)
Definition kept (events : list TeacherSchedule.ScheduleEvent)
    (store : list TeacherSchedule.WeekEvent) : Prop :=
  TeacherSchedule.event <$> store = events ∧ Forall (within events) store.

(** ** More of the runtime: numbers as text, maps, sets and sorting *)

Module ES.

(** [n.toString()] of an integer: its decimal digits, with a minus sign
    when negative (integers of 22 digits and more print otherwise). *)
Definition toString (n : Z) : string := DecimalString.NilZero.string_of_int (Z.to_int n).

(** [s.padStart(targetLength, c)] with a pad of one character. *)
Definition padStart (targetLength : nat) (c : Ascii.ascii) (s : string) : string :=
  string_of_list_ascii (replicate (targetLength - String.length s) c) ++ s.

(** A [Map] with text keys: its entries in the order of insertion. *)
Definition Map (V : Type) : Type := list (string * V).

Fixpoint get {V : Type} (m : Map V) (key : string) : option V :=
  match m with
  | [] => None
  | (k, v) :: m' => if String.eqb k key then Some v else get m' key
  end.

(** [m.set(key, v)]: a key the map has keeps its place, a new one goes
    last. *)
Fixpoint set {V : Type} (m : Map V) (key : string) (v : V) : Map V :=
  match m with
  | [] => [(key, v)]
  | (k, v') :: m' => if String.eqb k key then (k, v) :: m' else (k, v') :: set m' key v
  end.

Definition values {V : Type} (m : Map V) : list V := snd <$> m.

(** [Array.from(new Set(l))]: the elements of [l], each where it first
    occurs. *)
Definition unique {A : Type} `{EqDecision A} (l : list A) : list A :=
  foldl (λ seen x, if bool_decide (x ∈ seen) then seen else seen ++ [x]) [] l.

(** [l.sort()] on texts: by code units. *)
Definition sort_strings (l : list string) : list string :=
  JS.sort (λ a b, JS.Num (JS.codeUnitCompare a b)) l.

End ES.

(** The character of a decimal digit. *)
Definition digit (d : Z) : Ascii.ascii := Ascii.ascii_of_N (Z.to_N (48 + d)).

(** The HH:mm text of hour [h] and minute [m], both padded to two
    digits: what the hour slots of the admin calendar build for their
    bounds and what [format("HH:mm")] prints for a time of day. *)
Definition HHmm (h m : Z) : string :=
  ES.padStart 2 "0" (ES.toString h) ++ ":" ++ ES.padStart 2 "0" (ES.toString m).

(** A schedule whose two times are HH:mm texts of times of day. *)
Definition timed (Thu h m h' m' : Z) : ClassSchedule :=
  mkClassSchedule Thu (HHmm h m) (HHmm h' m').

Definition time_of_day (h m : Z) : Prop := 0 ≤ h < 24 ∧ 0 ≤ m < 60.

(** ** The records of the store *)

(** A class.  The type is declared outside the two screens; it has here
    the fields they read.  Text fields are strings, an absent text
    standing as the empty one, which the screens treat alike wherever
    they test a text; the list of weekly lessons and the list of
    students may be absent, and an element of the list of lessons may
    be null, [None] here: the admin calendar tests for it. *)
Module Class.
Record t : Set := mk {
  id : string;
  Ma_lop : string;
  Ten_lop : string;
  Trang_thai : string;
  Khoi : string;
  Mon_hoc : string;
  Teacher_ID : string;
  Giao_vien_chu_nhiem : string;
  Phong_hoc : string;
  Lich_hoc : option (list (option ClassSchedule));
  Student_IDs : option (list string)
}.
End Class.

(** A record of the timetable of make-up lessons as it is stored,
    [Omit<TimetableEntry, "id">], and as the screens hold it, under the
    id of its node: [{ id, ...value }]. *)
Module Timetable.
Record t : Set := mk {
  Class_ID : string;
  Ma_lop : string;
  Ten_lop : string;
  Ngay : string;
  Thu : Z;
  Gio_bat_dau : string;
  Gio_ket_thuc : string;
  Phong_hoc : option string;
  Ghi_chu : option string;
  Thay_the_ngay : option string;
  Thay_the_thu : option Z
}.
End Timetable.

Module TimetableEntry.
Record t : Set := mk { id : string; value : Timetable.t }.
End TimetableEntry.

Module Room.
Record t : Set := mk { Ten_phong : string; Dia_diem : string }.
End Room.

Module Session.
Record t : Set := mk {
  Class_ID : string;
  Ngay : string;
  Diem_danh : option (list bool)   (* the [Có mặt] field of each record *)
}.
End Session.

(** The lessons of a list when a field of every element is read, as
    [schedules.map(s => s["Thứ"] ...)] does: reading a field of a null
    element raises, [None] here. *)
Definition every_lesson (schedules : list (option ClassSchedule))
    : option (list ClassSchedule) :=
  mapM id schedules.

(** A write a handler asks of the store. *)
Inductive Write : Set :=
| update_class (classId : string) (Lich_hoc : list ClassSchedule) (Phong_hoc : option string)
| remove_entry (id : string)
| push_entry (value : Timetable.t).

(** The key under which both screens file a timetable record. *)
Definition timetableKey (classId dateStr : string) (dayOfWeek : Z) : string :=
  classId ++ "_" ++ dateStr ++ "_" ++ ES.toString dayOfWeek.

(** The [Map] both screens build from a snapshot of the timetable, the
    entries of the snapshot being [data]. *)
Definition loadTimetable (data : list (string * Timetable.t)) : ES.Map TimetableEntry.t :=
  foldl (λ entriesMap iv,
           let value := snd iv in
           let key := timetableKey (Timetable.Class_ID value) (Timetable.Ngay value)
                                   (Timetable.Thu value) in
           ES.set entriesMap key (TimetableEntry.mk (fst iv) value))
        [] data.

(** ** The rest of the admin calendar *)

Module AdminPage.

Inductive FilterMode : Set := by_class | by_subject | by_teacher | by_location.

Module FilterItem.
Record t : Set := mk { id : string; label : string }.
End FilterItem.

Module Count.
Record t : Set := mk { present : nat; total : nat }.
End Count.

(** The values of the edit form, its two times printed as HH:mm. *)
Module FormValues.
Record t : Set := mk {
  Gio_bat_dau : string;
  Gio_ket_thuc : string;
  Phong_hoc : string;
  Ghi_chu : string
}.
End FormValues.

Module HourSlot.
Record t : Set := mk { hour : Z; label : string; start : string; end_ : string }.
End HourSlot.

Definition HOUR_SLOTS : list HourSlot.t :=
  (λ i, let hour := i + 6 in
        HourSlot.mk hour
          (ES.padStart 2 "0" (ES.toString hour) ++ ":00")
          (ES.padStart 2 "0" (ES.toString hour) ++ ":00")
          (ES.padStart 2 "0" (ES.toString (hour + 1)) ++ ":00"))
  <$> seqZ 0 17.

Definition weekDays (currentWeekStart : Dayjs.t) : list Dayjs.t :=
  (λ i, currentWeekStart + i) <$> seqZ 0 7.

(** [prev.subtract(1, "week")] and [prev.add(1, "week")] *)
Definition goToPreviousWeek (prev : Dayjs.t) : Dayjs.t := prev - 7.
Definition goToNextWeek (prev : Dayjs.t) : Dayjs.t := prev + 7.

(** The box of an event in its day column: the top getEventStyle
    gives, and its height raised to 50. *)
Definition box (event : AdminSchedule.ScheduleEvent) : AdminSchedule.Style :=
  let style := AdminSchedule.getEventStyle event in
  AdminSchedule.mkStyle (AdminSchedule.top style)
                        (JS.max (AdminSchedule.height style) (JS.Num 50)).

Section Page.

(** [date.format("YYYY-MM-DD")], [s.trim()], the table [subjectMap] and
    [a.localeCompare(b)] come from outside the screen. *)
Variable format : Dayjs.t → string.
Variable trim : string → string.
Variable subjectMap : string → option string.
Variable localeCompare : string → string → Z.

(** The state the screen renders from. *)
Variable classes : list Class.t.
Variable rooms : ES.Map Room.t.
Variable attendanceSessions : list Session.t.
Variable timetableEntries : ES.Map TimetableEntry.t.
Variable filterMode : FilterMode.
Variable selectedItems : gset string.

Definition replaces (classId dateStr : string) (dayOfWeek : Z) (entry : TimetableEntry.t)
    : bool :=
  String.eqb (Timetable.Class_ID (TimetableEntry.value entry)) classId
  && bool_decide (Timetable.Thay_the_ngay (TimetableEntry.value entry) = Some dateStr)
  && bool_decide (Timetable.Thay_the_thu (TimetableEntry.value entry) = Some dayOfWeek).

Definition isDateReplacedByCustomSchedule (classId dateStr : string) (dayOfWeek : Z) : bool :=
  existsb (replaces classId dateStr dayOfWeek) (ES.values timetableEntries).

Definition roomLabel (room : Room.t) : string :=
  Room.Ten_phong room ++ " - " ++ Room.Dia_diem room.

Definition getRoomName (roomId : string) : string :=
  if JS.falsy roomId then ""
  else match ES.get rooms roomId with
       | Some room => roomLabel room
       | None => roomId
       end.

Definition is_active (c : Class.t) : bool := String.eqb (Class.Trang_thai c) "active".

Definition activeClasses : list Class.t := filter (λ c, is_active c) classes.

Definition getAttendanceCount (classId date : string) : Count.t :=
  let session :=
    List.find (λ s, String.eqb (Session.Class_ID s) classId
                    && String.eqb (Session.Ngay s) date) attendanceSessions in
  match session ≫= Session.Diem_danh with
  | None =>
      let classData := List.find (λ c, String.eqb (Class.id c) classId) activeClasses in
      let total := match classData ≫= Class.Student_IDs with
                   | Some students => length students
                   | None => 0%nat
                   end in
      Count.mk 0 total
  | Some attendanceRecords =>
      let present := length (filter (λ r : bool, r) attendanceRecords) in
      let total := length attendanceRecords in
      Count.mk present total
  end.

(** [s && s.trim() !== ""] *)
Definition filled (s : string) : bool := negb (JS.falsy s) && negb (String.eqb (trim s) "").

Definition getFilterItems : list FilterItem.t :=
  match filterMode with
  | by_class =>
      (λ grade, FilterItem.mk grade ("Khối " ++ grade))
      <$> ES.sort_strings (ES.unique (Class.Khoi <$> activeClasses))
  | by_subject =>
      let subjects :=
        ES.sort_strings
          (ES.unique (filter (λ s, filled s) (Class.Mon_hoc <$> activeClasses))) in
      (λ subject,
         FilterItem.mk subject
           (match subjectMap subject with
            | Some name => if JS.falsy name then subject else name
            | None => subject
            end))
      <$> subjects
  | by_teacher =>
      (* the Set holds the JSON text of each pair, one text per pair *)
      (λ t, FilterItem.mk (fst t) (snd t))
      <$> ES.unique ((λ c, (Class.Teacher_ID c, Class.Giao_vien_chu_nhiem c))
                     <$> activeClasses)
  | by_location =>
      let roomIds :=
        ES.unique (filter (λ r, filled r) (Class.Phong_hoc <$> activeClasses)) in
      (λ roomId,
         FilterItem.mk roomId
           (match ES.get rooms roomId with
            | Some room => roomLabel room
            | None => roomId
            end))
      <$> ES.sort_strings roomIds
  end.

Definition shown (c : Class.t) : bool :=
  if (size selectedItems =? 0)%nat then true
  else match filterMode with
       | by_class => bool_decide (Class.Khoi c ∈ selectedItems)
       | by_subject => bool_decide (Class.Mon_hoc c ∈ selectedItems)
       | by_teacher => bool_decide (Class.Teacher_ID c ∈ selectedItems)
       | by_location =>
           negb (JS.falsy (Class.Phong_hoc c))
           && bool_decide (Class.Phong_hoc c ∈ selectedItems)
       end.

Definition filteredClasses : list Class.t := filter (λ c, shown c) activeClasses.

(** The event pushed for a record of the timetable. *)
Definition customEvent (classData : Class.t) (customSchedule : TimetableEntry.t)
    (dateStr : string) : AdminSchedule.ScheduleEvent :=
  let value := TimetableEntry.value customSchedule in
  AdminSchedule.mkScheduleEvent (Class.id classData)
    (mkClassSchedule (Timetable.Thu value) (Timetable.Gio_bat_dau value)
                     (Timetable.Gio_ket_thuc value))
    dateStr (Some (TimetableEntry.id customSchedule)) (Some true).

(** The event pushed for a weekly lesson of the class. *)
Definition weeklyEvent (classData : Class.t) (schedule : ClassSchedule) (dateStr : string)
    : AdminSchedule.ScheduleEvent :=
  AdminSchedule.mkScheduleEvent (Class.id classData) schedule dateStr None (Some false).

(** [s && s["Thứ"] === dayOfWeek] *)
Definition on_day (dayOfWeek : Z) (s : option ClassSchedule) : bool :=
  match s with
  | Some s => Thu s =? dayOfWeek
  | None => false
  end.

(** What one turn of [filteredClasses.forEach] pushes in getEventsForDate.
    The elements the filter keeps are lessons, none of them null. *)
Definition pushed (date : Dayjs.t) (classData : Class.t) : list AdminSchedule.ScheduleEvent :=
  let dayOfWeek := dayOfWeek date in
  let dateStr := format date in
  match ES.get timetableEntries (timetableKey (Class.id classData) dateStr dayOfWeek) with
  | Some customSchedule => [customEvent classData customSchedule dateStr]
  | None =>
      if isDateReplacedByCustomSchedule (Class.id classData) dateStr dayOfWeek then []
      else match Class.Lich_hoc classData with
           | None => []
           | Some schedules =>
               (λ schedule, weeklyEvent classData schedule dateStr)
               <$> omap id (filter (λ s, on_day dayOfWeek s) schedules)
           end
  end.

Definition getEventsForDate (date : Dayjs.t) : list AdminSchedule.ScheduleEvent :=
  foldl (λ events classData, events ++ pushed date classData) [] filteredClasses.

(** [scheduleStart && scheduleStart >= slotStart && scheduleStart < slotEnd] *)
Definition in_slot (slotStart slotEnd scheduleStart : string) : bool :=
  negb (JS.falsy scheduleStart)
  && negb (JS.str_lt scheduleStart slotStart)
  && JS.str_lt scheduleStart slotEnd.

(** The filter of getEventsForDateAndSlot: false on a null element, on
    a lesson of another weekday and on a start outside the slot. *)
Definition on_day_in_slot (dayOfWeek : Z) (slotStart slotEnd : string)
    (s : option ClassSchedule) : bool :=
  match s with
  | Some s => (Thu s =? dayOfWeek) && in_slot slotStart slotEnd (Gio_bat_dau s)
  | None => false
  end.

Definition pushed_in_slot (date : Dayjs.t) (slotStart slotEnd : string) (classData : Class.t)
    : list AdminSchedule.ScheduleEvent :=
  let dayOfWeek := dayOfWeek date in
  let dateStr := format date in
  match ES.get timetableEntries (timetableKey (Class.id classData) dateStr dayOfWeek) with
  | Some customSchedule =>
      if in_slot slotStart slotEnd
           (Timetable.Gio_bat_dau (TimetableEntry.value customSchedule))
      then [customEvent classData customSchedule dateStr]
      else []
  | None =>
      if isDateReplacedByCustomSchedule (Class.id classData) dateStr dayOfWeek then []
      else match Class.Lich_hoc classData with
           | None => []
           | Some schedules =>
               (λ schedule, weeklyEvent classData schedule dateStr)
               <$> omap id (filter (λ s, on_day_in_slot dayOfWeek slotStart slotEnd s)
                                   schedules)
           end
  end.

Definition getEventsForDateAndSlot (date : Dayjs.t) (slotStart slotEnd : string)
    : list AdminSchedule.ScheduleEvent :=
  let events :=
    foldl (λ events classData, events ++ pushed_in_slot date slotStart slotEnd classData)
          [] filteredClasses in
  JS.sort (AdminSchedule.by_start localeCompare) events.

(** The selection each handler passes to [setSelectedItems]. *)
Definition handleItemToggle (id : string) : gset string :=
  if bool_decide (id ∈ selectedItems) then selectedItems ∖ {[id]}
  else selectedItems ∪ {[id]}.

Definition handleSelectAll : gset string :=
  if (size selectedItems =? length getFilterItems)%nat then ∅
  else list_to_set (FilterItem.id <$> getFilterItems).

(** The lesson of [event] among the weekly lessons of its class. *)
Definition same_lesson (event : AdminSchedule.ScheduleEvent) (s : ClassSchedule) : bool :=
  (Thu s =? Thu (AdminSchedule.schedule event))
  && String.eqb (Gio_bat_dau s) (Gio_bat_dau (AdminSchedule.schedule event))
  && String.eqb (Gio_ket_thuc s) (Gio_ket_thuc (AdminSchedule.schedule event)).

(** The handlers below receive the class record of the event beside
    the event, the events of this development keeping its id only; they
    yield the writes they ask of the store, in order, none failing.  The
    two handlers for all weeks read a field of every lesson before they
    write: on a null lesson that raises, the handler catches it and has
    written nothing. *)
Definition saveScheduleAllWeeks (classData : Class.t) (event : AdminSchedule.ScheduleEvent)
    (values : FormValues.t) : list Write :=
  let currentSchedules := default [] (Class.Lich_hoc classData) in
  let dayOfWeek := Thu (AdminSchedule.schedule event) in
  match every_lesson currentSchedules with
  | None => []
  | Some currentSchedules =>
      let updatedSchedules :=
        (λ s, if same_lesson event s
              then mkClassSchedule dayOfWeek (FormValues.Gio_bat_dau values)
                                   (FormValues.Gio_ket_thuc values)
              else s) <$> currentSchedules in
      let room := if JS.falsy (FormValues.Phong_hoc values) then None
                  else Some (FormValues.Phong_hoc values) in
      let entriesToDelete :=
        TimetableEntry.id
        <$> filter (λ entry,
                      String.eqb (Timetable.Class_ID (TimetableEntry.value entry))
                                 (Class.id classData)
                      && (Timetable.Thu (TimetableEntry.value entry) =? dayOfWeek))
                   (ES.values timetableEntries) in
      update_class (Class.id classData) updatedSchedules room
      :: (remove_entry <$> entriesToDelete)
  end.

Definition moveScheduleAllWeeks (classData : Class.t) (event : AdminSchedule.ScheduleEvent)
    (targetDate : Dayjs.t) : list Write :=
  let newDayOfWeek := dayOfWeek targetDate in
  let oldDayOfWeek := Thu (AdminSchedule.schedule event) in
  let currentSchedules := default [] (Class.Lich_hoc classData) in
  match every_lesson currentSchedules with
  | None => []
  | Some currentSchedules =>
      let updatedSchedules :=
        (λ s, if same_lesson event s
              then mkClassSchedule newDayOfWeek (Gio_bat_dau s) (Gio_ket_thuc s)
              else s) <$> currentSchedules in
      let entriesToDelete :=
        TimetableEntry.id
        <$> filter (λ entry,
                      String.eqb (Timetable.Class_ID (TimetableEntry.value entry))
                                 (Class.id classData)
                      && ((Timetable.Thu (TimetableEntry.value entry) =? oldDayOfWeek)
                          || bool_decide (Timetable.Thay_the_thu (TimetableEntry.value entry)
                                          = Some oldDayOfWeek)))
                   (ES.values timetableEntries) in
      update_class (Class.id classData) updatedSchedules None
      :: (remove_entry <$> entriesToDelete)
  end.

Definition moveScheduleThisDateOnly (classData : Class.t)
    (event : AdminSchedule.ScheduleEvent) (targetDate : Dayjs.t) : list Write :=
  let newDateStr := format targetDate in
  let oldDateStr := AdminSchedule.date event in
  let newDayOfWeek := dayOfWeek targetDate in
  let oldDayOfWeek := Thu (AdminSchedule.schedule event) in
  let replaced :=
    if negb (default false (AdminSchedule.isCustomSchedule event))
    then (Some oldDateStr, Some oldDayOfWeek) else (None, None) in
  let existingEntry :=
    match AdminSchedule.scheduleId event with
    | Some scheduleId =>
        if JS.falsy scheduleId then None
        else List.find (λ entry, String.eqb (TimetableEntry.id entry) scheduleId)
                       (ES.values timetableEntries)
    | None => None
    end in
  let replaced :=
    match existingEntry with
    | Some entry =>
        match Timetable.Thay_the_ngay (TimetableEntry.value entry) with
        | Some day =>
            if JS.falsy day then replaced
            else (Some day, Timetable.Thay_the_thu (TimetableEntry.value entry))
        | None => replaced
        end
    | None => replaced
    end in
  let timetableData :=
    Timetable.mk (Class.id classData) (Class.Ma_lop classData)
      (Class.Ten_lop classData) newDateStr newDayOfWeek
      (Gio_bat_dau (AdminSchedule.schedule event))
      (Gio_ket_thuc (AdminSchedule.schedule event))
      (Some (Class.Phong_hoc classData)) None (fst replaced) (snd replaced) in
  match AdminSchedule.scheduleId event with
  | Some scheduleId =>
      if JS.falsy scheduleId then [push_entry timetableData]
      else [remove_entry scheduleId; push_entry timetableData]
  | None => [push_entry timetableData]
  end.

End Page.

End AdminPage.

(** ** The rest of the teacher calendar *)

Module TeacherPage.

Inductive ViewMode : Set := view_all | view_subject | view_location.

Section Page.

Variable format : Dayjs.t → string.
Variable trim : string → string.

Variable classes : list Class.t.
Variable teacherId : string.
Variable rooms : ES.Map Room.t.
Variable timetableEntries : ES.Map TimetableEntry.t.
Variable viewMode : ViewMode.
Variable selectedSubjects : gset string.
Variable selectedLocations : gset string.

Definition replaces (classId dateStr : string) (dayOfWeek : Z) (entry : TimetableEntry.t)
    : bool :=
  String.eqb (Timetable.Class_ID (TimetableEntry.value entry)) classId
  && bool_decide (Timetable.Thay_the_ngay (TimetableEntry.value entry) = Some dateStr)
  && bool_decide (Timetable.Thay_the_thu (TimetableEntry.value entry) = Some dayOfWeek).

Definition isDateReplacedByCustomSchedule (classId dateStr : string) (dayOfWeek : Z) : bool :=
  existsb (replaces classId dateStr dayOfWeek) (ES.values timetableEntries).

Definition getRoomName (roomId : string) : string :=
  if JS.falsy roomId then ""
  else match ES.get rooms roomId with
       | Some room => Room.Ten_phong room ++ " - " ++ Room.Dia_diem room
       | None => roomId
       end.

Definition mine (c : Class.t) : bool :=
  let match_ := String.eqb (Class.Teacher_ID c) teacherId in
  match_ && String.eqb (Class.Trang_thai c) "active".

Definition myClasses : list Class.t := filter (λ c, mine c) classes.

Definition subjects : list string :=
  ES.sort_strings (ES.unique (Class.Mon_hoc <$> myClasses)).

Definition filled (s : string) : bool := negb (JS.falsy s) && negb (String.eqb (trim s) "").

Definition locations : list string :=
  ES.sort_strings (ES.unique (filter (λ r, filled r) (Class.Phong_hoc <$> myClasses))).

Definition filteredClasses : list Class.t :=
  match viewMode with
  | view_all => myClasses
  | view_subject =>
      if (size selectedSubjects =? 0)%nat then myClasses
      else filter (λ c, Class.Mon_hoc c ∈ selectedSubjects) myClasses
  | view_location =>
      if (size selectedLocations =? 0)%nat then myClasses
      else filter (λ c, negb (JS.falsy (Class.Phong_hoc c))
                        && bool_decide (Class.Phong_hoc c ∈ selectedLocations))
                  myClasses
  end.

(** The event pushed for a record of the timetable. *)
Definition customEvent (classData : Class.t) (customSchedule : TimetableEntry.t)
    (date : Dayjs.t) : TeacherSchedule.ScheduleEvent :=
  let value := TimetableEntry.value customSchedule in
  let startMinutes := TeacherSchedule.timeToMinutes (Timetable.Gio_bat_dau value) in
  let endMinutes := TeacherSchedule.timeToMinutes (Timetable.Gio_ket_thuc value) in
  TeacherSchedule.mkScheduleEvent (Class.id classData)
    (mkClassSchedule (Timetable.Thu value) (Timetable.Gio_bat_dau value)
                     (Timetable.Gio_ket_thuc value))
    date startMinutes (JS.sub endMinutes startMinutes)
    (Some (TimetableEntry.id customSchedule)) (Some true).

(** What one turn of [filteredClasses.forEach] pushes in getWeekEvents.
    The filter over the weekly lessons reads [s["Thứ"]] of every
    element with no test before it, so a null lesson makes the turn
    raise: [None]. *)
Definition pushed (date : Dayjs.t) (classData : Class.t)
    : option (list TeacherSchedule.ScheduleEvent) :=
  let dayOfWeek := dayOfWeek date in
  let dateStr := format date in
  match ES.get timetableEntries (timetableKey (Class.id classData) dateStr dayOfWeek) with
  | Some customSchedule => Some [customEvent classData customSchedule date]
  | None =>
      if isDateReplacedByCustomSchedule (Class.id classData) dateStr dayOfWeek then Some []
      else match Class.Lich_hoc classData with
           | Some schedules =>
               match every_lesson schedules with
               | Some schedules =>
                   Some ((λ schedule,
                            TeacherSchedule.scheduleEvent (Class.id classData) schedule date)
                         <$> filter (λ s, Thu s = dayOfWeek) schedules)
               | None => None
               end
           | None => Some []
           end
  end.

(** The first half of getWeekEvents: the array [events] it gathers,
    or [None] when a turn raises. *)
Definition gathered (weekDays : list Dayjs.t) : option (list TeacherSchedule.ScheduleEvent) :=
  foldl (λ events date,
           foldl (λ events classData,
                    match events, pushed date classData with
                    | Some events, Some more => Some (events ++ more)
                    | _, _ => None
                    end)
                 events filteredClasses)
        (Some []) weekDays.

(** getWeekEvents as a whole: the gathered events, then the column pass. *)
Definition getWeekEvents (weekDays : list Dayjs.t) : option (list TeacherSchedule.WeekEvent) :=
  TeacherSchedule.getWeekEvents weekDays <$> gathered weekDays.

(** The events a day column draws: [weekEvents.filter(e => e.date.isSame(day, "day"))] *)
Definition dayEvents (weekEvents : list TeacherSchedule.WeekEvent) (day : Dayjs.t)
    : list TeacherSchedule.WeekEvent :=
  filter (λ e, Dayjs.isSame (TeacherSchedule.date (TeacherSchedule.event e)) day) weekEvents.

(** The selections the handlers set: of subjects and of locations. *)
Definition handleSubjectToggle (subject : string) : gset string :=
  if bool_decide (subject ∈ selectedSubjects) then selectedSubjects ∖ {[subject]}
  else selectedSubjects ∪ {[subject]}.

Definition handleLocationToggle (location : string) : gset string :=
  if bool_decide (location ∈ selectedLocations) then selectedLocations ∖ {[location]}
  else selectedLocations ∪ {[location]}.

Definition handleSelectAll : gset string * gset string :=
  match viewMode with
  | view_subject =>
      if (size selectedSubjects =? length subjects)%nat then (∅, selectedLocations)
      else (list_to_set subjects, selectedLocations)
  | view_location =>
      if (size selectedLocations =? length locations)%nat then (selectedSubjects, ∅)
      else (selectedSubjects, list_to_set locations)
  | view_all => (selectedSubjects, selectedLocations)
  end.

(** handleDrop on a dragged event and its class record: the writes it
    asks of the store, in order, none failing. *)
Definition handleDrop (classData : Class.t) (draggingEvent : TeacherSchedule.ScheduleEvent)
    (targetDay : Dayjs.t) : list Write :=
  let newDateStr := format targetDay in
  let oldDateStr := format (TeacherSchedule.date draggingEvent) in
  if String.eqb newDateStr oldDateStr then []
  else
    let newDayOfWeek := dayOfWeek targetDay in
    let oldDayOfWeek := Thu (TeacherSchedule.schedule draggingEvent) in
    let replaced :=
      if negb (default false (TeacherSchedule.isCustomSchedule draggingEvent))
      then (Some oldDateStr, Some oldDayOfWeek) else (None, None) in
    let timetableData (replaced : option string * option Z) :=
      Timetable.mk (Class.id classData) (Class.Ma_lop classData) (Class.Ten_lop classData)
        newDateStr newDayOfWeek
        (Gio_bat_dau (TeacherSchedule.schedule draggingEvent))
        (Gio_ket_thuc (TeacherSchedule.schedule draggingEvent))
        (Some (Class.Phong_hoc classData)) None (fst replaced) (snd replaced) in
    match TeacherSchedule.scheduleId draggingEvent with
    | Some scheduleId =>
        if JS.falsy scheduleId then [push_entry (timetableData replaced)]
        else
          let existingEntry :=
            List.find (λ entry, String.eqb (TimetableEntry.id entry) scheduleId)
                      (ES.values timetableEntries) in
          let replaced :=
            match existingEntry with
            | Some entry =>
                match Timetable.Thay_the_ngay (TimetableEntry.value entry) with
                | Some day =>
                    if JS.falsy day then replaced
                    else (Some day, Timetable.Thay_the_thu (TimetableEntry.value entry))
                | None => replaced
                end
            | None => replaced
            end in
          [remove_entry scheduleId; push_entry (timetableData replaced)]
    | None => [push_entry (timetableData replaced)]
    end.

End Page.

End TeacherPage.

(** ** Notions the pages are specified with *)

(** A turn of the teacher's gathering that reads the weekly lessons of
    a class with a null lesson among them: the class has no record of
    the timetable on the date, the date's lesson is not moved away, and
    its list of lessons has a null element. *)
Definition reads_null (format : Dayjs.t → string)
    (timetableEntries : ES.Map TimetableEntry.t) (date : Dayjs.t) (c : Class.t) : Prop :=
  ES.get timetableEntries (timetableKey (Class.id c) (format date) (dayOfWeek date)) = None
  ∧ AdminPage.isDateReplacedByCustomSchedule timetableEntries (Class.id c) (format date)
                                             (dayOfWeek date) = false
  ∧ ∃ schedules, Class.Lich_hoc c = Some schedules ∧ None ∈ schedules.

(** A teacher event as the admin calendar holds it: the date printed,
    the two minute fields left out. *)
Definition admin_view (format : Dayjs.t → string) (e : TeacherSchedule.ScheduleEvent)
    : AdminSchedule.ScheduleEvent :=
  AdminSchedule.mkScheduleEvent (TeacherSchedule.class e) (TeacherSchedule.schedule e)
    (format (TeacherSchedule.date e)) (TeacherSchedule.scheduleId e)
    (TeacherSchedule.isCustomSchedule e).

(** The YYYY-MM-DD text of a day, by the Gregorian calendar: the
    [format] of the examples. *)
Definition calendar_date (date : Dayjs.t) : string :=
  let z := date + 719468 in
  let era := z / 146097 in
  let doe := z - era * 146097 in
  let yoe := (doe - doe / 1460 + doe / 36524 - doe / 146096) / 365 in
  let doy := doe - (365 * yoe + yoe / 4 - yoe / 100) in
  let mp := (5 * doy + 2) / 153 in
  let d := doy - (153 * mp + 2) / 5 + 1 in
  let m := if mp <? 10 then mp + 3 else mp - 9 in
  let y := yoe + era * 400 + (if m <=? 2 then 1 else 0) in
  ES.padStart 4 "0" (ES.toString y) ++ "-" ++ ES.padStart 2 "0" (ES.toString m)
  ++ "-" ++ ES.padStart 2 "0" (ES.toString d).

(** Data of the examples: a class of teacher T1 with lessons on Monday
    and Wednesday, a second class of teacher T2 without a room, and a
    timetable that holds a make-up lesson of the first class on Monday
    2025-01-06. *)
Definition class_L1 : Class.t :=
  Class.mk "L1" "M8A" "Math 8A" "active" "8" "Math" "T1" "Lan" "P1"
    (Some [Some (mkClassSchedule 2 "09:00" "10:00"); Some (mkClassSchedule 4 "14:00" "15:30")])
    (Some ["S1"; "S2"; "S3"]).

Definition class_L2 : Class.t :=
  Class.mk "L2" "L9B" "Physics 9B" "active" "9" "Physics" "T2" "Minh" ""
    (Some [Some (mkClassSchedule 2 "09:30" "11:00")]) None.

(** A class whose list of weekly lessons has a null element. *)
Definition class_L3 : Class.t :=
  Class.mk "L3" "E7C" "English 7C" "active" "7" "English" "T1" "Lan" "P1"
    (Some [None; Some (mkClassSchedule 3 "08:00" "09:00")]) None.

Definition makeup_L1 : Timetable.t :=
  Timetable.mk "L1" "M8A" "Math 8A" "2025-01-06" 2 "16:00" "17:00" (Some "P1") None None None.

Definition timetable_L1 : ES.Map TimetableEntry.t := loadTimetable [("t1", makeup_L1)].

(** A class that has an item in the filter list of a mode: every class
    by grade and by teacher, a class with a subject, or with a room,
    that is not blank by subject, or by location. *)
Definition listed (trim : string → string) (filterMode : AdminPage.FilterMode) (c : Class.t)
    : bool :=
  match filterMode with
  | AdminPage.by_class | AdminPage.by_teacher => true
  | AdminPage.by_subject => AdminPage.filled trim (Class.Mon_hoc c)
  | AdminPage.by_location => AdminPage.filled trim (Class.Phong_hoc c)
  end.

(** The key of a stored record of the timetable. *)
Definition key_of (value : Timetable.t) : string :=
  timetableKey (Timetable.Class_ID value) (Timetable.Ngay value) (Timetable.Thu value).

(** [s.trim()] on texts of ASCII, and a table of subject names: those
    of the examples. *)
Definition is_blank (c : Ascii.ascii) : bool :=
  let n := Ascii.N_of_ascii c in ((9 <=? n) && (n <=? 13) || (n =? 32))%N.

Fixpoint trim_start (s : string) : string :=
  match s with
  | EmptyString => EmptyString
  | String c s' => if is_blank c then trim_start s' else s
  end.

Definition ascii_trim (s : string) : string :=
  String.rev (trim_start (String.rev (trim_start s))).

Definition subject_names (subject : string) : option string :=
  if String.eqb subject "Math" then Some "Mathematics" else None.

(** A make-up lesson of the examples that stands for the Wednesday
    lesson of 2025-01-08, moved to the day after. *)
Definition moved_L1 : Timetable.t :=
  Timetable.mk "L1" "M8A" "Math 8A" "2025-01-09" 5 "14:00" "15:30" (Some "P1") None
               (Some "2025-01-08") (Some 4).

(** * Properties *)

(** ** The runtime fragment *)

Section SortFacts.
Context {A : Type} (comparefn : A → A → JS.number).

Lemma insert_Permutation (x : A) (l : list A) :
  JS.insert comparefn x l ≡ₚ x :: l.
Proof.
  induction l as [|y l IH]; simpl; [done|].
  destruct (JS.exceeds (comparefn x y)); [|done].
  rewrite IH. apply perm_swap.
Qed.

Lemma sort_Permutation (l : list A) : JS.sort comparefn l ≡ₚ l.
Proof.
  induction l as [|x l IH]; simpl; [done|].
  unfold JS.sort in IH. by rewrite insert_Permutation, IH.
Qed.

Lemma length_sort (l : list A) : length (JS.sort comparefn l) = length l.
Proof. by rewrite sort_Permutation. Qed.

End SortFacts.

(** Sorting through a projection [f] commutes with mapping [f]. *)
Lemma insert_fmap {A B : Type} (f : A → B) (cmp : B → B → JS.number) (x : A) (l : list A) :
  f <$> JS.insert (λ a b, cmp (f a) (f b)) x l = JS.insert cmp (f x) (f <$> l).
Proof.
  induction l as [|y l IH]; csimpl; [done|].
  destruct (JS.exceeds (cmp (f x) (f y))); csimpl; [by rewrite IH|done].
Qed.

Lemma sort_fmap {A B : Type} (f : A → B) (cmp : B → B → JS.number) (l : list A) :
  f <$> JS.sort (λ a b, cmp (f a) (f b)) l = JS.sort cmp (f <$> l).
Proof.
  unfold JS.sort. induction l as [|x l IH]; [done|].
  rewrite fmap_cons. cbn [foldr]. rewrite <- IH. apply insert_fmap.
Qed.

(** ** Arrays of shared objects *)

Lemma lookup_foldl_alter {A : Type} (f : A → A) (refs : list nat) (l : list A) (k : nat) :
  (∀ x, f (f x) = f x) →
  foldl (λ ps i, alter f i ps) l refs !! k
  = if bool_decide (k ∈ refs) then f <$> l !! k else l !! k.
Proof.
  intros Hf. revert l. induction refs as [|i refs IH]; intros l; simpl; [done|].
  rewrite IH. destruct (decide (k = i)) as [->|Hne].
  - rewrite list_lookup_alter_eq.
    rewrite (bool_decide_eq_true_2 (i ∈ i :: refs)) by (apply elem_of_cons; by left).
    destruct (bool_decide (i ∈ refs)); [|done].
    destruct (l !! i); simpl; [by rewrite Hf|done].
  - rewrite list_lookup_alter_ne by done.
    assert (k ∈ i :: refs ↔ k ∈ refs) as Hiff.
    { rewrite elem_of_cons. split; [intros [?|?]; [congruence|done]|by right]. }
    by rewrite (bool_decide_ext _ _ Hiff).
Qed.

Lemma length_foldl_alter {A : Type} (f : A → A) (refs : list nat) (l : list A) :
  length (foldl (λ ps i, alter f i ps) l refs) = length l.
Proof.
  revert l. induction refs as [|i refs IH]; intros l; simpl; [done|].
  by rewrite IH, length_alter.
Qed.

Lemma foldr_max_ge (a : nat) (l : list nat) :
  (a ≤ foldr Nat.max a l)%nat ∧ ∀ x, x ∈ l → (x ≤ foldr Nat.max a l)%nat.
Proof.
  induction l as [|y l [IH1 IH2]]; simpl.
  - split; [lia|]. intros x Hx. by apply elem_of_nil in Hx.
  - split; [lia|]. intros x [->|Hx]%elem_of_cons; [lia|].
    specialize (IH2 x Hx). lia.
Qed.

Lemma foldr_max_attained (a : nat) (l : list nat) :
  foldr Nat.max a l = a ∨ foldr Nat.max a l ∈ l.
Proof.
  induction l as [|y l IH]; simpl; [by left|].
  destruct (Nat.max_spec y (foldr Nat.max a l)) as [[_ ->]|[_ ->]].
  - destruct IH as [IH|IH]; [by left|right; apply elem_of_cons; by right].
  - right. apply elem_of_cons. by left.
Qed.

(** ** The admin calendar: the placement loop *)

Import AdminSchedule.

Lemma overlaps_interval (e p : ScheduleEvent) : overlaps e p = interval_overlap e p.
Proof. done. Qed.

Lemma interval_overlap_sym (a b : ScheduleEvent) :
  interval_overlap a b = interval_overlap b a.
Proof. unfold interval_overlap. apply andb_comm. Qed.

Lemma set_totalColumns_idemp (n : nat) (p : Positioned) :
  set_totalColumns n (set_totalColumns n p) = set_totalColumns n p.
Proof. done. Qed.

(** The loop [while (usedColumns.has(column)) column++] leaves with the
    least column outside the set: the fuel it is given is never used up. *)
Lemma first_free_from (usedColumns : gset nat) (fuel k : nat) :
  (∀ c, (c < k)%nat → c ∈ usedColumns) →
  (size usedColumns < k + fuel)%nat →
  (first_free fuel usedColumns k ∉ usedColumns)
  ∧ (∀ c, (c < first_free fuel usedColumns k)%nat → c ∈ usedColumns).
Proof.
  revert k. induction fuel as [|fuel IH]; intros k Hbelow Hsize; simpl.
  - exfalso.
    assert (set_seq 0 k ⊆ usedColumns) as Hsub.
    { intros c Hc. apply elem_of_set_seq in Hc. apply Hbelow. lia. }
    apply subseteq_size in Hsub. rewrite size_set_seq in Hsub. lia.
  - case_bool_decide as Hk; [|by split].
    apply IH; [|lia]. intros c Hc.
    destruct (decide (c = k)) as [->|]; [done|apply Hbelow; lia].
Qed.

Lemma first_free_spec (usedColumns : gset nat) :
  let c := first_free (S (size usedColumns)) usedColumns 0 in
  (c ∉ usedColumns) ∧ (∀ c', (c' < c)%nat → c' ∈ usedColumns) ∧ (c ≤ size usedColumns)%nat.
Proof.
  intros c.
  destruct (first_free_from usedColumns (S (size usedColumns)) 0) as [H1 H2]; [lia|lia|].
  split; [done|]. split; [done|].
  assert (set_seq 0 c ⊆ usedColumns) as Hsub.
  { intros x Hx. apply elem_of_set_seq in Hx. apply H2. lia. }
  apply subseteq_size in Hsub. by rewrite size_set_seq in Hsub.
Qed.

Lemma read_overlapping_from {B : Type} (f : Positioned → B) (e : ScheduleEvent)
    (pre l : list Positioned) :
  read f (pre ++ l)
       (filter (λ i, overlaps_at (pre ++ l) e i) (seq (length pre) (length l)))
  = f <$> overlapped l e.
Proof.
  unfold read, overlapped. revert pre.
  induction l as [|x l IH]; intros pre; [done|].
  cbn [length seq].
  assert ((pre ++ x :: l) !! length pre = Some x) as Hx by apply list_lookup_middle, eq_refl.
  assert (overlaps_at (pre ++ x :: l) e (length pre) = overlaps e (event x)) as Hat.
  { unfold overlaps_at. by rewrite Hx. }
  specialize (IH (pre ++ [x])).
  rewrite <- app_assoc, length_app in IH. cbn [app length] in IH.
  replace (length pre + 1)%nat with (S (length pre)) in IH by lia.
  rewrite !filter_cons, Hat.
  destruct (decide (overlaps e (event x))) as [Ho|Ho].
  - csimpl. rewrite Hx. csimpl. by rewrite IH.
  - done.
Qed.

Lemma read_overlapping {B : Type} (f : Positioned → B) (positioned : list Positioned)
    (e : ScheduleEvent) :
  read f positioned (overlapping_of positioned e) = f <$> overlapped positioned e.
Proof. apply (read_overlapping_from f e []). Qed.

Lemma overlapping_of_lt (positioned : list Positioned) (e : ScheduleEvent) (i : nat) :
  i ∈ overlapping_of positioned e ↔
  ∃ p, positioned !! i = Some p ∧ overlaps e (event p) = true.
Proof.
  unfold overlapping_of. rewrite list_elem_of_filter, elem_of_seq.
  unfold overlaps_at. split.
  - intros [Ho _]. destruct (positioned !! i) as [p|]; [|done].
    exists p. split; [done|]. by apply Is_true_true.
  - intros (p & Hp & Ho). rewrite Hp. split; [by apply Is_true_true|].
    apply lookup_lt_Some in Hp. lia.
Qed.

Lemma read_app_l {B : Type} (f : Positioned → B) (positioned extra : list Positioned)
    (refs : list nat) :
  (∀ i, i ∈ refs → (i < length positioned)%nat) →
  read f (positioned ++ extra) refs = read f positioned refs.
Proof.
  unfold read. induction refs as [|i refs IH]; intros Hlt; [done|].
  csimpl. rewrite lookup_app_l by (apply Hlt, elem_of_cons; by left).
  rewrite IH; [done|]. intros j Hj. apply Hlt, elem_of_cons. by right.
Qed.

(** One turn of the placement loop, entry by entry. *)
Lemma place_spec (positioned : list Positioned) (e : ScheduleEvent) :
  place positioned e
  = (raise e (placed_total positioned e) <$> positioned)
    ++ [mkPositioned e (placed_column positioned e) (placed_total positioned e)].
Proof.
  unfold place.
  rewrite (read_overlapping column).
  fold (placed_column positioned e).
  rewrite read_app_l; last first.
  { intros i (p & Hp & _)%overlapping_of_lt. by apply lookup_lt_Some in Hp. }
  rewrite (read_overlapping totalColumns).
  fold (placed_total positioned e).
  set (c := placed_column positioned e). set (m := placed_total positioned e).
  rewrite length_foldl_alter, length_app. cbn [length].
  replace (length positioned + 1 - 1)%nat with (length positioned) by lia.
  apply list_eq. intros k.
  destruct (decide (k = length positioned)) as [->|Hk].
  - rewrite list_lookup_alter_eq, lookup_foldl_alter by apply set_totalColumns_idemp.
    rewrite bool_decide_eq_false_2; last first.
    { intros (p & Hp & _)%overlapping_of_lt. apply lookup_lt_Some in Hp. lia. }
    rewrite !list_lookup_middle by (by rewrite ?length_fmap). done.
  - rewrite list_lookup_alter_ne by done.
    rewrite lookup_foldl_alter by apply set_totalColumns_idemp.
    destruct (decide (k < length positioned)%nat) as [Hlt|Hge].
    + rewrite !lookup_app_l by (by rewrite ?length_fmap).
      rewrite list_lookup_fmap.
      destruct (positioned !! k) as [p|] eqn:Hp; [|by destruct (bool_decide _)].
      csimpl. unfold raise.
      destruct (overlaps e (event p)) eqn:Ho.
      * rewrite bool_decide_eq_true_2; [done|]. apply overlapping_of_lt. by exists p.
      * rewrite bool_decide_eq_false_2; [done|].
        intros (p' & Hp' & Ho')%overlapping_of_lt. congruence.
    + assert (∀ l : list Positioned, length l = S (length positioned) → l !! k = None) as Hnone.
      { intros l Hl. apply lookup_ge_None. lia. }
      rewrite !Hnone by (rewrite length_app, ?length_fmap; cbn; lia).
      by destruct (bool_decide _).
Qed.

Lemma foldl_place_snoc (positioned : list Positioned) (l : list ScheduleEvent) (e : ScheduleEvent) :
  foldl place positioned (l ++ [e]) = place (foldl place positioned l) e.
Proof. by rewrite foldl_app. Qed.

Lemma elem_of_overlapped (positioned : list Positioned) (e : ScheduleEvent) (p : Positioned) :
  p ∈ overlapped positioned e ↔
  interval_overlap e (event p) = true ∧ ∃ k, positioned !! k = Some p.
Proof.
  unfold overlapped. rewrite list_elem_of_filter, list_elem_of_lookup.
  rewrite overlaps_interval. by rewrite Is_true_true.
Qed.

Lemma placed_column_fresh (positioned : list Positioned) (e : ScheduleEvent) (k : nat) (p : Positioned) :
  positioned !! k = Some p → interval_overlap e (event p) = true →
  column p ≠ placed_column positioned e.
Proof.
  intros Hp Ho Heq. unfold placed_column in Heq.
  destruct (first_free_spec (list_to_set (column <$> overlapped positioned e))) as [Hfresh _].
  apply Hfresh. rewrite <- Heq. apply elem_of_list_to_set, list_elem_of_fmap.
  exists p. split; [done|]. apply elem_of_overlapped. eauto.
Qed.

Lemma placed_column_least (positioned : list Positioned) (e : ScheduleEvent) (c : nat) :
  (c < placed_column positioned e)%nat →
  ∃ k p, positioned !! k = Some p ∧ interval_overlap e (event p) = true ∧ column p = c.
Proof.
  intros Hc. unfold placed_column in Hc.
  destruct (first_free_spec (list_to_set (column <$> overlapped positioned e))) as (_ & Hleast & _).
  apply Hleast in Hc. apply elem_of_list_to_set, list_elem_of_fmap in Hc.
  destruct Hc as (p & -> & [Ho [k Hk]]%elem_of_overlapped). eauto.
Qed.

Lemma placed_total_ge_column (positioned : list Positioned) (e : ScheduleEvent) :
  (placed_column positioned e < placed_total positioned e)%nat.
Proof.
  unfold placed_total.
  destruct (foldr_max_ge (placed_column positioned e + 1)
              (totalColumns <$> overlapped positioned e)) as [H _]. lia.
Qed.

Lemma placed_total_ge (positioned : list Positioned) (e : ScheduleEvent) (k : nat) (p : Positioned) :
  positioned !! k = Some p → interval_overlap e (event p) = true →
  (totalColumns p ≤ placed_total positioned e)%nat.
Proof.
  intros Hp Ho. unfold placed_total.
  destruct (foldr_max_ge (placed_column positioned e + 1)
              (totalColumns <$> overlapped positioned e)) as [_ H].
  apply H, list_elem_of_fmap. exists p. split; [done|]. apply elem_of_overlapped. eauto.
Qed.

Lemma placed_total_source (positioned : list Positioned) (e : ScheduleEvent) :
  placed_total positioned e = (placed_column positioned e + 1)%nat
  ∨ ∃ k p, positioned !! k = Some p ∧ interval_overlap e (event p) = true
           ∧ totalColumns p = placed_total positioned e.
Proof.
  destruct (foldr_max_attained (placed_column positioned e + 1)
              (totalColumns <$> overlapped positioned e)) as [H|H]; [by left|right].
  apply list_elem_of_fmap in H. destruct H as (p & Hm & [Ho [k Hk]]%elem_of_overlapped).
  exists k, p. by rewrite <- Hm.
Qed.

Lemma raise_event (e : ScheduleEvent) (m : nat) (p : Positioned) : event (raise e m p) = event p.
Proof. unfold raise. by destruct (overlaps e (event p)). Qed.

Lemma raise_column (e : ScheduleEvent) (m : nat) (p : Positioned) : column (raise e m p) = column p.
Proof. unfold raise. by destruct (overlaps e (event p)). Qed.

Lemma raise_total (e : ScheduleEvent) (m : nat) (p : Positioned) :
  totalColumns (raise e m p)
  = if interval_overlap e (event p) then m else totalColumns p.
Proof. unfold raise. rewrite overlaps_interval. by destruct (interval_overlap e (event p)). Qed.

(** The entries of [place positioned e]: the old ones raised, then the
    new one. *)
Lemma place_lookup (positioned : list Positioned) (e : ScheduleEvent) (k : nat) (p' : Positioned) :
  place positioned e !! k = Some p' ↔
  (∃ p, positioned !! k = Some p ∧ p' = raise e (placed_total positioned e) p)
  ∨ (k = length positioned
     ∧ p' = mkPositioned e (placed_column positioned e) (placed_total positioned e)).
Proof.
  rewrite place_spec, lookup_app_Some, length_fmap, list_lookup_fmap_Some.
  rewrite list_lookup_singleton_Some.
  split.
  - intros [(p & ? & ?)|(Hk & Hz & ?)]; [left; by exists p|right]. split; [lia|done].
  - intros [(p & ? & ?)|[-> ->]]; [left; by exists p|right].
    split; [lia|]. split; [lia|done].
Qed.

(** ** Chains of overlapping events *)

Lemma adjacent_sym (evs : list ScheduleEvent) (i j : nat) : adjacent evs i j = adjacent evs j i.
Proof.
  unfold adjacent. rewrite (Nat.eqb_sym i j).
  destruct (evs !! i) as [a|], (evs !! j) as [b|]; try done.
  by rewrite (interval_overlap_sym a b).
Qed.

Lemma adjacent_intro (evs : list ScheduleEvent) (i j : nat) (a b : ScheduleEvent) :
  i ≠ j → evs !! i = Some a → evs !! j = Some b → interval_overlap a b = true →
  adjacent evs i j = true.
Proof.
  intros Hne Ha Hb Ho. unfold adjacent. rewrite Ha, Hb, Ho.
  apply Nat.eqb_neq in Hne. by rewrite Hne.
Qed.

Lemma adjacent_elim (evs : list ScheduleEvent) (i j : nat) :
  adjacent evs i j = true →
  i ≠ j ∧ ∃ a b, evs !! i = Some a ∧ evs !! j = Some b ∧ interval_overlap a b = true.
Proof.
  unfold adjacent. intros [Hne Ho]%andb_true_iff.
  split; [by apply Nat.eqb_neq, negb_true_iff|].
  destruct (evs !! i) as [a|], (evs !! j) as [b|]; try done. by exists a, b.
Qed.

Lemma linked_sym (evs : list ScheduleEvent) (i j : nat) : linked evs i j → linked evs j i.
Proof.
  unfold linked. induction 1 as [|x y z Hxy _ IH]; [done|].
  eapply rtc_r; [done|]. by rewrite adjacent_sym.
Qed.

Lemma linked_step (evs : list ScheduleEvent) (i j k : nat) :
  adjacent evs i j = true → linked evs j k → linked evs i k.
Proof. intros. by eapply rtc_l. Qed.

Lemma linked_trans (evs : list ScheduleEvent) (i j k : nat) :
  linked evs i j → linked evs j k → linked evs i k.
Proof. apply rtc_trans. Qed.

(** ** The admin calendar: what both loops keep true *)

Lemma layout_inv_nil (evs : list ScheduleEvent) : layout_inv evs [].
Proof. split; intros; simplify_eq. Qed.

Lemma layout_inv_place (evs : list ScheduleEvent) (positioned : list Positioned) (e : ScheduleEvent) :
  layout_inv evs positioned → evs !! length positioned = Some e →
  layout_inv evs (place positioned e).
Proof.
  intros [Hev Hff Hcol Hnb Hsrc] He.
  set (c := placed_column positioned e). set (m := placed_total positioned e).
  assert (∀ k p, positioned !! k = Some p → (k < length positioned)%nat) as Hlt.
  { intros k p Hp. by apply lookup_lt_Some in Hp. }
  assert (∀ k p, positioned !! k = Some p → place positioned e !! k = Some (raise e m p)) as Hold.
  { intros k p Hp. apply place_lookup. left. by exists p. }
  assert (∀ k p, positioned !! k = Some p → interval_overlap e (event p) = true →
                 adjacent evs (length positioned) k = true) as Hadj.
  { intros k p Hp Ho. apply (adjacent_intro evs _ _ e (event p)); [|done|by apply Hev|done].
    apply Hlt in Hp. lia. }
  assert (∃ w q, place positioned e !! w = Some q ∧ linked evs (length positioned) w
                 ∧ m = (column q + 1)%nat) as Hnew.
  { destruct (placed_total_source positioned e) as [Hm|(k0 & p0 & Hp0 & Ho & Hm)].
    - exists (length positioned), (mkPositioned e c m). split; [|split; [apply rtc_refl|done]].
      apply place_lookup. by right.
    - destruct (Hsrc k0 p0 Hp0) as (w & q & Hq & Hl & Ht).
      exists w, (raise e m q). split; [by apply Hold|]. split.
      + apply (linked_step evs _ k0); [by apply (Hadj k0 p0)|done].
      + rewrite raise_column. unfold m. by rewrite <- Hm. }
  split.
  - intros k p' [(p & Hp & ->)|[-> ->]]%place_lookup.
    + rewrite raise_event. by apply Hev.
    + done.
  - intros j q' [(q & Hq & ->)|[-> ->]]%place_lookup.
    + destruct (Hff j q Hq) as [Hd Hl]. split.
      * intros i p' Hij [(p & Hp & ->)|[-> _]]%place_lookup; [|apply Hlt in Hq; lia].
        rewrite !raise_event, !raise_column. by apply (Hd i).
      * intros c' Hc'. rewrite raise_column in Hc'.
        destruct (Hl c' Hc') as (i & p & Hij & Hp & Ho & Hc).
        exists i, (raise e m p). rewrite !raise_event, raise_column.
        split_and!; [done|by apply Hold|done|done].
    + split; cbn [event column].
      * intros i p' Hi [(p & Hp & ->)|[-> _]]%place_lookup; [|lia].
        rewrite raise_event, raise_column. by apply (placed_column_fresh _ _ i).
      * intros c' Hc'. destruct (placed_column_least positioned e c' Hc') as (k & p & Hp & Ho & Hc).
        exists k, (raise e m p). rewrite raise_event, raise_column.
        split_and!; [by eapply Hlt|by apply Hold|done|done].
  - intros k p' [(p & Hp & ->)|[-> ->]]%place_lookup.
    + rewrite raise_column, raise_total. specialize (Hcol k p Hp).
      destruct (interval_overlap e (event p)) eqn:Ho; [|done].
      pose proof (placed_total_ge positioned e k p Hp Ho) as Hge. fold m in Hge. lia.
    + cbn. apply placed_total_ge_column.
  - intros i j p' q' Hij [(p & Hp & ->)|[-> ->]]%place_lookup
      [(q & Hq & ->)|[-> ->]]%place_lookup;
      rewrite ?raise_event, ?raise_column; cbn [event column totalColumns].
    + intros Ho. rewrite raise_total. specialize (Hnb i j p q Hij Hp Hq Ho).
      destruct (interval_overlap e (event p)) eqn:Ho'; [|done].
      pose proof (placed_total_ge positioned e i p Hp Ho') as Hge. fold m in Hge. lia.
    + intros Ho. rewrite interval_overlap_sym in Ho. rewrite raise_total, Ho.
      apply placed_total_ge_column.
    + intros Ho. pose proof (placed_total_ge positioned e j q Hq Ho) as Hge.
      specialize (Hcol j q Hq). fold m in Hge. lia.
    + done.
  - intros k p' [(p & Hp & ->)|[-> ->]]%place_lookup.
    + rewrite raise_total. destruct (interval_overlap e (event p)) eqn:Ho.
      * destruct Hnew as (w & q & Hq & Hl & Hm). exists w, q. split; [done|]. split; [|done].
        apply (linked_step evs _ (length positioned)); [|done].
        rewrite adjacent_sym. by apply (Hadj k p).
      * destruct (Hsrc k p Hp) as (w & q & Hq & Hl & Ht).
        exists w, (raise e m q). rewrite raise_column. split; [by apply Hold|done].
    + done.
Qed.

Lemma layout_inv_settles (evs : list ScheduleEvent) (positioned positioned' : list Positioned) :
  layout_inv evs positioned → settles positioned positioned' → layout_inv evs positioned'.
Proof.
  intros [Hev Hff Hcol Hnb Hsrc] [Hlen Hst].
  assert (∀ k p', positioned' !! k = Some p' →
            ∃ p, positioned !! k = Some p ∧ event p' = event p ∧ column p' = column p
                 ∧ (totalColumns p' = totalColumns p
                    ∨ ∃ k2 p2, k2 ≠ k ∧ positioned !! k2 = Some p2
                        ∧ interval_overlap (event p) (event p2) = true
                        ∧ (totalColumns p ≤ totalColumns p2)%nat
                        ∧ totalColumns p' = totalColumns p2)) as Hback.
  { intros k p' Hp'.
    destruct (positioned !! k) as [p|] eqn:Hp.
    - destruct (Hst k p Hp) as (p'' & Hp'' & H). exists p. simplify_eq. done.
    - apply lookup_lt_Some in Hp'. apply lookup_ge_None in Hp. lia. }
  split.
  - intros k p' (p & Hp & -> & _)%Hback. by apply Hev.
  - intros j q' (q & Hq & Heq & Hcq & _)%Hback.
    destruct (Hff j q Hq) as [Hd Hl]. split.
    + intros i p' Hij (p & Hp & Hep & Hcp & _)%Hback. rewrite Heq, Hep, Hcq, Hcp.
      by apply (Hd i).
    + intros c' Hc'. rewrite Hcq in Hc'.
      destruct (Hl c' Hc') as (i & p & Hij & Hp & Ho & Hc).
      destruct (Hst i p Hp) as (p' & Hp' & Hep & Hcp & _).
      exists i, p'. rewrite Heq, Hep, Hcp. eauto.
  - intros k p' (p & Hp & _ & Hc & Ht)%Hback. specialize (Hcol k p Hp).
    rewrite Hc. destruct Ht as [->|(k2 & p2 & _ & _ & _ & Hle & ->)]; lia.
  - intros i j p' q' Hij (p & Hp & Hep & _ & Ht)%Hback (q & Hq & Heq & Hcq & _)%Hback.
    rewrite Hep, Heq, Hcq. intros Ho. specialize (Hnb i j p q Hij Hp Hq Ho).
    destruct Ht as [->|(k2 & p2 & _ & _ & _ & Hle & ->)]; lia.
  - intros k p' (p & Hp & _ & _ & Ht)%Hback.
    assert (∀ k0 p0, positioned !! k0 = Some p0 →
              ∃ w q', positioned' !! w = Some q' ∧ linked evs k0 w
                      ∧ totalColumns p0 = (column q' + 1)%nat) as Hsrc'.
    { intros k0 p0 Hp0. destruct (Hsrc k0 p0 Hp0) as (w & q & Hq & Hl & Htq).
      destruct (Hst w q Hq) as (q' & Hq' & _ & Hcq & _).
      exists w, q'. by rewrite Hcq. }
    destruct Ht as [->|(k2 & p2 & Hne & Hp2 & Ho & _ & ->)]; [by eapply Hsrc'|].
    destruct (Hsrc' k2 p2 Hp2) as (w & q' & Hq' & Hl & Htq).
    exists w, q'. split; [done|]. split; [|done].
    eapply linked_step; [|done].
    apply (adjacent_intro evs _ _ (event p) (event p2)); auto.
Qed.

Lemma settles_refl (positioned : list Positioned) : settles positioned positioned.
Proof. split; [done|]. intros k p Hp. exists p. auto. Qed.

Lemma reconcile_pair_settles (i j : nat) (positioned : list Positioned) :
  settles positioned (reconcile_pair i j positioned).
Proof.
  unfold reconcile_pair.
  destruct (i =? j)%nat eqn:Hij; [apply settles_refl|]. apply Nat.eqb_neq in Hij.
  destruct (positioned !! i) as [p|] eqn:Hp; [|apply settles_refl].
  destruct (positioned !! j) as [o|] eqn:Ho; [|apply settles_refl].
  destruct (overlaps (event p) (event o)) eqn:Hov; [|apply settles_refl].
  rewrite overlaps_interval in Hov.
  set (m := Nat.max (totalColumns p) (totalColumns o)).
  split; [by rewrite !length_alter|].
  intros k p0 Hp0.
  destruct (decide (k = j)) as [->|Hkj]; [|destruct (decide (k = i)) as [->|Hki]].
  - assert (p0 = o) as -> by congruence.
    exists (set_totalColumns m o).
    rewrite list_lookup_alter_eq, list_lookup_alter_ne, Ho by done.
    split_and!; [done..|]. cbn.
    destruct (Nat.max_spec (totalColumns p) (totalColumns o)) as [[_ Hm]|[Hle Hm]].
    + left. by rewrite <- Hm.
    + right. exists i, p. rewrite interval_overlap_sym. by split_and!.
  - assert (p0 = p) as -> by congruence.
    exists (set_totalColumns m p).
    rewrite list_lookup_alter_ne, list_lookup_alter_eq, Hp by done.
    split_and!; [done..|]. cbn.
    destruct (Nat.max_spec (totalColumns p) (totalColumns o)) as [[Hlt Hm]|[_ Hm]].
    + right. exists j, o. split_and!; [done..|lia|done].
    + left. by rewrite <- Hm.
  - exists p0. rewrite !list_lookup_alter_ne by done. auto.
Qed.

(** A property every turn of the innermost loop keeps is kept by the
    whole final pass. *)
Lemma reconcile_ind (P : list Positioned → Prop) :
  (∀ i j ps, P ps → P (reconcile_pair i j ps)) →
  ∀ ps, P ps → P (reconcile ps).
Proof.
  intros Hstep ps. unfold reconcile.
  generalize (seq 0 (length ps)) at 1 as inner.
  generalize (seq 0 (length ps)) as outer.
  intros outer inner. revert ps.
  induction outer as [|i outer IH]; intros ps Hps; [done|].
  cbn [foldl]. apply IH.
  clear IH. revert ps Hps.
  induction inner as [|j inner IH]; intros ps Hps; [done|].
  cbn [foldl]. by apply IH, Hstep.
Qed.

Lemma layout_inv_reconcile (evs : list ScheduleEvent) (positioned : list Positioned) :
  layout_inv evs positioned → layout_inv evs (reconcile positioned).
Proof.
  apply reconcile_ind. intros i j ps Hps.
  eapply layout_inv_settles; [done|apply reconcile_pair_settles].
Qed.

Lemma length_reconcile (positioned : list Positioned) :
  length (reconcile positioned) = length positioned.
Proof.
  apply (reconcile_ind (λ ps, length ps = length positioned)); [|done].
  intros i j ps <-. apply reconcile_pair_settles.
Qed.

Lemma length_place (positioned : list Positioned) (e : ScheduleEvent) :
  length (place positioned e) = S (length positioned).
Proof. rewrite place_spec, length_app, length_fmap. cbn. lia. Qed.

Lemma layout_inv_placement (l rest : list ScheduleEvent) :
  layout_inv (l ++ rest) (foldl place [] l) ∧ length (foldl place [] l) = length l.
Proof.
  revert rest. induction l as [|e l IH] using rev_ind; intros rest.
  - split; [apply layout_inv_nil|done].
  - rewrite foldl_place_snoc, length_place, length_app, <- app_assoc. cbn [app length].
    destruct (IH (e :: rest)) as [Hinv Hlen]. split; [|lia].
    apply layout_inv_place; [done|]. rewrite Hlen. by apply list_lookup_middle.
Qed.

(** The layout keeps the invariant, its entries being the events in
    sorted order. *)
Lemma groupOverlappingEvents_inv (localeCompare : string → string → Z)
    (events : list ScheduleEvent) :
  let out := groupOverlappingEvents localeCompare events in
  let sorted := JS.sort (by_start localeCompare) events in
  layout_inv sorted out ∧ event <$> out = sorted.
Proof.
  intros out sorted.
  assert (layout_inv sorted out ∧ length out = length sorted) as [Hinv Hlen].
  { unfold out, groupOverlappingEvents. fold sorted.
    destruct (length events =? 0)%nat eqn:Hn.
    - apply Nat.eqb_eq, nil_length_inv in Hn. subst events.
      split; [apply layout_inv_nil|done].
    - destruct (layout_inv_placement sorted []) as [Hinv Hlen].
      rewrite app_nil_r in Hinv.
      split; [by apply layout_inv_reconcile|by rewrite length_reconcile]. }
  split; [done|]. apply list_eq. intros k. rewrite list_lookup_fmap.
  destruct (out !! k) as [p|] eqn:Hp; cbn.
  - symmetry. by apply (inv_events _ _ Hinv).
  - symmetry. apply lookup_ge_None. apply lookup_ge_None in Hp. lia.
Qed.

(** ** Overlap groups *)

Section Clusters.
Variable evs : list ScheduleEvent.
Variable i : nat.
Hypothesis Hi : (i < length evs)%nat.

Lemma elem_of_expand (members : list nat) (j : nat) :
  j ∈ expand evs members ↔
  (j < length evs)%nat ∧ ∃ x, x ∈ members ∧ (x = j ∨ adjacent evs x j = true).
Proof.
  unfold expand. rewrite list_elem_of_filter, elem_of_seq, Is_true_true, existsb_exists.
  split.
  - intros [(x & Hx & Hor) Hj]. split; [lia|]. exists x.
    apply list_elem_of_In in Hx. split; [done|].
    apply orb_true_iff in Hor as [Heq|Hadj]; [left; by apply Nat.eqb_eq|by right].
  - intros [Hj (x & Hx & Hor)]. split; [|lia]. exists x.
    apply list_elem_of_In in Hx. split; [done|].
    apply orb_true_iff. destruct Hor as [->|Hadj]; [left; apply Nat.eqb_refl|by right].
Qed.

Lemma adjacent_lt (x y : nat) : adjacent evs x y = true → (y < length evs)%nat.
Proof.
  intros (_ & a & b & _ & Hb & _)%adjacent_elim. by apply lookup_lt_Some in Hb.
Qed.

Lemma reach_sound (k x : nat) : x ∈ Nat.iter k (expand evs) [i] → linked evs i x.
Proof.
  revert x. induction k as [|k IH]; intros x.
  - intros ->%list_elem_of_singleton. apply rtc_refl.
  - cbn [Nat.iter nat_rect]. intros [_ (y & Hy & Hor)]%elem_of_expand.
    destruct Hor as [->|Hadj]; [by apply IH|].
    eapply rtc_r; [by apply IH|done].
Qed.

Lemma reach_lt (k x : nat) : x ∈ Nat.iter k (expand evs) [i] → (x < length evs)%nat.
Proof.
  destruct k as [|k].
  - by intros ->%list_elem_of_singleton.
  - cbn [Nat.iter nat_rect]. by intros [? _]%elem_of_expand.
Qed.

Lemma reach_mono (k x : nat) :
  x ∈ Nat.iter k (expand evs) [i] → x ∈ Nat.iter (S k) (expand evs) [i].
Proof.
  intros Hx. cbn [Nat.iter nat_rect]. apply elem_of_expand.
  split; [by eapply reach_lt|]. exists x. auto.
Qed.

Lemma reach_start (k : nat) : i ∈ Nat.iter k (expand evs) [i].
Proof.
  induction k as [|k IH]; [by apply list_elem_of_singleton|by apply reach_mono].
Qed.

Lemma NoDup_reach (k : nat) : NoDup (Nat.iter k (expand evs) [i]).
Proof.
  destruct k as [|k]; [apply NoDup_singleton|].
  cbn [Nat.iter nat_rect]. apply NoDup_filter, NoDup_seq.
Qed.

Lemma length_reach (k : nat) : (length (Nat.iter k (expand evs) [i]) ≤ length evs)%nat.
Proof.
  destruct k as [|k]; [cbn; lia|].
  cbn [Nat.iter nat_rect]. unfold expand.
  etransitivity; [apply length_filter|]. by rewrite length_seq.
Qed.

Lemma closed_next (k : nat) :
  closed_under evs (Nat.iter k (expand evs) [i]) →
  closed_under evs (Nat.iter (S k) (expand evs) [i]).
Proof.
  intros Hcl.
  assert (∀ x, x ∈ Nat.iter (S k) (expand evs) [i] → x ∈ Nat.iter k (expand evs) [i]) as Hback.
  { intros x. cbn [Nat.iter nat_rect]. intros [_ (y & Hy & Hor)]%elem_of_expand.
    destruct Hor as [->|Hadj]; [done|by eapply Hcl]. }
  intros x y Hx Hadj. apply reach_mono. eapply Hcl; [by apply Hback|done].
Qed.

Lemma grow_or_closed (k : nat) :
  closed_under evs (Nat.iter k (expand evs) [i])
  ∨ (k + 1 ≤ length (Nat.iter k (expand evs) [i]))%nat.
Proof.
  induction k as [|k [Hcl|Hlen]].
  - right. cbn. lia.
  - left. by apply closed_next.
  - assert (Nat.iter k (expand evs) [i] ⊆+ Nat.iter (S k) (expand evs) [i]) as Hsub.
    { apply NoDup_submseteq; [apply NoDup_reach|apply reach_mono]. }
    destruct (decide (length (Nat.iter (S k) (expand evs) [i])
                      ≤ length (Nat.iter k (expand evs) [i]))%nat) as [Hle|Hgt].
    + left. apply closed_next.
      pose proof (submseteq_length_Permutation _ _ Hsub Hle) as Hperm.
      intros x y Hx Hadj. rewrite Hperm. cbn [Nat.iter nat_rect].
      apply elem_of_expand. split; [by eapply adjacent_lt|]. exists x. auto.
    + right. lia.
Qed.

Lemma cluster_closed : closed_under evs (cluster evs i).
Proof.
  unfold cluster. destruct (grow_or_closed (length evs)) as [Hcl|Hlen]; [done|].
  pose proof (length_reach (length evs)). lia.
Qed.

(** The group of a position holds exactly the positions linked to it. *)
Lemma elem_of_cluster (x : nat) : x ∈ cluster evs i ↔ linked evs i x.
Proof.
  split; [apply reach_sound|].
  intros Hl. unfold linked in Hl.
  revert x Hl. apply (rtc_ind_r (λ z, z ∈ cluster evs i)); [apply reach_start|].
  intros y z _ Hyz IH. by eapply cluster_closed.
Qed.

Lemma NoDup_cluster : NoDup (cluster evs i).
Proof. apply NoDup_reach. Qed.

End Clusters.

Lemma linked_lt (evs : list ScheduleEvent) (i j : nat) :
  (i < length evs)%nat → linked evs i j → (j < length evs)%nat.
Proof.
  intros Hi Hl. apply (elem_of_cluster evs i Hi) in Hl. by eapply reach_lt.
Qed.

Lemma cluster_size_linked (evs : list ScheduleEvent) (i j : nat) :
  (i < length evs)%nat → linked evs i j → cluster_size evs i = cluster_size evs j.
Proof.
  intros Hi Hl. pose proof (linked_lt evs i j Hi Hl) as Hj.
  unfold cluster_size. apply Permutation_length.
  apply NoDup_Permutation; [apply NoDup_cluster..|].
  intros x. rewrite !elem_of_cluster by done. split; intros Hx.
  - eapply linked_trans; [by apply linked_sym|done].
  - by eapply linked_trans.
Qed.

(** ** The admin calendar: columns and counts of the result *)

(** An entry in column [c] overlaps [c] earlier entries, one in each
    lower column, so its group has more than [c] members. *)
Lemma lower_columns_taken (evs : list ScheduleEvent) (positioned : list Positioned)
    (w : nat) (q : Positioned) (n : nat) :
  layout_inv evs positioned → positioned !! w = Some q → (n ≤ column q)%nat →
  ∃ l : list nat, NoDup l ∧ length l = n
    ∧ ∀ x, x ∈ l → (x < w)%nat ∧ adjacent evs w x = true
                    ∧ ∃ p, positioned !! x = Some p ∧ (column p < n)%nat.
Proof.
  intros Hinv Hq. induction n as [|n IH]; intros Hn.
  - exists []. split; [apply NoDup_nil_2|]. split; [done|]. by intros x ?%elem_of_nil.
  - destruct IH as (l & Hnd & Hlen & Hl); [lia|].
    destruct (inv_first_fit _ _ Hinv w q Hq) as [_ Hleast].
    destruct (Hleast n) as (x & p & Hxw & Hp & Ho & Hc); [lia|].
    exists (x :: l). split; [|split; [cbn; by rewrite Hlen|]].
    + apply NoDup_cons. split; [|done]. intros (_ & _ & p' & Hp' & Hlt)%Hl.
      assert (p' = p) as -> by congruence. lia.
    + intros y [->|Hy]%elem_of_cons.
      * split; [done|]. split; [|exists p; split; [done|lia]].
        apply (adjacent_intro evs _ _ (event q) (event p)); [lia|..|done];
          by apply (inv_events _ _ Hinv).
      * destruct (Hl y Hy) as (? & ? & p' & ? & ?). split_and!; [done..|].
        exists p'. split; [done|lia].
Qed.

Lemma column_lt_cluster_size (evs : list ScheduleEvent) (positioned : list Positioned)
    (w : nat) (q : Positioned) :
  layout_inv evs positioned → positioned !! w = Some q →
  (column q + 1 ≤ cluster_size evs w)%nat.
Proof.
  intros Hinv Hq.
  assert (w < length evs)%nat as Hw.
  { eapply lookup_lt_Some. by apply (inv_events _ _ Hinv). }
  destruct (lower_columns_taken evs positioned w q (column q) Hinv Hq) as (l & Hnd & Hlen & Hl);
    [done|].
  assert (w :: l ⊆+ cluster evs w) as Hsub.
  { apply NoDup_submseteq.
    - apply NoDup_cons. split; [|done]. intros (Hlt & _)%Hl. lia.
    - intros x [->|Hx]%elem_of_cons.
      + apply elem_of_cluster; [done|apply rtc_refl].
      + apply elem_of_cluster; [done|]. apply rtc_once. by apply Hl. }
  apply submseteq_length in Hsub. cbn in Hsub. unfold cluster_size. lia.
Qed.

Lemma totalColumns_le_cluster_size (evs : list ScheduleEvent) (positioned : list Positioned)
    (k : nat) (p : Positioned) :
  layout_inv evs positioned → positioned !! k = Some p →
  (totalColumns p ≤ cluster_size evs k)%nat.
Proof.
  intros Hinv Hp.
  assert (k < length evs)%nat as Hk.
  { eapply lookup_lt_Some. by apply (inv_events _ _ Hinv). }
  destruct (inv_source _ _ Hinv k p Hp) as (w & q & Hq & Hl & ->).
  rewrite (cluster_size_linked evs k w Hk Hl).
  by eapply column_lt_cluster_size.
Qed.

Lemma layout_inv_columns_differ (evs : list ScheduleEvent) (positioned : list Positioned)
    (i j : nat) (A B : Positioned) :
  layout_inv evs positioned →
  positioned !! i = Some A → positioned !! j = Some B → i ≠ j →
  interval_overlap (event A) (event B) = true →
  column A ≠ column B.
Proof.
  intros Hinv HA HB Hij Ho.
  destruct (decide (i < j)%nat) as [Hlt|Hge].
  - destruct (inv_first_fit _ _ Hinv j B HB) as [Hd _].
    apply (Hd i A Hlt HA). by rewrite interval_overlap_sym.
  - destruct (inv_first_fit _ _ Hinv i A HA) as [Hd _].
    intros Heq. apply (Hd j B); [lia|done|done|done].
Qed.

(** A group whose events all overlap one another has a member in a
    column that is not below the size of the group minus one, and every
    member then counts at least as many columns as the group has events. *)
Lemma clique_totalColumns (evs : list ScheduleEvent) (positioned : list Positioned)
    (i : nat) (A : Positioned) :
  layout_inv evs positioned → length positioned = length evs →
  positioned !! i = Some A →
  (∀ x y, x ∈ cluster evs i → y ∈ cluster evs i → x ≠ y → adjacent evs x y = true) →
  (cluster_size evs i ≤ totalColumns A)%nat.
Proof.
  intros Hinv Hlen HA Hclique.
  assert (i < length evs)%nat as Hi by (rewrite <- Hlen; by eapply lookup_lt_Some).
  assert (∀ x, x ∈ cluster evs i → ∃ p, positioned !! x = Some p) as Hentry.
  { intros x Hx. apply lookup_lt_is_Some. rewrite Hlen. by eapply reach_lt. }
  set (col := λ x, from_option column 0%nat (positioned !! x)).
  assert (∀ x y, x ∈ cluster evs i → y ∈ cluster evs i → col x = col y → x = y) as Hinj.
  { intros x y Hx Hy Hcol. destruct (decide (x = y)) as [|Hne]; [done|exfalso].
    destruct (Hentry x Hx) as (p & Hp), (Hentry y Hy) as (q & Hq).
    unfold col in Hcol. rewrite Hp, Hq in Hcol. cbn in Hcol.
    destruct (adjacent_elim evs x y (Hclique x y Hx Hy Hne)) as (_ & a & b & Ha & Hb & Ho).
    rewrite (inv_events _ _ Hinv x p Hp) in Ha. rewrite (inv_events _ _ Hinv y q Hq) in Hb.
    simplify_eq. by eapply (layout_inv_columns_differ evs positioned x y p q). }
  assert (∃ w, w ∈ cluster evs i ∧ (cluster_size evs i ≤ col w + 1)%nat) as (w & Hw & Hcolw).
  { destruct (decide (Forall (λ x, (col x + 1 < cluster_size evs i)%nat) (cluster evs i)))
      as [Hall|Hex].
    - exfalso.
      assert (col <$> cluster evs i ⊆+ seq 0 (cluster_size evs i - 1)) as Hsub.
      { apply NoDup_submseteq.
        - apply NoDup_fmap_2_strong; [done|apply NoDup_cluster].
        - intros c (x & -> & Hx)%list_elem_of_fmap. rewrite Forall_forall in Hall.
          specialize (Hall x Hx). apply elem_of_seq. lia. }
      apply submseteq_length in Hsub. rewrite length_fmap, length_seq in Hsub.
      unfold cluster_size in *.
      assert (i ∈ cluster evs i) as Hin by (by apply elem_of_cluster; [|apply rtc_refl]).
      destruct (cluster evs i); [by apply elem_of_nil in Hin|cbn in Hsub; lia].
    - apply not_Forall_Exists, Exists_exists in Hex as (w & Hw & Hcolw); [|apply _].
      exists w. split; [done|]. unfold compose in Hcolw. lia. }
  destruct (Hentry w Hw) as (q & Hq). unfold col in Hcolw. rewrite Hq in Hcolw. cbn in Hcolw.
  destruct (decide (i = w)) as [<-|Hne].
  - assert (q = A) as -> by congruence. pose proof (inv_column _ _ Hinv i A HA). lia.
  - assert (i ∈ cluster evs i) as Hin by (by apply elem_of_cluster; [|apply rtc_refl]).
    destruct (adjacent_elim evs i w (Hclique i w Hin Hw Hne)) as (_ & a & b & Ha & Hb & Ho).
    rewrite (inv_events _ _ Hinv i A HA) in Ha. rewrite (inv_events _ _ Hinv w q Hq) in Hb.
    simplify_eq. pose proof (inv_neighbour _ _ Hinv i w A q Hne HA Hq Ho). lia.
Qed.

(** X28.  In the result of groupOverlappingEvents two overlapping
    events are never given the same column. *)
Theorem groupOverlappingEvents_columns_differ (localeCompare : string → string → Z)
    (events : list ScheduleEvent) (i j : nat) (A B : Positioned) :
  groupOverlappingEvents localeCompare events !! i = Some A →
  groupOverlappingEvents localeCompare events !! j = Some B →
  i ≠ j →
  interval_overlap (event A) (event B) = true →
  column A ≠ column B.
Proof.
  intros HA HB Hij Ho.
  destruct (groupOverlappingEvents_inv localeCompare events) as [Hinv _].
  by eapply layout_inv_columns_differ.
Qed.

Lemma groupOverlappingEvents_columns_differ_witness :
  column (mkPositioned (admin_event "09:00" "10:00") 0 2)
  ≠ column (mkPositioned (admin_event "09:30" "10:30") 1 2).
Proof.
  apply (groupOverlappingEvents_columns_differ JS.codeUnitCompare
           [admin_event "09:30" "10:30"; admin_event "09:00" "10:00"] 0 1);
    [vm_compute; reflexivity|vm_compute; reflexivity|lia|vm_compute; reflexivity].
Defined.

(** C2 (amended).  For two overlapping events [A], [B] of the result
    of groupOverlappingEvents, each totalColumns exceeds the event's own
    column, is at least 2, and is at most the number of events of their
    connected overlap group, which is the same group for both; it equals
    that number when all events of the group overlap one another. *)
Theorem overlapping_totalColumns_bounds (localeCompare : string → string → Z)
    (events : list ScheduleEvent) (i j : nat) (A B : Positioned) :
  let out := groupOverlappingEvents localeCompare events in
  let evs := event <$> out in
  out !! i = Some A → out !! j = Some B → i ≠ j →
  interval_overlap (event A) (event B) = true →
  (column A < totalColumns A)%nat ∧ (column B < totalColumns B)%nat
  ∧ (2 ≤ totalColumns A ≤ cluster_size evs i)%nat
  ∧ (2 ≤ totalColumns B ≤ cluster_size evs j)%nat
  ∧ cluster_size evs i = cluster_size evs j
  ∧ ((∀ x y, x ∈ cluster evs i → y ∈ cluster evs i → x ≠ y → adjacent evs x y = true) →
     totalColumns A = cluster_size evs i ∧ totalColumns B = cluster_size evs i).
Proof.
  intros out evs HA HB Hij Ho.
  destruct (groupOverlappingEvents_inv localeCompare events) as [Hinv Hev].
  fold out in Hinv, Hev. unfold evs. rewrite Hev.
  set (sorted := JS.sort (by_start localeCompare) events) in *.
  pose proof (inv_events _ _ Hinv i A HA) as HeA.
  pose proof (inv_events _ _ Hinv j B HB) as HeB.
  pose proof (inv_column _ _ Hinv i A HA) as HcA.
  pose proof (inv_column _ _ Hinv j B HB) as HcB.
  pose proof (layout_inv_columns_differ sorted out i j A B Hinv HA HB Hij Ho) as Hne.
  pose proof (inv_neighbour _ _ Hinv i j A B Hij HA HB Ho) as HnA.
  assert (interval_overlap (event B) (event A) = true) as Ho' by (by rewrite interval_overlap_sym).
  pose proof (inv_neighbour _ _ Hinv j i B A ltac:(done) HB HA Ho') as HnB.
  pose proof (totalColumns_le_cluster_size sorted out i A Hinv HA) as HuA.
  pose proof (totalColumns_le_cluster_size sorted out j B Hinv HB) as HuB.
  assert (linked sorted i j) as Hl.
  { apply rtc_once. by apply (adjacent_intro sorted i j (event A) (event B)). }
  assert (i < length sorted)%nat as Hi by (by eapply lookup_lt_Some).
  pose proof (cluster_size_linked sorted i j Hi Hl) as Hsame.
  assert (length out = length sorted) as Hlen by (by rewrite <- Hev, length_fmap).
  split_and!; try lia.
  intros Hclique.
  pose proof (clique_totalColumns sorted out i A Hinv Hlen HA Hclique) as HlA.
  assert (cluster_size sorted j ≤ totalColumns B)%nat as HlB.
  { apply (clique_totalColumns sorted out j B Hinv Hlen HB).
    assert (∀ x, x ∈ cluster sorted j ↔ x ∈ cluster sorted i) as Hmem.
    { intros x. rewrite !elem_of_cluster by (by eapply lookup_lt_Some).
      split; intros Hx; [by eapply linked_trans|].
      eapply linked_trans; [by apply linked_sym|done]. }
    intros x y Hx%Hmem Hy%Hmem. by apply Hclique. }
  lia.
Qed.

Lemma overlapping_totalColumns_bounds_witness :
  let out := groupOverlappingEvents JS.codeUnitCompare
               [admin_event "10:00" "11:00"; admin_event "09:00" "10:00";
                admin_event "09:30" "10:30"; admin_event "10:15" "11:00"] in
  let evs := event <$> out in
  let A := mkPositioned (admin_event "09:00" "10:00") 0 3 in
  let B := mkPositioned (admin_event "09:30" "10:30") 1 3 in
  (column A < totalColumns A)%nat ∧ (column B < totalColumns B)%nat
  ∧ (2 ≤ totalColumns A ≤ cluster_size evs 0)%nat
  ∧ (2 ≤ totalColumns B ≤ cluster_size evs 1)%nat
  ∧ cluster_size evs 0 = cluster_size evs 1
  ∧ ((∀ x y, x ∈ cluster evs 0 → y ∈ cluster evs 0 → x ≠ y → adjacent evs x y = true) →
     totalColumns A = cluster_size evs 0 ∧ totalColumns B = cluster_size evs 0).
Proof.
  apply (overlapping_totalColumns_bounds JS.codeUnitCompare
           [admin_event "10:00" "11:00"; admin_event "09:00" "10:00";
            admin_event "09:30" "10:30"; admin_event "10:15" "11:00"] 0 1);
    [vm_compute; reflexivity|vm_compute; reflexivity|lia|vm_compute; reflexivity].
Defined.

(** C2 (counterexample).  In the chain 09:00-10:00, 09:30-10:30,
    10:15-11:00 the first two events overlap and their group has three
    events, yet every event gets totalColumns 2. *)
Lemma totalColumns_not_group_size :
  let events := [admin_event "09:00" "10:00"; admin_event "09:30" "10:30";
                 admin_event "10:15" "11:00"] in
  let out := groupOverlappingEvents JS.codeUnitCompare events in
  let A := mkPositioned (admin_event "09:00" "10:00") 0 2 in
  let B := mkPositioned (admin_event "09:30" "10:30") 1 2 in
  out !! 0%nat = Some A ∧ out !! 1%nat = Some B
  ∧ interval_overlap (event A) (event B) = true
  ∧ cluster_size (event <$> out) 0 = 3%nat ∧ cluster_size (event <$> out) 1 = 3%nat
  ∧ totalColumns A ≠ cluster_size (event <$> out) 0
  ∧ totalColumns B ≠ cluster_size (event <$> out) 1.
Proof.
  split_and!; vm_compute; first [reflexivity|lia].
Qed.

(** ** The admin calendar: processing order *)

Section ProcessingOrder.
Variable localeCompare : string → string → Z.
Hypothesis localeCompare_antisym : ∀ a b, 0 < localeCompare a b → localeCompare b a < 0.
Hypothesis localeCompare_trans :
  ∀ a b c, localeCompare a b ≤ 0 → localeCompare b c ≤ 0 → localeCompare a c ≤ 0.

Lemma before_le (a b : nat * ScheduleEvent) :
  before localeCompare a b →
  localeCompare (Gio_bat_dau (schedule (snd a))) (Gio_bat_dau (schedule (snd b))) ≤ 0.
Proof. unfold before. cbn zeta. lia. Qed.

Lemma insert_before (x : nat * ScheduleEvent) (s : list (nat * ScheduleEvent)) :
  StronglySorted (before localeCompare) s →
  Forall (λ z, (fst x < fst z)%nat) s →
  StronglySorted (before localeCompare) (JS.insert (by_start_indexed localeCompare) x s).
Proof.
  induction s as [|y s IH]; intros Hs Hx; cbn [JS.insert].
  - by repeat constructor.
  - apply StronglySorted_cons in Hs as [Hy Hs]. apply Forall_cons in Hx as [Hxy Hx].
    unfold by_start_indexed at 1, by_start, JS.exceeds, JS.lt.
    destruct (Z.ltb_spec 0 (localeCompare (Gio_bat_dau (schedule (snd x)))
                                          (Gio_bat_dau (schedule (snd y))))) as [Hgt|Hle].
    + apply StronglySorted_cons. split; [|by apply IH].
      rewrite insert_Permutation. apply Forall_cons. split; [|done].
      left. by apply localeCompare_antisym.
    + assert (before localeCompare x y) as Hbxy.
      { unfold before. cbn zeta. lia. }
      apply StronglySorted_cons. split; [|by apply StronglySorted_cons].
      apply Forall_cons. split; [done|].
      rewrite Forall_forall in Hy, Hx |- *. intros z Hz.
      specialize (Hy z Hz). specialize (Hx z Hz). apply before_le in Hy.
      pose proof (localeCompare_trans _ _ _ Hle Hy) as Hxz.
      unfold before. cbn zeta. lia.
Qed.

Lemma sort_before (l : list (nat * ScheduleEvent)) :
  StronglySorted (λ a b, (fst a < fst b)%nat) l →
  StronglySorted (before localeCompare) (JS.sort (by_start_indexed localeCompare) l).
Proof.
  induction l as [|x l IH]; intros Hl; [constructor|].
  apply StronglySorted_cons in Hl as [Hx Hl].
  unfold JS.sort. cbn [foldr]. apply insert_before; [by apply IH|].
  fold (JS.sort (by_start_indexed localeCompare) l). by rewrite sort_Permutation.
Qed.

End ProcessingOrder.

Lemma indexed_from_sorted (k : nat) (events : list ScheduleEvent) :
  StronglySorted (λ a b : nat * ScheduleEvent, (fst a < fst b)%nat)
                 (zip (seq k (length events)) events).
Proof.
  revert k. induction events as [|e events IH]; intros k; [constructor|].
  cbn [length seq zip zip_with]. apply StronglySorted_cons. split; [|apply IH].
  apply Forall_forall. intros [n e'] Hin.
  apply elem_of_zip_l, elem_of_seq in Hin. cbn. lia.
Qed.

Lemma snd_indexed (events : list ScheduleEvent) : (indexed events).*2 = events.
Proof. unfold indexed. apply snd_zip. by rewrite length_seq. Qed.

(** C5.  groupOverlappingEvents processes the events of the input in
    the order of their start, two events with equal starts in the order
    of the input, and gives each event the lowest column that no
    earlier processed event overlapping it has. *)
Theorem groupOverlappingEvents_first_fit (localeCompare : string → string → Z)
    (events : list ScheduleEvent) :
  (∀ a b, 0 < localeCompare a b → localeCompare b a < 0) →
  (∀ a b c, localeCompare a b ≤ 0 → localeCompare b c ≤ 0 → localeCompare a c ≤ 0) →
  let out := groupOverlappingEvents localeCompare events in
  (∃ order, order ≡ₚ indexed events
            ∧ order.*2 = event <$> out
            ∧ StronglySorted (before localeCompare) order)
  ∧ ∀ j q, out !! j = Some q → first_fit_at out j q.
Proof.
  intros Hanti Htrans out.
  destruct (groupOverlappingEvents_inv localeCompare events) as [Hinv Hev].
  fold out in Hinv, Hev. split; [|apply (inv_first_fit _ _ Hinv)].
  exists (JS.sort (by_start_indexed localeCompare) (indexed events)).
  split_and!.
  - apply sort_Permutation.
  - unfold by_start_indexed. by rewrite Hev, sort_fmap, snd_indexed.
  - apply sort_before; [done|done|apply indexed_from_sorted].
Qed.

(** ** The teacher calendar: the overlap test *)

Lemma overlap_test_minutes_overlap (A B : TeacherSchedule.ScheduleEvent) :
  positive A → positive B → TeacherSchedule.overlap_test A B = minutes_overlap A B.
Proof.
  unfold positive, TeacherSchedule.overlap_test, minutes_overlap, endMinutes.
  destruct (TeacherSchedule.startMinutes A) as [sa|], (TeacherSchedule.durationMinutes A) as [da|],
    (TeacherSchedule.startMinutes B) as [sb|], (TeacherSchedule.durationMinutes B) as [db|];
    cbn; try discriminate.
  intros HA%Z.ltb_lt HB%Z.ltb_lt.
  destruct (Z.ltb_spec sb (sa + da)), (Z.leb_spec sa sb), (Z.ltb_spec sa (sb + db)),
    (Z.leb_spec sb sa); cbn; try reflexivity; lia.
Qed.

(** C10.  For two events that each start strictly before they end, the
    test of getWeekEvents holds exactly when the intervals overlap:
    [A.start < B.end] and [B.start < A.end]. *)
Theorem overlap_test_standard (A B : TeacherSchedule.ScheduleEvent) :
  JS.lt (TeacherSchedule.startMinutes A) (endMinutes A) = true →
  JS.lt (TeacherSchedule.startMinutes B) (endMinutes B) = true →
  TeacherSchedule.overlap_test A B
  = (JS.lt (TeacherSchedule.startMinutes A) (endMinutes B)
     && JS.lt (TeacherSchedule.startMinutes B) (endMinutes A)).
Proof.
  unfold TeacherSchedule.overlap_test, endMinutes.
  (* a start or a duration that is NaN contradicts the two hypotheses *)
  destruct (TeacherSchedule.startMinutes A) as [sa|]; [|discriminate].
  destruct (TeacherSchedule.durationMinutes A) as [da|]; [|discriminate].
  destruct (TeacherSchedule.startMinutes B) as [sb|]; [|discriminate].
  destruct (TeacherSchedule.durationMinutes B) as [db|]; [|discriminate].
  cbn. intros HA%Z.ltb_lt HB%Z.ltb_lt.
  (* four integers: compare [sa], [sb] and decide every test *)
  destruct (Z.le_gt_cases sa sb) as [Hle|Hgt].
  - rewrite (proj2 (Z.leb_le sa sb) Hle), andb_true_r.
    destruct (Z.ltb_spec sb (sa + da)) as [Hin|Hout]; cbn.
    + symmetry. apply andb_true_iff. split; [apply Z.ltb_lt; lia|reflexivity].
    + rewrite andb_false_r.
      destruct (Z.leb_spec sb sa) as [Hba|Hba]; [|by rewrite andb_false_r].
      assert (sa = sb) as -> by lia. lia.
  - rewrite (proj2 (Z.leb_gt sa sb) Hgt), andb_false_r. cbn.
    rewrite (proj2 (Z.leb_le sb sa)) by lia. rewrite andb_true_r.
    destruct (Z.ltb_spec sa (sb + db)) as [Hin|Hout]; cbn; [|reflexivity].
    symmetry. apply Z.ltb_lt. lia.
Qed.

Lemma overlap_test_standard_witness :
  TeacherSchedule.overlap_test (teacher_event "09:00" "10:00") (teacher_event "09:30" "10:30")
  = (JS.lt (TeacherSchedule.startMinutes (teacher_event "09:00" "10:00"))
           (endMinutes (teacher_event "09:30" "10:30"))
     && JS.lt (TeacherSchedule.startMinutes (teacher_event "09:30" "10:30"))
              (endMinutes (teacher_event "09:00" "10:00"))).
Proof.
  apply (overlap_test_standard (teacher_event "09:00" "10:00") (teacher_event "09:30" "10:30"));
    vm_compute; reflexivity.
Defined.

(** ** Layouts without overlap *)

Lemma foldl_fixed {S X : Type} (f : S → X → S) (s : S) (l : list X) :
  (∀ x, x ∈ l → f s x = s) → foldl f s l = s.
Proof.
  induction l as [|x l IH]; intros Hf; [done|].
  cbn [foldl]. rewrite Hf by (apply elem_of_cons; by left).
  apply IH. intros y Hy. apply Hf, elem_of_cons. by right.
Qed.

Lemma apart_Permutation (l l' : list ScheduleEvent) : l ≡ₚ l' → apart l → apart l'.
Proof.
  intros Hperm Hl. symmetry in Hperm.
  apply Permutation_inj in Hperm as [_ (f & Hinj & Hf)].
  intros i j a b Hij Ha Hb. rewrite Hf in Ha, Hb.
  apply (Hl (f i) (f j)); [|done..]. intros Heq. by apply Hinj in Heq.
Qed.

Lemma overlapped_nil (positioned : list Positioned) (e : ScheduleEvent) :
  (∀ k p, positioned !! k = Some p → interval_overlap e (event p) = false) →
  overlapped positioned e = [].
Proof.
  intros Hno. apply elem_of_nil_inv. intros p [Ho [k Hk]]%elem_of_overlapped.
  rewrite (Hno k p Hk) in Ho. done.
Qed.

Lemma place_apart (positioned : list Positioned) (e : ScheduleEvent) :
  (∀ k p, positioned !! k = Some p → interval_overlap e (event p) = false) →
  place positioned e = positioned ++ [mkPositioned e 0 1].
Proof.
  intros Hno. rewrite place_spec.
  unfold placed_total, placed_column. rewrite (overlapped_nil positioned e Hno).
  cbn. f_equal. rewrite <- (list_fmap_id positioned) at 2.
  apply list_fmap_ext. intros k p Hp. unfold raise.
  rewrite overlaps_interval. by rewrite (Hno k p Hp).
Qed.

Lemma placement_apart (l : list ScheduleEvent) :
  apart l → foldl place [] l = (λ e, mkPositioned e 0 1) <$> l.
Proof.
  induction l as [|e l IH] using rev_ind; intros Hl; [done|].
  rewrite foldl_place_snoc, fmap_app. cbn [fmap list_fmap].
  assert (apart l) as Hl'.
  { intros i j a b Hij Ha Hb. apply (Hl i j); [done|by apply lookup_app_l_Some..]. }
  rewrite (IH Hl'). apply place_apart.
  intros k p Hp. apply list_lookup_fmap_Some in Hp as (a & -> & Ha). cbn.
  pose proof (lookup_lt_Some _ _ _ Ha) as Hk.
  apply (Hl (length l) k); [lia|by apply list_lookup_middle|by apply lookup_app_l_Some].
Qed.

Lemma reconcile_apart (positioned : list Positioned) :
  (∀ i j p o, i ≠ j → positioned !! i = Some p → positioned !! j = Some o →
              interval_overlap (event p) (event o) = false) →
  reconcile positioned = positioned.
Proof.
  intros Hno. apply (reconcile_ind (λ ps, ps = positioned)); [|done].
  intros i j ps ->. unfold reconcile_pair.
  destruct (i =? j)%nat eqn:Hij; [done|]. apply Nat.eqb_neq in Hij.
  destruct (positioned !! i) as [p|] eqn:Hp; [|done].
  destruct (positioned !! j) as [o|] eqn:Ho; [|done].
  rewrite overlaps_interval. by rewrite (Hno i j p o).
Qed.

Lemma groupOverlappingEvents_apart (localeCompare : string → string → Z)
    (events : list ScheduleEvent) :
  apart events →
  groupOverlappingEvents localeCompare events
  = (λ e, mkPositioned e 0 1) <$> JS.sort (by_start localeCompare) events.
Proof.
  intros Hap. unfold groupOverlappingEvents.
  destruct (length events =? 0)%nat eqn:Hn.
  { apply Nat.eqb_eq, nil_length_inv in Hn. by subst events. }
  assert (apart (JS.sort (by_start localeCompare) events)) as Hsorted.
  { eapply apart_Permutation; [|done]. symmetry. apply sort_Permutation. }
  rewrite (placement_apart _ Hsorted). apply reconcile_apart.
  intros i j p o Hij (a & -> & Ha)%list_lookup_fmap_Some (b & -> & Hb)%list_lookup_fmap_Some.
  cbn. by apply (Hsorted i j).
Qed.

Lemma overlapping_of_single (store : list TeacherSchedule.WeekEvent) (dayEvents : list nat) (i : nat) :
  NoDup dayEvents →
  (∀ r1 r2, r1 ∈ dayEvents → r2 ∈ dayEvents → r1 ≠ r2 →
            TeacherSchedule.test_refs store r1 r2 = false) →
  (length (TeacherSchedule.overlapping_of store dayEvents i) ≤ 1)%nat.
Proof.
  intros Hnd Hno. unfold TeacherSchedule.overlapping_of.
  destruct (dayEvents !! i) as [currentEvent|] eqn:Hcur; [|cbn; lia].
  rewrite foldl_fixed; [cbn; lia|].
  intros j _. destruct (i =? j)%nat eqn:Hij; [done|]. apply Nat.eqb_neq in Hij.
  destruct (dayEvents !! j) as [otherEvent|] eqn:Hother; [|done].
  rewrite Hno; [done|by eapply list_elem_of_lookup_2..|].
  intros ->. apply Hij. by eapply NoDup_lookup.
Qed.

Lemma layout_day_apart (events : list TeacherSchedule.ScheduleEvent) (day : Dayjs.t) :
  Forall positive events → apart_minutes events →
  let store := (λ e, TeacherSchedule.mkWeekEvent e 0 1) <$> events in
  TeacherSchedule.layout_day store day = store.
Proof.
  intros Hpos Hap store. unfold TeacherSchedule.layout_day.
  set (dayEvents := JS.sort (TeacherSchedule.by_startMinutes store)
                      (filter (λ i, TeacherSchedule.same_day store day i)
                              (seq 0 (length store)))).
  assert (dayEvents ≡ₚ filter (λ i, TeacherSchedule.same_day store day i)
                         (seq 0 (length store))) as Hperm by apply sort_Permutation.
  apply foldl_fixed. intros i _. unfold TeacherSchedule.column_step.
  assert (length (TeacherSchedule.overlapping_of store dayEvents i) ≤ 1)%nat as Hlen.
  { apply overlapping_of_single.
    - rewrite Hperm. apply NoDup_filter, NoDup_seq.
    - intros r1 r2 Hr1 Hr2 Hne. rewrite Hperm in Hr1, Hr2.
      apply list_elem_of_filter in Hr1 as [Hd1 _]. apply list_elem_of_filter in Hr2 as [Hd2 _].
      apply Is_true_true in Hd1, Hd2.
      unfold TeacherSchedule.same_day in Hd1, Hd2. unfold TeacherSchedule.test_refs.
      destruct (store !! r1) as [c|] eqn:Hc; [|done].
      destruct (store !! r2) as [o|] eqn:Ho; [|done].
      apply list_lookup_fmap_Some in Hc as (a & -> & Ha).
      apply list_lookup_fmap_Some in Ho as (b & -> & Hb).
      cbn in *. rewrite Forall_lookup in Hpos.
      rewrite overlap_test_minutes_overlap by (by eapply Hpos).
      apply (Hap r1 r2); [done..|].
      unfold Dayjs.isSame in *. apply Z.eqb_eq in Hd1, Hd2. apply Z.eqb_eq. congruence. }
  destruct (Nat.ltb_spec 1 (length (TeacherSchedule.overlapping_of store dayEvents i)));
    [lia|done].
Qed.

Lemma getWeekEvents_apart (weekDays : list Dayjs.t) (events : list TeacherSchedule.ScheduleEvent) :
  Forall positive events → apart_minutes events →
  TeacherSchedule.getWeekEvents weekDays events
  = (λ e, TeacherSchedule.mkWeekEvent e 0 1) <$> events.
Proof.
  intros Hpos Hap. unfold TeacherSchedule.getWeekEvents.
  apply foldl_fixed. intros day _. by apply layout_day_apart.
Qed.

(** X30.  When no two events of the input overlap,
    groupOverlappingEvents gives every event column 0 and totalColumns
    1; getWeekEvents does so when, in addition, every event starts
    strictly before it ends. *)
Theorem non_overlapping_layout (localeCompare : string → string → Z)
    (adminEvents : list ScheduleEvent)
    (weekDays : list Dayjs.t) (teacherEvents : list TeacherSchedule.ScheduleEvent) :
  apart adminEvents →
  Forall positive teacherEvents → apart_minutes teacherEvents →
  Forall (λ p, column p = 0%nat ∧ totalColumns p = 1%nat)
         (groupOverlappingEvents localeCompare adminEvents)
  ∧ Forall (λ p, TeacherSchedule.column p = 0%nat ∧ TeacherSchedule.totalColumns p = 1%nat)
           (TeacherSchedule.getWeekEvents weekDays teacherEvents).
Proof.
  intros Hap Hpos Hapm. split.
  - rewrite groupOverlappingEvents_apart by done. apply Forall_fmap, Forall_forall. by intros e _.
  - rewrite getWeekEvents_apart by done. apply Forall_fmap, Forall_forall. by intros e _.
Qed.

Lemma non_overlapping_layout_witness :
  Forall (λ p, column p = 0%nat ∧ totalColumns p = 1%nat)
         (groupOverlappingEvents JS.codeUnitCompare
            [admin_event "10:00" "11:00"; admin_event "09:00" "10:00"])
  ∧ Forall (λ p, TeacherSchedule.column p = 0%nat ∧ TeacherSchedule.totalColumns p = 1%nat)
           (TeacherSchedule.getWeekEvents week
              [teacher_event "10:00" "11:00"; teacher_event "09:00" "10:00"]).
Proof.
  apply (non_overlapping_layout JS.codeUnitCompare
           [admin_event "10:00" "11:00"; admin_event "09:00" "10:00"] week
           [teacher_event "10:00" "11:00"; teacher_event "09:00" "10:00"]).
  - intros [|[|i]] [|[|j]] a b Hij Ha Hb; cbn in Ha, Hb; simplify_eq;
      first [done|vm_compute; reflexivity].
  - repeat constructor.
  - intros [|[|i]] [|[|j]] a b Hij Ha Hb _; cbn in Ha, Hb; simplify_eq;
      first [done|vm_compute; reflexivity].
Defined.

(** C6 (failing input).  An event 09:00-09:00 and an event 09:00-10:00
    of one day do not overlap, on the texts as on the minutes.
    groupOverlappingEvents gives each of them column 0 and totalColumns
    1; getWeekEvents lays them out in two columns, the first event in
    column 1 of 2 and the second in column 0 of 2. *)
Theorem zero_duration_event_gets_column :
  apart [admin_event "09:00" "09:00"; admin_event "09:00" "10:00"]
  ∧ admin_layout (groupOverlappingEvents JS.codeUnitCompare
                    [admin_event "09:00" "09:00"; admin_event "09:00" "10:00"])
    = [(0, 1); (0, 1)]%nat
  ∧ apart_minutes [teacher_event "09:00" "09:00"; teacher_event "09:00" "10:00"]
  ∧ TeacherSchedule.durationMinutes (teacher_event "09:00" "09:00") = JS.Num 0
  ∧ teacher_layout (TeacherSchedule.getWeekEvents week
                      [teacher_event "09:00" "09:00"; teacher_event "09:00" "10:00"])
    = [(1, 2); (0, 2)]%nat
  ∧ ¬ Forall (λ p, TeacherSchedule.column p = 0%nat ∧ TeacherSchedule.totalColumns p = 1%nat)
        (TeacherSchedule.getWeekEvents week
           [teacher_event "09:00" "09:00"; teacher_event "09:00" "10:00"]).
Proof.
  split_and!.
  - intros [|[|i]] [|[|j]] a b Hij Ha Hb; cbn in Ha, Hb; simplify_eq;
      first [done|vm_compute; reflexivity].
  - vm_compute. reflexivity.
  - intros [|[|i]] [|[|j]] a b Hij Ha Hb _; cbn in Ha, Hb; simplify_eq;
      first [done|vm_compute; reflexivity].
  - vm_compute. reflexivity.
  - vm_compute. reflexivity.
  - intros H. vm_compute in H. apply Forall_cons in H as [[H _] _]. discriminate.
Qed.

(** ** The scenarios of the layout *)

Example layout_of_nothing :
  groupOverlappingEvents JS.codeUnitCompare [] = []
  ∧ TeacherSchedule.getWeekEvents week [] = [].
Proof. split; vm_compute; reflexivity. Qed.

Example layout_of_one_event :
  admin_layout (groupOverlappingEvents JS.codeUnitCompare [admin_event "09:00" "10:00"])
  = [(0, 1)]%nat
  ∧ teacher_layout (TeacherSchedule.getWeekEvents week [teacher_event "09:00" "10:00"])
    = [(0, 1)]%nat.
Proof. split; vm_compute; reflexivity. Qed.

Example layout_of_a_chain :
  admin_layout (groupOverlappingEvents JS.codeUnitCompare
                  [admin_event "10:15" "11:00"; admin_event "09:00" "10:00";
                   admin_event "09:30" "10:30"])
  = [(0, 2); (1, 2); (0, 2)]%nat.
Proof. vm_compute. reflexivity. Qed.

Example layout_of_three_at_once :
  admin_layout (groupOverlappingEvents JS.codeUnitCompare
                  [admin_event "10:00" "11:00"; admin_event "10:00" "11:00";
                   admin_event "10:00" "11:00"])
  = [(0, 3); (1, 3); (2, 3)]%nat
  ∧ teacher_layout (TeacherSchedule.getWeekEvents week
                      [teacher_event "10:00" "11:00"; teacher_event "10:00" "11:00";
                       teacher_event "10:00" "11:00"])
    = [(1, 3); (2, 3); (0, 3)]%nat.
Proof. split; vm_compute; reflexivity. Qed.

Example style_of_an_event :
  getEventStyle (admin_event "09:00" "10:30") = mkStyle (JS.Num 180) (JS.Num 90)
  ∧ TeacherSchedule.timeToMinutes "09:30" = JS.Num 570
  ∧ dayOfWeek 20094 = 2 ∧ dayOfWeek 20100 = 8.
Proof. split_and!; vm_compute; reflexivity. Qed.

(** ** The teacher calendar: columns of overlapping events *)

(** C1 (failing input).  In getWeekEvents, of the events
    09:00-10:00, 09:30-10:30, 10:15-11:00 of one day the first two
    overlap, and both end in column 1. *)
Theorem getWeekEvents_same_column :
  let events := [teacher_event "09:00" "10:00"; teacher_event "09:30" "10:30";
                 teacher_event "10:15" "11:00"] in
  let out := TeacherSchedule.getWeekEvents week events in
  TeacherSchedule.event <$> out = events
  ∧ minutes_overlap (teacher_event "09:00" "10:00") (teacher_event "09:30" "10:30") = true
  ∧ teacher_layout out = [(1, 3); (1, 2); (0, 2)]%nat.
Proof. split_and!; vm_compute; reflexivity. Qed.

(** ** The admin calendar: one pass of reconciliation *)

(** C3 (failing input).  In groupOverlappingEvents the
    five events 08:00-09:00, 08:30-10:00, 09:00-13:00, 10:30-13:00,
    11:00-13:00 form one overlap group in which at most three events
    run at once; the first event is left with totalColumns 2, the
    others get 3. *)
Theorem reconcile_leaves_cluster_uneven :
  let events := [admin_event "08:00" "09:00"; admin_event "08:30" "10:00";
                 admin_event "09:00" "13:00"; admin_event "10:30" "13:00";
                 admin_event "11:00" "13:00"] in
  let out := groupOverlappingEvents JS.codeUnitCompare events in
  event <$> out = events
  ∧ cluster events 0 = [0; 1; 2; 3; 4]%nat
  ∧ max_active events (cluster events 0) = 3%nat
  ∧ interval_overlap (admin_event "08:00" "09:00") (admin_event "08:30" "10:00") = true
  ∧ admin_layout out = [(0, 2); (1, 3); (0, 3); (1, 3); (2, 3)]%nat.
Proof. split_and!; vm_compute; reflexivity. Qed.

(** ** Durations on the teacher calendar *)

(** C4 (failing input).  In the teacher calendar an event
    09:00-09:00 keeps the duration 0 there and an empty start time
    turns into NaN, while getEventStyle of the admin calendar gives the
    first a height of 30 and the second the box of height 60. *)
Theorem teacher_duration_not_floored :
  TeacherSchedule.durationMinutes (teacher_event "09:00" "09:00") = JS.Num 0
  ∧ TeacherSchedule.timeToMinutes "" = JS.NaN
  ∧ TeacherSchedule.durationMinutes (teacher_event "" "09:00") = JS.NaN
  ∧ getEventStyle (admin_event "09:00" "09:00") = mkStyle (JS.Num 180) (JS.Num 30)
  ∧ getEventStyle (admin_event "" "09:00") = mkStyle (JS.Num 0) (JS.Num 60).
Proof. split_and!; vm_compute; reflexivity. Qed.

(** ** The day-of-week key *)

(** C8.  The key of a date is the key of its weekday, Monday 2 up to
    Saturday 7 and Sunday 8: it is 8 when dayjs gives the index 0 and
    the index plus 1 otherwise, so it lies in 2..8 and is never 1; and
    each of the seven keys is the key of some date. *)
Theorem dayOfWeek_weekday_key :
  (∀ date : Dayjs.t,
     (∃ w, weekday_of_index (Dayjs.day date) = Some w ∧ dayOfWeek date = weekday_key w)
     ∧ 2 ≤ dayOfWeek date ≤ 8
     ∧ dayOfWeek date = (if Dayjs.day date =? 0 then 8 else Dayjs.day date + 1))
  ∧ (∀ w : Weekday, ∃ date : Dayjs.t,
       weekday_of_index (Dayjs.day date) = Some w ∧ dayOfWeek date = weekday_key w).
Proof.
  split.
  - intros date. unfold dayOfWeek.
    pose proof (Z.mod_pos_bound (date + 4) 7 ltac:(lia)) as Hd. fold (Dayjs.day date) in Hd.
    assert (Dayjs.day date = 0 ∨ Dayjs.day date = 1 ∨ Dayjs.day date = 2 ∨ Dayjs.day date = 3
            ∨ Dayjs.day date = 4 ∨ Dayjs.day date = 5 ∨ Dayjs.day date = 6) as Hcases by lia.
    destruct Hcases as [->|[->|[->|[->|[->|[->| ->]]]]]]; cbn;
      (split; [eexists; split; reflexivity|split; [lia|reflexivity]]).
  - intros w.
    exists (match w with
            | Sunday => 3 | Monday => 4 | Tuesday => 5 | Wednesday => 6
            | Thursday => 0 | Friday => 1 | Saturday => 2
            end).
    destruct w; split; reflexivity.
Qed.

(** ** The two screens *)

(** C9.  The two layouts differ.  On two events 09:00-10:00 of one day
    they assign the columns in opposite order, and on the chain
    09:00-10:00, 09:30-10:30, 10:15-11:00 they disagree on the columns
    and on totalColumns; both inputs are already in start order, so the
    two results list the events in the same order. *)
Theorem layouts_diverge :
  admin_result [("09:00", "10:00"); ("09:00", "10:00")] = [(0, 2); (1, 2)]%nat
  ∧ teacher_result [("09:00", "10:00"); ("09:00", "10:00")] = [(1, 2); (0, 2)]%nat
  ∧ admin_result [("09:00", "10:00"); ("09:30", "10:30"); ("10:15", "11:00")]
    = [(0, 2); (1, 2); (0, 2)]%nat
  ∧ teacher_result [("09:00", "10:00"); ("09:30", "10:30"); ("10:15", "11:00")]
    = [(1, 3); (1, 2); (0, 2)]%nat
  ∧ ∃ schedules : list (string * string),
      let adminEvents := (λ s, admin_event (fst s) (snd s)) <$> schedules in
      event <$> groupOverlappingEvents JS.codeUnitCompare adminEvents = adminEvents
      ∧ admin_result schedules ≠ teacher_result schedules.
Proof.
  do 4 (split; [vm_compute; reflexivity|]).
  exists [("09:00", "10:00"); ("09:30", "10:30"); ("10:15", "11:00")].
  split; [vm_compute; reflexivity|vm_compute; discriminate].
Qed.

(** ** Code-unit order as a comparator *)

Lemma string_compare_trans (a b c : string) :
  String.compare a b ≠ Gt → String.compare b c ≠ Gt → String.compare a c ≠ Gt.
Proof.
  revert b c. induction a as [|x a IH]; intros [|y b] [|z c]; cbn; try done.
  unfold Ascii.compare.
  destruct (N.compare_spec (N_of_ascii x) (N_of_ascii y)) as [Hxy|Hxy|Hxy]; [| |done];
    destruct (N.compare_spec (N_of_ascii y) (N_of_ascii z)) as [Hyz|Hyz|Hyz]; try done;
    destruct (N.compare_spec (N_of_ascii x) (N_of_ascii z)) as [Hxz|Hxz|Hxz];
    try done; try lia.
  apply IH.
Qed.

Lemma codeUnitCompare_antisym (a b : string) :
  0 < JS.codeUnitCompare a b → JS.codeUnitCompare b a < 0.
Proof.
  unfold JS.codeUnitCompare. rewrite (String.compare_antisym b a).
  destruct (String.compare a b); cbn; lia.
Qed.

Lemma codeUnitCompare_trans (a b c : string) :
  JS.codeUnitCompare a b ≤ 0 → JS.codeUnitCompare b c ≤ 0 → JS.codeUnitCompare a c ≤ 0.
Proof.
  unfold JS.codeUnitCompare. intros Hab Hbc.
  pose proof (string_compare_trans a b c) as Htrans.
  destruct (String.compare a b), (String.compare b c), (String.compare a c);
    try lia; exfalso; by apply Htrans.
Qed.

Lemma groupOverlappingEvents_first_fit_witness :
  let events := [admin_event "09:30" "10:30"; admin_event "09:00" "10:00";
                 admin_event "09:00" "09:45"] in
  let out := groupOverlappingEvents JS.codeUnitCompare events in
  (∃ order, order ≡ₚ indexed events
            ∧ order.*2 = event <$> out
            ∧ StronglySorted (before JS.codeUnitCompare) order)
  ∧ ∀ j q, out !! j = Some q → first_fit_at out j q.
Proof.
  apply (groupOverlappingEvents_first_fit JS.codeUnitCompare
           [admin_event "09:30" "10:30"; admin_event "09:00" "10:00";
            admin_event "09:00" "09:45"]).
  - apply codeUnitCompare_antisym.
  - apply codeUnitCompare_trans.
Defined.

(** ** The admin calendar: the call and the caller's arrays *)

Lemma call_groupOverlappingEvents_spec (localeCompare : string → string → Z)
    (events : nat) (h : arrays) (arr : list ScheduleEvent) :
  h !! events = Some arr →
  ∃ h', call_groupOverlappingEvents localeCompare events h
        = Some (groupOverlappingEvents localeCompare arr, h')
        ∧ ∀ a, is_Some (h !! a) → h' !! a = h !! a.
Proof.
  unfold call_groupOverlappingEvents, groupOverlappingEvents, spread, sort_in_place.
  unfold arrays in *. intros Harr.
  rewrite Harr. cbn [mbind option_bind].
  destruct (length arr =? 0)%nat eqn:Hn; [by exists h|].
  set (r := fresh (dom h)).
  assert (h !! r = None) as Hfresh by apply not_elem_of_dom, is_fresh.
  rewrite lookup_insert_eq. cbn [mbind option_bind].
  rewrite lookup_insert_eq. cbn [mbind option_bind].
  eexists. split; [reflexivity|].
  intros a [x Hx]. rewrite !lookup_insert_ne; [done|intros ->; congruence..].
Qed.

(** C7.  A call of groupOverlappingEvents returns the layout of the
    events the array holds, whatever else the caller's arrays hold; it
    leaves that array and every other existing array as they were; and a
    second call on the same array returns the same layout. *)
Theorem groupOverlappingEvents_pure (localeCompare : string → string → Z)
    (events : nat) (h : arrays) (arr : list ScheduleEvent) :
  h !! events = Some arr →
  ∃ h1 h2,
    call_groupOverlappingEvents localeCompare events h
    = Some (groupOverlappingEvents localeCompare arr, h1)
    ∧ (∀ a, is_Some (h !! a) → h1 !! a = h !! a)
    ∧ call_groupOverlappingEvents localeCompare events h1
      = Some (groupOverlappingEvents localeCompare arr, h2).
Proof.
  intros Harr.
  destruct (call_groupOverlappingEvents_spec localeCompare events h arr Harr)
    as (h1 & Hcall1 & Hkeep).
  assert (h1 !! events = Some arr) as Harr1.
  { rewrite Hkeep; [done|by eexists]. }
  destruct (call_groupOverlappingEvents_spec localeCompare events h1 arr Harr1)
    as (h2 & Hcall2 & _).
  by exists h1, h2.
Qed.

Lemma groupOverlappingEvents_pure_witness :
  let arr := [admin_event "09:30" "10:30"; admin_event "09:00" "10:00"] in
  let h : arrays := {[ 7%nat := arr ]} in
  ∃ h1 h2,
    call_groupOverlappingEvents JS.codeUnitCompare 7 h
    = Some (groupOverlappingEvents JS.codeUnitCompare arr, h1)
    ∧ (∀ a, is_Some (h !! a) → h1 !! a = h !! a)
    ∧ call_groupOverlappingEvents JS.codeUnitCompare 7 h1
      = Some (groupOverlappingEvents JS.codeUnitCompare arr, h2).
Proof.
  apply (groupOverlappingEvents_pure JS.codeUnitCompare 7
           {[ 7%nat := [admin_event "09:30" "10:30"; admin_event "09:00" "10:00"] ]}).
  vm_compute. reflexivity.
Defined.

(** ** What both layouts keep of their input *)


(** X2.  Every entry of the result of groupOverlappingEvents, overlapped
    or not, has its column below its totalColumns, and its totalColumns
    at most the number of events of the input. *)
Theorem groupOverlappingEvents_column_in_range (localeCompare : string → string → Z)
    (events : list ScheduleEvent) :
  Forall (λ p, (column p < totalColumns p ≤ length events)%nat)
         (groupOverlappingEvents localeCompare events).
Proof.
  destruct (groupOverlappingEvents_inv localeCompare events) as [Hinv Hev].
  apply Forall_lookup. intros k p Hp. split.
  - by apply (inv_column _ _ Hinv k).
  - pose proof (totalColumns_le_cluster_size _ _ k p Hinv Hp) as Hle.
    assert (k < length (JS.sort (by_start localeCompare) events))%nat as Hk.
    { eapply lookup_lt_Some. by apply (inv_events _ _ Hinv). }
    pose proof (length_reach (JS.sort (by_start localeCompare) events) k Hk
                  (length (JS.sort (by_start localeCompare) events))) as Hr.
    unfold cluster_size, cluster in Hle.
    rewrite <- (length_sort (by_start localeCompare) events). lia.
Qed.

(** ** The teacher calendar: what the column pass keeps *)

Lemma foldl_inv {S X : Type} (P : S → Prop) (f : S → X → S) (l : list X) (s : S) :
  P s → (∀ s x, x ∈ l → P s → P (f s x)) → P (foldl f s l).
Proof.
  revert s. induction l as [|x l IH]; intros s Hs Hf; [done|].
  cbn. apply IH.
  - apply Hf; [apply elem_of_cons; by left|done].
  - intros s' y Hy. apply Hf. apply elem_of_cons. by right.
Qed.

Lemma overlapping_of_refs (store : list TeacherSchedule.WeekEvent) (dayEvents : list nat)
    (i : nat) :
  let overlapping := TeacherSchedule.overlapping_of store dayEvents i in
  NoDup overlapping ∧ ∀ r, r ∈ overlapping → r ∈ dayEvents.
Proof.
  unfold TeacherSchedule.overlapping_of.
  destruct (dayEvents !! i) as [currentEvent|] eqn:Hcur.
  - apply (foldl_inv (λ ov, NoDup ov ∧ ∀ r, r ∈ ov → r ∈ dayEvents)).
    + split; [apply NoDup_singleton|].
      intros r ->%list_elem_of_singleton. by eapply list_elem_of_lookup_2.
    + intros ov j _ [Hnd Hsub].
      destruct (i =? j)%nat; [done|].
      destruct (dayEvents !! j) as [otherEvent|] eqn:Hother; [|done].
      destruct (TeacherSchedule.test_refs store currentEvent otherEvent); [|done].
      destruct (bool_decide_reflect (otherEvent ∈ ov)) as [Hin|Hout]; [done|].
      split.
      * apply NoDup_app. split_and!; [done| |apply NoDup_singleton].
        intros x Hx ->%list_elem_of_singleton. done.
      * intros r [Hr| ->%list_elem_of_singleton]%elem_of_app; [by apply Hsub|].
        by eapply list_elem_of_lookup_2.
  - split; [apply NoDup_nil_2|]. by intros r ?%elem_of_nil.
Qed.

Lemma filter_agree {A : Type} (P Q : A → Prop) `{∀ x, Decision (P x)} `{∀ x, Decision (Q x)}
    (l : list A) :
  (∀ x, x ∈ l → P x ↔ Q x) → filter P l = filter Q l.
Proof.
  induction l as [|x l IH]; intros Hl; [done|].
  rewrite !filter_cons.
  assert (P x ↔ Q x) as Hx by (apply Hl, elem_of_cons; by left).
  rewrite IH by (intros y Hy; apply Hl, elem_of_cons; by right).
  repeat case_decide; tauto.
Qed.

Lemma length_same_day (store : list TeacherSchedule.WeekEvent) (day : Dayjs.t) :
  length (filter (λ i, TeacherSchedule.same_day store day i) (seq 0 (length store)))
  = events_on (TeacherSchedule.event <$> store) day.
Proof.
  unfold events_on. induction store as [|x store IH] using rev_ind; [done|].
  rewrite length_app, Nat.add_1_r, seq_S, fmap_app, !filter_app, !length_app.
  cbn [Nat.add]. f_equal.
  - rewrite <- IH. f_equal. apply filter_agree.
    intros k Hk%elem_of_seq.
    unfold TeacherSchedule.same_day. rewrite lookup_app_l by lia. done.
  - cbn [fmap list_fmap]. rewrite !filter_cons, !filter_nil.
    assert (TeacherSchedule.same_day (store ++ [x]) day (length store)
            = Dayjs.isSame (TeacherSchedule.date (TeacherSchedule.event x)) day) as ->.
    { unfold TeacherSchedule.same_day. by rewrite (list_lookup_middle store [] x). }
    by repeat case_decide.
Qed.

Lemma kept_alter (events : list TeacherSchedule.ScheduleEvent)
    (store : list TeacherSchedule.WeekEvent) (c n r : nat) :
  kept events store → (c < n)%nat →
  (∀ ev, events !! r = Some ev → (n ≤ events_on events (TeacherSchedule.date ev))%nat) →
  kept events (alter (TeacherSchedule.set_layout c n) r store).
Proof.
  intros [Hev Hin] Hc Hn. split.
  - rewrite (list_fmap_alter _ _ (λ x, x)) by (by apply Forall_forall).
    rewrite Hev. by apply list_alter_id.
  - apply Forall_alter; [done|]. intros e He _. unfold within. cbn. split; [done|].
    apply Hn. rewrite <- Hev, list_lookup_fmap, He. done.
Qed.

Lemma kept_assign (events : list TeacherSchedule.ScheduleEvent)
    (store : list TeacherSchedule.WeekEvent) (overlapping : list nat) :
  kept events store →
  (∀ r ev, r ∈ overlapping → events !! r = Some ev →
           (length overlapping ≤ events_on events (TeacherSchedule.date ev))%nat) →
  kept events (TeacherSchedule.assign overlapping store).
Proof.
  intros Hk Hn. unfold TeacherSchedule.assign.
  apply (foldl_inv (kept events)); [done|].
  intros st [c r] (i & x & [= -> ->] & Hx)%elem_of_lookup_imap Hst. cbn.
  apply kept_alter; [done|by eapply lookup_lt_Some|].
  intros ev. apply Hn. by eapply list_elem_of_lookup_2.
Qed.

Lemma kept_layout_day (events : list TeacherSchedule.ScheduleEvent)
    (store : list TeacherSchedule.WeekEvent) (day : Dayjs.t) :
  kept events store → kept events (TeacherSchedule.layout_day store day).
Proof.
  intros Hk. unfold TeacherSchedule.layout_day.
  set (sameDay := filter (λ i, TeacherSchedule.same_day store day i) (seq 0 (length store))).
  set (dayEvents := JS.sort (TeacherSchedule.by_startMinutes store) sameDay).
  assert (dayEvents ≡ₚ sameDay) as Hperm by apply sort_Permutation.
  assert (length dayEvents = events_on events day) as Hlen.
  { rewrite Hperm. unfold sameDay. rewrite length_same_day. by destruct Hk as [-> _]. }
  assert (∀ r ev, r ∈ dayEvents → events !! r = Some ev → TeacherSchedule.date ev = day)
    as Hday.
  { intros r ev Hr Hev. rewrite Hperm in Hr.
    apply list_elem_of_filter in Hr as [Hd _]. apply Is_true_true in Hd.
    unfold TeacherSchedule.same_day in Hd. destruct Hk as [Hk _].
    rewrite <- Hk, list_lookup_fmap in Hev.
    destruct (store !! r) as [e|]; [|done]. cbn in Hev. simplify_eq.
    by apply Z.eqb_eq in Hd. }
  clearbody dayEvents. clear Hperm sameDay.
  apply (foldl_inv (kept events)); [done|].
  intros st i _ Hst. unfold TeacherSchedule.column_step.
  destruct (1 <? length (TeacherSchedule.overlapping_of st dayEvents i))%nat; [|done].
  destruct (overlapping_of_refs st dayEvents i) as [Hnd Hsub].
  apply kept_assign; [done|]. intros r ev Hr Hev.
  rewrite (Hday r ev) by (by try apply Hsub). rewrite <- Hlen.
  apply submseteq_length, NoDup_submseteq; done.
Qed.

Lemma getWeekEvents_kept (weekDays : list Dayjs.t)
    (events : list TeacherSchedule.ScheduleEvent) :
  kept events (TeacherSchedule.getWeekEvents weekDays events).
Proof.
  unfold TeacherSchedule.getWeekEvents.
  apply (foldl_inv (kept events)); [|intros st day _; apply kept_layout_day].
  split.
  - rewrite <- list_fmap_compose. apply list_fmap_id.
  - apply Forall_lookup. intros k e (ev & -> & Hev)%list_lookup_fmap_Some.
    unfold within, events_on. cbn. split; [lia|].
    assert (ev ∈ filter (λ e, Dayjs.isSame (TeacherSchedule.date e) (TeacherSchedule.date ev))
                        events) as Hin.
    { apply list_elem_of_filter. split; [|by eapply list_elem_of_lookup_2].
      apply Is_true_true. apply Z.eqb_refl. }
    destruct (filter _ events); [by apply elem_of_nil in Hin|cbn; lia].
Qed.

(** X3.  The column pass of getWeekEvents returns the events it was
    given, in the order given and with their data unchanged; only the
    two layout fields are added. *)
Theorem getWeekEvents_keeps_events (weekDays : list Dayjs.t)
    (events : list TeacherSchedule.ScheduleEvent) :
  TeacherSchedule.event <$> TeacherSchedule.getWeekEvents weekDays events = events.
Proof.
  by destruct (getWeekEvents_kept weekDays events) as [Hev _].
Qed.

(** X4.  Every entry of the result of getWeekEvents has its column below
    its totalColumns, and its totalColumns at most the number of events
    of the input that fall on the entry's own day. *)
Theorem getWeekEvents_column_in_range (weekDays : list Dayjs.t)
    (events : list TeacherSchedule.ScheduleEvent) :
  Forall (λ e, (TeacherSchedule.column e < TeacherSchedule.totalColumns e
                ≤ events_on events (TeacherSchedule.date (TeacherSchedule.event e)))%nat)
         (TeacherSchedule.getWeekEvents weekDays events).
Proof.
  by destruct (getWeekEvents_kept weekDays events) as [_ Hin].
Qed.

(** ** HH:mm texts *)

Lemma forallb_seqZ (f : Z → bool) (a n z : Z) :
  forallb f (seqZ a n) = true → a ≤ z < a + n → f z = true.
Proof.
  intros Hall Hz. apply Is_true_true, forallb_True in Hall. apply Is_true_true.
  rewrite Forall_forall in Hall. apply Hall. apply elem_of_seqZ. lia.
Qed.

Lemma padStart_digits (n : Z) :
  0 ≤ n < 100 →
  ES.padStart 2 "0" (ES.toString n) = String (digit (n / 10)) (String (digit (n mod 10)) "").
Proof.
  intros Hn.
  apply String.eqb_eq.
  apply (forallb_seqZ (λ n, String.eqb (ES.padStart 2 "0" (ES.toString n))
                              (String (digit (n / 10)) (String (digit (n mod 10)) "")))
                      0 100); [vm_compute; reflexivity|lia].
Qed.

Lemma HHmm_digits (h m : Z) :
  0 ≤ h < 100 → 0 ≤ m < 100 →
  HHmm h m = String (digit (h / 10)) (String (digit (h mod 10)) (String ":"
            (String (digit (m / 10)) (String (digit (m mod 10)) "")))).
Proof.
  intros Hh Hm. unfold HHmm. by rewrite !padStart_digits.
Qed.

Lemma Number_padStart (n : Z) :
  0 ≤ n < 100 → JS.Number (ES.padStart 2 "0" (ES.toString n)) = JS.Num n.
Proof.
  intros Hn.
  pose proof (forallb_seqZ (λ n, match JS.Number (ES.padStart 2 "0" (ES.toString n)) with
                                 | JS.Num z => z =? n
                                 | JS.NaN => false
                                 end) 0 100 n) as Hc.
  cbn beta in Hc. specialize (Hc ltac:(vm_compute; reflexivity) ltac:(lia)).
  destruct (JS.Number _); [|done]. by apply Z.eqb_eq in Hc as ->.
Qed.

Lemma digit_not_colon (d : Z) : 0 ≤ d < 10 → Ascii.eqb (digit d) ":" = false.
Proof.
  intros Hd.
  pose proof (forallb_seqZ (λ d, negb (Ascii.eqb (digit d) ":")) 0 10 d) as Hc.
  cbn beta in Hc. specialize (Hc ltac:(vm_compute; reflexivity) ltac:(lia)).
  by apply negb_true_iff in Hc.
Qed.

Lemma split_HHmm (h m : Z) :
  0 ≤ h < 100 → 0 ≤ m < 100 →
  JS.split ":" (HHmm h m)
  = [ES.padStart 2 "0" (ES.toString h); ES.padStart 2 "0" (ES.toString m)].
Proof.
  intros Hh Hm. rewrite HHmm_digits, !padStart_digits by done.
  unfold JS.split. cbn [JS.split_go].
  rewrite !digit_not_colon
    by first [apply Z.mod_pos_bound; lia
             |split; [apply Z.div_pos|apply Z.div_lt_upper_bound]; lia].
  change (Ascii.eqb ":" ":") with true. reflexivity.
Qed.

Lemma timeToMinutes_HHmm (h m : Z) :
  0 ≤ h < 100 → 0 ≤ m < 100 →
  TeacherSchedule.timeToMinutes (HHmm h m) = JS.Num (h * 60 + m).
Proof.
  intros Hh Hm. unfold TeacherSchedule.timeToMinutes.
  rewrite split_HHmm by done. cbn [fmap list_fmap].
  by rewrite !Number_padStart.
Qed.

Lemma digit_code (d : Z) : 0 ≤ d < 10 → Ascii.N_of_ascii (digit d) = Z.to_N (48 + d).
Proof. intros Hd. apply Ascii.N_ascii_embedding. lia. Qed.

Lemma digit_compare (c d : Z) :
  0 ≤ c < 10 → 0 ≤ d < 10 → Ascii.compare (digit c) (digit d) = (c ?= d).
Proof.
  intros Hc Hd. unfold Ascii.compare. rewrite !digit_code by done.
  rewrite (Z2N.inj_compare (48 + c) (48 + d)) by lia.
  apply Z.add_compare_mono_l.
Qed.

(** On HH:mm texts of times of day, the order of the texts is the order
    of the times. *)
Lemma str_lt_HHmm (h m h' m' : Z) :
  time_of_day h m → time_of_day h' m' →
  JS.str_lt (HHmm h m) (HHmm h' m') = (h * 60 + m <? h' * 60 + m').
Proof.
  intros [Hh Hm] [Hh' Hm']. rewrite !HHmm_digits by lia.
  unfold JS.str_lt, String.ltb. cbn [String.compare].
  assert (∀ x, 0 ≤ x < 100 → 0 ≤ x / 10 < 10) as Hdiv.
  { intros x Hx. split; [apply Z.div_pos|apply Z.div_lt_upper_bound]; lia. }
  assert (∀ x, 0 ≤ x mod 10 < 10) as Hmod by (intros x; apply Z.mod_pos_bound; lia).
  rewrite !digit_compare by (first [apply Hdiv; lia|apply Hmod]).
  pose proof (Z.div_mod h 10 ltac:(lia)) as Eh. pose proof (Z.div_mod h' 10 ltac:(lia)) as Eh'.
  pose proof (Z.div_mod m 10 ltac:(lia)) as Em. pose proof (Z.div_mod m' 10 ltac:(lia)) as Em'.
  pose proof (Hmod h) as Bh. pose proof (Hmod h') as Bh'.
  pose proof (Hmod m) as Bm. pose proof (Hmod m') as Bm'.
  change (Ascii.compare ":" ":") with Eq. cbn match.
  generalize dependent (h / 10). generalize dependent (h mod 10).
  generalize dependent (h' / 10). generalize dependent (h' mod 10).
  generalize dependent (m / 10). generalize dependent (m mod 10).
  generalize dependent (m' / 10). generalize dependent (m' mod 10).
  intros d4 ? c4 ? d3 ? c3 ? d2 ? c2 ? d1 ? c1 ?. clear Hdiv Hmod.
  destruct (Z.compare_spec c1 c2);
    [destruct (Z.compare_spec d1 d2);
       [destruct (Z.compare_spec c3 c4);
          [destruct (Z.compare_spec d3 d4)|..]|..]|..];
    symmetry; first [apply Z.ltb_lt; lia|apply Z.ltb_ge; lia].
Qed.

(** ** Maps, sets and sorted lists of the runtime *)

Lemma get_set_eq {V : Type} (m : ES.Map V) (key : string) (v : V) :
  ES.get (ES.set m key v) key = Some v.
Proof.
  induction m as [|[k v'] m IH]; cbn.
  - by rewrite String.eqb_refl.
  - destruct (String.eqb k key) eqn:Hk; cbn; rewrite Hk; done.
Qed.

Lemma get_set_ne {V : Type} (m : ES.Map V) (key key' : string) (v : V) :
  key ≠ key' → ES.get (ES.set m key v) key' = ES.get m key'.
Proof.
  intros Hne. induction m as [|[k v'] m IH]; cbn.
  - by apply String.eqb_neq in Hne as ->.
  - destruct (String.eqb k key) eqn:Hk; cbn.
    + apply String.eqb_eq in Hk as ->. by apply String.eqb_neq in Hne as ->.
    + by rewrite IH.
Qed.

Lemma elem_of_values_set {V : Type} (m : ES.Map V) (key : string) (v x : V) :
  x ∈ ES.values (ES.set m key v) → x = v ∨ x ∈ ES.values m.
Proof.
  unfold ES.values. induction m as [|[k v'] m IH]; cbn.
  - intros ->%list_elem_of_singleton. by left.
  - destruct (String.eqb k key); cbn; intros [->|Hx]%elem_of_cons.
    + by left.
    + right. apply elem_of_cons. by right.
    + right. apply elem_of_cons. by left.
    + destruct (IH Hx) as [->|Hx']; [by left|]. right. apply elem_of_cons. by right.
Qed.

Lemma elem_of_values_get {V : Type} (m : ES.Map V) (key : string) (v : V) :
  ES.get m key = Some v → v ∈ ES.values m.
Proof.
  unfold ES.values. induction m as [|[k v'] m IH]; cbn; [done|].
  destruct (String.eqb k key).
  - intros [= ->]. apply elem_of_cons. by left.
  - intros Hg. apply elem_of_cons. right. by apply IH.
Qed.

Lemma unique_from {A : Type} `{EqDecision A} (l seen : list A) :
  let out := foldl (λ seen x, if bool_decide (x ∈ seen) then seen else seen ++ [x]) seen l in
  (NoDup seen → NoDup out) ∧ ∀ x, x ∈ out ↔ x ∈ seen ∨ x ∈ l.
Proof.
  revert seen. induction l as [|y l IH]; intros seen; cbn.
  - split; [done|]. intros x. rewrite elem_of_nil. tauto.
  - destruct (bool_decide_reflect (y ∈ seen)) as [Hin|Hout].
    + destruct (IH seen) as [Hnd Hel]. split; [done|].
      intros x. rewrite Hel, elem_of_cons. split; [tauto|].
      intros [?|[->|?]]; tauto.
    + destruct (IH (seen ++ [y])) as [Hnd Hel]. split.
      * intros Hs. apply Hnd. apply NoDup_app. split_and!; [done| |apply NoDup_singleton].
        by intros x Hx ->%list_elem_of_singleton.
      * intros x. rewrite Hel, elem_of_app, list_elem_of_singleton, elem_of_cons. tauto.
Qed.

Lemma NoDup_unique {A : Type} `{EqDecision A} (l : list A) : NoDup (ES.unique l).
Proof. apply (unique_from l []). apply NoDup_nil_2. Qed.

Lemma elem_of_unique {A : Type} `{EqDecision A} (l : list A) (x : A) :
  x ∈ ES.unique l ↔ x ∈ l.
Proof.
  unfold ES.unique. destruct (unique_from l []) as [_ Hel]. rewrite Hel, elem_of_nil. tauto.
Qed.

Lemma sort_strings_Permutation (l : list string) : ES.sort_strings l ≡ₚ l.
Proof. apply sort_Permutation. Qed.

Lemma foldl_app_bind {A B : Type} (f : A → list B) (l : list A) (init : list B) :
  foldl (λ acc x, acc ++ f x) init l = init ++ (l ≫= f).
Proof.
  revert init. induction l as [|x l IH]; intros init; cbn.
  - by rewrite app_nil_r.
  - by rewrite IH, app_assoc.
Qed.

(** ** Lessons and null elements *)

Lemma every_lesson_Some (lessons : list ClassSchedule) :
  every_lesson (Some <$> lessons) = Some lessons.
Proof. unfold every_lesson. by apply mapM_fmap_Some. Qed.

Lemma every_lesson_inv (schedules : list (option ClassSchedule))
    (lessons : list ClassSchedule) :
  every_lesson schedules = Some lessons → schedules = Some <$> lessons.
Proof.
  unfold every_lesson. intros H%mapM_Some_1.
  induction H as [|s x schedules lessons Hs _ IH]; [done|].
  cbn in Hs. subst s. by rewrite fmap_cons, IH.
Qed.

Lemma every_lesson_None (schedules : list (option ClassSchedule)) :
  every_lesson schedules = None ↔ None ∈ schedules.
Proof.
  unfold every_lesson. rewrite mapM_None, Exists_exists. split.
  - intros (s & Hin & Hs). cbn in Hs. by subst s.
  - intros Hin. by exists None.
Qed.

Lemma elem_of_lessons_on_day (dayOfWeek : Z) (schedules : list (option ClassSchedule))
    (s : ClassSchedule) :
  s ∈ omap id (filter (λ s, AdminPage.on_day dayOfWeek s) schedules)
  ↔ Some s ∈ schedules ∧ Thu s = dayOfWeek.
Proof.
  rewrite list_elem_of_omap. split.
  - intros (x & [Hx Hin]%list_elem_of_filter & Hs). cbn in Hs. subst x.
    split; [done|]. by apply Is_true_true, Z.eqb_eq in Hx.
  - intros [Hin Hs]. exists (Some s). split; [|done].
    apply list_elem_of_filter. split; [|done]. by apply Is_true_true, Z.eqb_eq.
Qed.

Lemma lessons_on_day (dayOfWeek : Z) (lessons : list ClassSchedule) :
  omap id (filter (λ s, AdminPage.on_day dayOfWeek s) (Some <$> lessons))
  = filter (λ s, Thu s = dayOfWeek) lessons.
Proof.
  induction lessons as [|s lessons IH]; [done|].
  rewrite fmap_cons, !filter_cons. cbn [AdminPage.on_day].
  destruct (Z.eqb_spec (Thu s) dayOfWeek) as [Hs|Hs];
    repeat case_decide; try done; try (exfalso; by auto).
  cbn. by rewrite IH.
Qed.

Lemma lessons_in_slot (dayOfWeek : Z) (slotStart slotEnd : string)
    (schedules : list (option ClassSchedule)) :
  omap id (filter (λ s, AdminPage.on_day_in_slot dayOfWeek slotStart slotEnd s) schedules)
  = filter (λ s, AdminPage.in_slot slotStart slotEnd (Gio_bat_dau s))
           (omap id (filter (λ s, AdminPage.on_day dayOfWeek s) schedules)).
Proof.
  induction schedules as [|[s|] schedules IH]; [done| |].
  - rewrite !filter_cons. cbn [AdminPage.on_day_in_slot AdminPage.on_day].
    destruct (Thu s =? dayOfWeek),
      (AdminPage.in_slot slotStart slotEnd (Gio_bat_dau s)) eqn:Hslot; cbn [andb];
      repeat case_decide; try done; try (exfalso; by auto);
      cbn; rewrite ?filter_cons, ?Hslot;
      repeat case_decide; try done; try (exfalso; by auto);
      by rewrite IH.
  - rewrite !filter_cons. cbn [AdminPage.on_day_in_slot AdminPage.on_day].
    repeat case_decide; try done; exfalso; by auto.
Qed.

(** ** The events of a date *)

Lemma getEventsForDate_bind (format : Dayjs.t → string) (classes : list Class.t)
    (timetableEntries : ES.Map TimetableEntry.t) (filterMode : AdminPage.FilterMode)
    (selectedItems : gset string) (date : Dayjs.t) :
  AdminPage.getEventsForDate format classes timetableEntries filterMode selectedItems date
  = AdminPage.filteredClasses classes filterMode selectedItems
    ≫= AdminPage.pushed format timetableEntries date.
Proof. unfold AdminPage.getEventsForDate. by rewrite foldl_app_bind. Qed.

Lemma pushed_class (format : Dayjs.t → string) (timetableEntries : ES.Map TimetableEntry.t)
    (date : Dayjs.t) (c : Class.t) (e : ScheduleEvent) :
  e ∈ AdminPage.pushed format timetableEntries date c → class e = Class.id c.
Proof.
  unfold AdminPage.pushed.
  destruct (ES.get _ _); [by intros ->%list_elem_of_singleton|].
  destruct (AdminPage.isDateReplacedByCustomSchedule _ _ _ _); [by intros ?%elem_of_nil|].
  destruct (Class.Lich_hoc c); [|by intros ?%elem_of_nil].
  by intros (s & -> & _)%list_elem_of_fmap.
Qed.

Lemma custom_shown (format : Dayjs.t → string)
    (classes : list Class.t) (timetableEntries : ES.Map TimetableEntry.t)
    (filterMode : AdminPage.FilterMode) (selectedItems : gset string) (date : Dayjs.t)
    (c : Class.t) (entry : TimetableEntry.t) :
  c ∈ AdminPage.filteredClasses classes filterMode selectedItems →
  ES.get timetableEntries (timetableKey (Class.id c) (format date) (dayOfWeek date))
  = Some entry →
  AdminPage.customEvent c entry (format date)
  ∈ AdminPage.getEventsForDate format classes timetableEntries filterMode selectedItems date.
Proof.
  intros Hc Hget. rewrite getEventsForDate_bind.
  apply list_elem_of_bind. exists c. split; [|done].
  unfold AdminPage.pushed. rewrite Hget. by apply list_elem_of_singleton.
Qed.

(** X5.  When the timetable holds a record for a class on a date, the
    admin calendar shows that record for the class on that date and
    nothing else of the class: its weekly lessons are left out. *)
Theorem getEventsForDate_custom_overrides (format : Dayjs.t → string)
    (classes : list Class.t) (timetableEntries : ES.Map TimetableEntry.t)
    (filterMode : AdminPage.FilterMode) (selectedItems : gset string) (date : Dayjs.t)
    (c : Class.t) (entry : TimetableEntry.t) :
  c ∈ AdminPage.filteredClasses classes filterMode selectedItems →
  ES.get timetableEntries (timetableKey (Class.id c) (format date) (dayOfWeek date))
  = Some entry →
  let events :=
    AdminPage.getEventsForDate format classes timetableEntries filterMode selectedItems date in
  let custom := AdminPage.customEvent c entry (format date) in
  custom ∈ events ∧ ∀ e, e ∈ events → class e = Class.id c → e = custom.
Proof.
  intros Hc Hget events custom. split; [by apply custom_shown|].
  unfold events. rewrite getEventsForDate_bind.
  intros e (c' & He & Hc')%list_elem_of_bind Hid.
  pose proof (pushed_class _ _ _ _ _ He) as Hid'.
  unfold AdminPage.pushed in He. rewrite <- Hid', Hid, Hget in He.
  apply list_elem_of_singleton in He as ->. unfold custom, AdminPage.customEvent.
  cbn in Hid. by rewrite Hid.
Qed.

(** X6.  A weekly lesson appears in the admin calendar on a date only
    as a lesson of a shown class for the weekday of that date, and only
    when the timetable has no record for the class on the date and no
    record that moved the date's lesson away. *)
Theorem getEventsForDate_weekly_lesson (format : Dayjs.t → string)
    (classes : list Class.t) (timetableEntries : ES.Map TimetableEntry.t)
    (filterMode : AdminPage.FilterMode) (selectedItems : gset string) (date : Dayjs.t)
    (e : ScheduleEvent) :
  e ∈ AdminPage.getEventsForDate format classes timetableEntries filterMode selectedItems date →
  isCustomSchedule e ≠ Some true →
  ∃ c schedules,
    c ∈ AdminPage.filteredClasses classes filterMode selectedItems
    ∧ Class.Lich_hoc c = Some schedules
    ∧ Some (schedule e) ∈ schedules
    ∧ e = AdminPage.weeklyEvent c (schedule e) (format date)
    ∧ Thu (schedule e) = dayOfWeek date
    ∧ ES.get timetableEntries (timetableKey (class e) (format date) (dayOfWeek date)) = None
    ∧ AdminPage.isDateReplacedByCustomSchedule timetableEntries (class e) (format date)
                                               (dayOfWeek date) = false.
Proof.
  rewrite getEventsForDate_bind. intros (c & He & Hc)%list_elem_of_bind Hweekly.
  pose proof (pushed_class _ _ _ _ _ He) as Hid. rewrite Hid.
  unfold AdminPage.pushed in He.
  destruct (ES.get _ _) as [entry|]; [by apply list_elem_of_singleton in He as ->|].
  destruct (AdminPage.isDateReplacedByCustomSchedule _ _ _ _); [by apply elem_of_nil in He|].
  destruct (Class.Lich_hoc c) as [schedules|] eqn:Hl; [|by apply elem_of_nil in He].
  apply list_elem_of_fmap in He as (s & -> & [Hin Hs]%elem_of_lessons_on_day).
  exists c, schedules. by split_and!.
Qed.

Lemma filter_bind {A B : Type} (P : B → Prop) `{∀ x, Decision (P x)} (f : A → list B)
    (l : list A) :
  filter P (l ≫= f) = l ≫= (λ x, filter P (f x)).
Proof.
  induction l as [|x l IH]; [done|]. rewrite !bind_cons. by rewrite filter_app, IH.
Qed.

Lemma filter_fmap {A B : Type} (P : B → Prop) `{∀ x, Decision (P x)} (f : A → B)
    (l : list A) :
  filter P (f <$> l) = f <$> filter (λ x, P (f x)) l.
Proof.
  induction l as [|x l IH]; [done|]. rewrite fmap_cons, !filter_cons.
  case_decide; [rewrite fmap_cons|]; by rewrite IH.
Qed.

(** X7.  getEventsForDateAndSlot returns the events getEventsForDate
    returns for the date whose start lies in the slot, from the slot's
    start up to but not including its end, sorted by start. *)
Theorem getEventsForDateAndSlot_events (format : Dayjs.t → string)
    (localeCompare : string → string → Z)
    (classes : list Class.t) (timetableEntries : ES.Map TimetableEntry.t)
    (filterMode : AdminPage.FilterMode) (selectedItems : gset string) (date : Dayjs.t)
    (slotStart slotEnd : string) :
  AdminPage.getEventsForDateAndSlot format localeCompare classes timetableEntries filterMode
                                    selectedItems date slotStart slotEnd
  = JS.sort (by_start localeCompare)
      (filter (λ e, AdminPage.in_slot slotStart slotEnd (Gio_bat_dau (schedule e)))
         (AdminPage.getEventsForDate format classes timetableEntries filterMode
                                     selectedItems date)).
Proof.
  unfold AdminPage.getEventsForDateAndSlot. f_equal.
  rewrite foldl_app_bind, getEventsForDate_bind, filter_bind. cbn [app].
  apply list_bind_ext; [|done]. intros c.
  unfold AdminPage.pushed_in_slot, AdminPage.pushed.
  destruct (ES.get _ _) as [entry|].
  - rewrite filter_cons, filter_nil. cbn.
    destruct (AdminPage.in_slot _ _ _); by case_decide.
  - destruct (AdminPage.isDateReplacedByCustomSchedule _ _ _ _); [done|].
    destruct (Class.Lich_hoc c) as [schedules|]; [|done].
    by rewrite lessons_in_slot, filter_fmap.
Qed.

(** ** The two calendars gather the same lessons *)

Lemma teacher_filter_as_admin (classes : list Class.t) (teacherId : string)
    (selectedSubjects selectedLocations : gset string) :
  TeacherPage.filteredClasses classes teacherId TeacherPage.view_all
                              selectedSubjects selectedLocations
  = AdminPage.filteredClasses classes AdminPage.by_teacher {[teacherId]}.
Proof.
  unfold TeacherPage.filteredClasses, TeacherPage.myClasses, AdminPage.filteredClasses,
    AdminPage.activeClasses.
  rewrite list_filter_filter. apply filter_agree. intros c _.
  unfold TeacherPage.mine, AdminPage.shown, AdminPage.is_active.
  rewrite size_singleton. cbn.
  rewrite andb_True, !Is_true_true, bool_decide_eq_true, elem_of_singleton, String.eqb_eq.
  tauto.
Qed.

Lemma teacher_pushed_Some (format : Dayjs.t → string)
    (timetableEntries : ES.Map TimetableEntry.t) (date : Dayjs.t) (c : Class.t)
    (events : list TeacherSchedule.ScheduleEvent) :
  TeacherPage.pushed format timetableEntries date c = Some events →
  admin_view format <$> events = AdminPage.pushed format timetableEntries date c.
Proof.
  unfold TeacherPage.pushed, AdminPage.pushed.
  destruct (ES.get _ _) as [entry|]; [by intros [= <-]|].
  change (TeacherPage.isDateReplacedByCustomSchedule timetableEntries)
    with (AdminPage.isDateReplacedByCustomSchedule timetableEntries).
  destruct (AdminPage.isDateReplacedByCustomSchedule _ _ _ _); [by intros [= <-]|].
  destruct (Class.Lich_hoc c) as [schedules|]; [|by intros [= <-]].
  destruct (every_lesson schedules) as [lessons|] eqn:Hl; [|done].
  intros [= <-]. apply every_lesson_inv in Hl as ->.
  by rewrite lessons_on_day, <- list_fmap_compose.
Qed.

Lemma teacher_pushed_None (format : Dayjs.t → string)
    (timetableEntries : ES.Map TimetableEntry.t) (date : Dayjs.t) (c : Class.t) :
  TeacherPage.pushed format timetableEntries date c = None
  ↔ reads_null format timetableEntries date c.
Proof.
  unfold TeacherPage.pushed, reads_null.
  change (TeacherPage.isDateReplacedByCustomSchedule timetableEntries)
    with (AdminPage.isDateReplacedByCustomSchedule timetableEntries).
  destruct (ES.get _ _) as [entry|]; [split; [done|by intros [? _]]|].
  destruct (AdminPage.isDateReplacedByCustomSchedule _ _ _ _);
    [split; [done|by intros (_ & ? & _)]|].
  destruct (Class.Lich_hoc c) as [schedules|];
    [|split; [done|by intros (_ & _ & ? & ? & _)]].
  destruct (every_lesson schedules) as [lessons|] eqn:Hl.
  - split; [done|]. intros (_ & _ & schedules' & [= <-] & Hnull).
    apply every_lesson_None in Hnull. congruence.
  - split; [|done]. intros _. split_and!; [done..|].
    exists schedules. split; [done|]. by apply every_lesson_None.
Qed.

Lemma fold_pushed {A B : Type} (f : A → option (list B)) (l : list A)
    (events : option (list B)) :
  foldl (λ events x, match events, f x with
                     | Some events, Some more => Some (events ++ more)
                     | _, _ => None
                     end) events l
  = match events, mapM f l with
    | Some events, Some pushes => Some (events ++ concat pushes)
    | _, _ => None
    end.
Proof.
  revert events. induction l as [|x l IH]; intros [events|]; cbn.
  - by rewrite app_nil_r.
  - done.
  - rewrite IH. destruct (f x) as [more|]; cbn; [|done].
    destruct (mapM f l) as [pushes|]; cbn; [|done]. by rewrite app_assoc.
  - rewrite IH. done.
Qed.

Lemma gathered_mapM (format : Dayjs.t → string) (classes : list Class.t) (teacherId : string)
    (timetableEntries : ES.Map TimetableEntry.t) (viewMode : TeacherPage.ViewMode)
    (selectedSubjects selectedLocations : gset string) (weekDays : list Dayjs.t) :
  TeacherPage.gathered format classes teacherId timetableEntries viewMode
                       selectedSubjects selectedLocations weekDays
  = @concat _
    <$> mapM (λ date,
                @concat _
                <$> mapM (TeacherPage.pushed format timetableEntries date)
                         (TeacherPage.filteredClasses classes teacherId viewMode
                                                      selectedSubjects selectedLocations))
             weekDays.
Proof.
  unfold TeacherPage.gathered.
  set (shown := TeacherPage.filteredClasses _ _ _ _ _).
  set (f := λ date,
         @concat _ <$> mapM (TeacherPage.pushed format timetableEntries date) shown).
  assert (∀ events : option (list TeacherSchedule.ScheduleEvent),
            foldl (λ events date,
                     foldl (λ events classData,
                              match events, TeacherPage.pushed format timetableEntries date
                                                               classData with
                              | Some events, Some more => Some (events ++ more)
                              | _, _ => None
                              end)
                           events shown)
                  events weekDays
            = match events, mapM f weekDays with
              | Some events, Some pushes => Some (events ++ concat pushes)
              | _, _ => None
              end) as Hfold.
  { assert (∀ date, f date
                     = @concat _ <$> mapM (TeacherPage.pushed format timetableEntries date)
                                          shown) as Hf by done.
    clearbody f.
    induction weekDays as [|date weekDays IH]; intros events.
    - destruct events; cbn; [by rewrite app_nil_r|done].
    - cbn [foldl]. rewrite IH, fold_pushed. cbn. rewrite Hf.
      destruct events as [events|]; [|done].
      destruct (mapM (TeacherPage.pushed format timetableEntries date) shown) as [pushes|];
        cbn; [|done].
      destruct (mapM f weekDays) as [more|]; cbn; [|done]. by rewrite app_assoc. }
  rewrite Hfold. by destruct (mapM f weekDays).
Qed.

Lemma day_pushed_as_admin (format : Dayjs.t → string)
    (timetableEntries : ES.Map TimetableEntry.t) (date : Dayjs.t) (l : list Class.t)
    (pushes : list (list TeacherSchedule.ScheduleEvent)) :
  mapM (TeacherPage.pushed format timetableEntries date) l = Some pushes →
  admin_view format <$> concat pushes = l ≫= AdminPage.pushed format timetableEntries date.
Proof.
  intros H%mapM_Some_1. induction H as [|c events l pushes Hc _ IH]; [done|].
  cbn. by rewrite fmap_app, IH, (teacher_pushed_Some _ _ _ _ _ Hc).
Qed.

(** X8.  With the view set to all classes, the gathering of a teacher's
    calendar over the days of its week either raises or returns.  Every
    element of a list of weekly lessons being null or a lesson with its
    weekday and its two times as texts, as the types declare them, it
    raises exactly when it reads the weekly lessons of a class with a
    null lesson among them, which the admin calendar skips and shows
    the other lessons; when it returns, it has gathered, day after day,
    the events the admin calendar shows on each of these days when
    filtered by that teacher alone: the same classes, times, timetable
    records and marks. *)
Theorem teacher_gathers_admin_events (format : Dayjs.t → string) (classes : list Class.t)
    (teacherId : string) (timetableEntries : ES.Map TimetableEntry.t)
    (selectedSubjects selectedLocations : gset string) (weekDays : list Dayjs.t) :
  let gathered :=
    TeacherPage.gathered format classes teacherId timetableEntries TeacherPage.view_all
                         selectedSubjects selectedLocations weekDays in
  (gathered = None
   ↔ ∃ date c, date ∈ weekDays
               ∧ c ∈ AdminPage.filteredClasses classes AdminPage.by_teacher {[teacherId]}
               ∧ reads_null format timetableEntries date c)
  ∧ ∀ events, gathered = Some events →
      admin_view format <$> events
      = weekDays ≫= AdminPage.getEventsForDate format classes timetableEntries
                                                AdminPage.by_teacher {[teacherId]}.
Proof.
  intros gathered. unfold gathered. rewrite gathered_mapM, teacher_filter_as_admin.
  set (shown := AdminPage.filteredClasses classes AdminPage.by_teacher {[teacherId]}).
  split.
  - rewrite fmap_None, mapM_None, Exists_exists. split.
    + intros (date & Hdate & Hnone). apply fmap_None, mapM_None, Exists_exists in Hnone.
      destruct Hnone as (c & Hc & Hnull%teacher_pushed_None). by exists date, c.
    + intros (date & c & Hdate & Hc & Hnull). exists date. split; [done|].
      apply fmap_None, mapM_None, Exists_exists. exists c. split; [done|].
      by apply teacher_pushed_None.
  - intros events (days & Hdays & ->)%fmap_Some.
    apply mapM_Some_1 in Hdays.
    induction Hdays as [|date day weekDays days Hday _ IH]; [done|].
    cbn. rewrite fmap_app, IH. f_equal.
    apply fmap_Some in Hday as (pushes & Hpushes & ->).
    rewrite getEventsForDate_bind. by apply day_pushed_as_admin.
Qed.

Example calendar_date_of_days :
  calendar_date 20094 = "2025-01-06" ∧ calendar_date 0 = "1970-01-01"
  ∧ calendar_date 19782 = "2024-02-29" ∧ calendar_date 20088 = "2024-12-31".
Proof. split_and!; vm_compute; reflexivity. Qed.

Lemma getEventsForDate_custom_overrides_witness :
  let events :=
    AdminPage.getEventsForDate calendar_date [class_L1; class_L2] timetable_L1
                               AdminPage.by_teacher ∅ 20094 in
  let custom :=
    AdminPage.customEvent class_L1 (TimetableEntry.mk "t1" makeup_L1) (calendar_date 20094) in
  custom ∈ events ∧ ∀ e, e ∈ events → class e = Class.id class_L1 → e = custom.
Proof.
  apply (getEventsForDate_custom_overrides calendar_date [class_L1; class_L2] timetable_L1
           AdminPage.by_teacher ∅ 20094 class_L1 (TimetableEntry.mk "t1" makeup_L1)).
  - apply (list_elem_of_lookup_2 _ 0%nat). vm_compute; reflexivity.
  - vm_compute; reflexivity.
Defined.

Lemma getEventsForDate_weekly_lesson_witness :
  ∃ c schedules,
    c ∈ AdminPage.filteredClasses [class_L1; class_L2] AdminPage.by_teacher ∅
    ∧ Class.Lich_hoc c = Some schedules
    ∧ Some (mkClassSchedule 4 "14:00" "15:30") ∈ schedules
    ∧ AdminPage.weeklyEvent class_L1 (mkClassSchedule 4 "14:00" "15:30") (calendar_date 20096)
      = AdminPage.weeklyEvent c (mkClassSchedule 4 "14:00" "15:30") (calendar_date 20096)
    ∧ 4 = dayOfWeek 20096
    ∧ ES.get timetable_L1 (timetableKey "L1" (calendar_date 20096) (dayOfWeek 20096)) = None
    ∧ AdminPage.isDateReplacedByCustomSchedule timetable_L1 "L1" (calendar_date 20096)
                                               (dayOfWeek 20096) = false.
Proof.
  apply (getEventsForDate_weekly_lesson calendar_date [class_L1; class_L2] timetable_L1
           AdminPage.by_teacher ∅ 20096
           (AdminPage.weeklyEvent class_L1 (mkClassSchedule 4 "14:00" "15:30")
                                  (calendar_date 20096))).
  - apply (list_elem_of_lookup_2 _ 0%nat). vm_compute; reflexivity.
  - discriminate.
Defined.

(** ** Times of day on both calendars *)

(** X9.  timeToMinutes reads an HH:mm text back: on the text of hour
    [h] and minute [m] of a day it gives [h * 60 + m]. *)
Theorem timeToMinutes_reads_HHmm (h m : Z) :
  time_of_day h m → TeacherSchedule.timeToMinutes (HHmm h m) = JS.Num (h * 60 + m).
Proof. intros [Hh Hm]. apply timeToMinutes_HHmm; lia. Qed.

Lemma timeToMinutes_reads_HHmm_witness :
  TeacherSchedule.timeToMinutes (HHmm 9 30) = JS.Num (9 * 60 + 30).
Proof. apply (timeToMinutes_reads_HHmm 9 30). unfold time_of_day. lia. Defined.

Lemma falsy_HHmm (h m : Z) : 0 ≤ h < 100 → 0 ≤ m < 100 → JS.falsy (HHmm h m) = false.
Proof. intros Hh Hm. by rewrite HHmm_digits. Qed.

Lemma getEventStyle_two_digits (k h m h' m' : Z) (e : ScheduleEvent) :
  0 ≤ h < 100 → 0 ≤ m < 100 → 0 ≤ h' < 100 → 0 ≤ m' < 100 →
  schedule e = timed k h m h' m' →
  top (getEventStyle e) = JS.Num ((h - 6) * 60 + m)
  ∧ height (getEventStyle e) = JS.Num (Z.max ((h' * 60 + m') - (h * 60 + m)) 30).
Proof.
  intros Hh Hm Hh' Hm' He.
  unfold getEventStyle. rewrite He. unfold timed. cbn [Gio_bat_dau Gio_ket_thuc].
  rewrite !falsy_HHmm, !split_HHmm by lia. cbn [orb fmap list_fmap].
  rewrite !Number_padStart by lia. cbn. split; [done|]. do 2 f_equal. lia.
Qed.

Lemma getEventStyle_timed (e : ScheduleEvent) (k h m h' m' : Z) :
  time_of_day h m → time_of_day h' m' → schedule e = timed k h m h' m' →
  getEventStyle e
  = mkStyle (JS.Num ((h - 6) * 60 + m)) (JS.Num (Z.max ((h' * 60 + m') - (h * 60 + m)) 30)).
Proof.
  intros [Hh Hm] [Hh' Hm'] He.
  destruct (getEventStyle_two_digits k h m h' m' e) as [Htop Hheight]; [lia..|done|].
  destruct (getEventStyle e). cbn in Htop, Hheight. by subst.
Qed.

(** X10.  For an event whose two times are HH:mm texts of times of day,
    getEventStyle puts the top of the box at the minutes from 6:00 to
    the start and makes it as high as the lesson is long, but 30 at
    least; the box the day column draws is 50 high at least. *)
Theorem getEventStyle_of_times (e : ScheduleEvent) (k h m h' m' : Z) :
  time_of_day h m → time_of_day h' m' → schedule e = timed k h m h' m' →
  getEventStyle e
  = mkStyle (JS.Num ((h - 6) * 60 + m)) (JS.Num (Z.max ((h' * 60 + m') - (h * 60 + m)) 30))
  ∧ AdminPage.box e
    = mkStyle (JS.Num ((h - 6) * 60 + m)) (JS.Num (Z.max ((h' * 60 + m') - (h * 60 + m)) 50)).
Proof.
  intros Ht Ht' He. pose proof (getEventStyle_timed e k h m h' m' Ht Ht' He) as Hs.
  split; [done|]. unfold AdminPage.box. rewrite Hs. cbn. do 2 f_equal. lia.
Qed.

Lemma getEventStyle_of_times_witness :
  getEventStyle (admin_event "09:00" "09:20")
  = mkStyle (JS.Num ((9 - 6) * 60 + 0)) (JS.Num (Z.max ((9 * 60 + 20) - (9 * 60 + 0)) 30))
  ∧ AdminPage.box (admin_event "09:00" "09:20")
    = mkStyle (JS.Num ((9 - 6) * 60 + 0)) (JS.Num (Z.max ((9 * 60 + 20) - (9 * 60 + 0)) 50)).
Proof.
  apply (getEventStyle_of_times (admin_event "09:00" "09:20") 2 9 0 9 20);
    [unfold time_of_day; lia|unfold time_of_day; lia|vm_compute; reflexivity].
Defined.

(** X29.  getEventStyle returns for every event a box.  When the
    start or the end of the lesson is the empty text, the box is at the
    top of the column and 60 high.  When both are texts of two
    two-digit numbers with a colon between them, also past the hours
    and minutes of a day, the top of the box is at the minutes from
    6:00 to the start, and the box is as high as the minutes from the
    start to the end when these are 30 at least, and 30 high
    otherwise, a lesson that ends before it starts included. *)
Theorem getEventStyle_floor (e : ScheduleEvent) :
  (Gio_bat_dau (schedule e) = "" ∨ Gio_ket_thuc (schedule e) = "" →
   getEventStyle e = mkStyle (JS.Num 0) (JS.Num 60))
  ∧ ∀ k h m h' m',
      0 ≤ h < 100 → 0 ≤ m < 100 → 0 ≤ h' < 100 → 0 ≤ m' < 100 →
      schedule e = timed k h m h' m' →
      let duration := (h' * 60 + m') - (h * 60 + m) in
      getEventStyle e
      = mkStyle (JS.Num ((h - 6) * 60 + m))
                (JS.Num (if 30 <=? duration then duration else 30)).
Proof.
  split.
  - intros Hempty. unfold getEventStyle.
    destruct Hempty as [-> | ->]; [done|]. by rewrite orb_true_r.
  - intros k h m h' m' Hh Hm Hh' Hm' He duration.
    destruct (getEventStyle_two_digits k h m h' m' e) as [Htop Hheight]; [done..|].
    destruct (getEventStyle e) as [t hgt]. cbn in Htop, Hheight. subst t hgt.
    do 2 f_equal. unfold duration. destruct (Z.leb_spec 30 (h' * 60 + m' - (h * 60 + m))); lia.
Qed.

Example box_of_a_lesson_past_midnight :
  getEventStyle (admin_event "23:30" "24:15") = mkStyle (JS.Num 1050) (JS.Num 45)
  ∧ getEventStyle (admin_event "10:00" "09:00") = mkStyle (JS.Num 240) (JS.Num 30)
  ∧ getEventStyle (admin_event "09:00" "") = mkStyle (JS.Num 0) (JS.Num 60).
Proof. split_and!; vm_compute; reflexivity. Qed.

(** X11.  On lessons whose times are HH:mm texts of times of day and
    that start before they end, the overlap test of the admin calendar,
    on the texts, and the overlap test of the teacher calendar, on the
    minutes, give the same answer. *)
Theorem overlap_tests_agree (a b : ScheduleEvent) (d d' : Dayjs.t)
    (k h1 m1 h2 m2 k' h3 m3 h4 m4 : Z) :
  time_of_day h1 m1 → time_of_day h2 m2 → time_of_day h3 m3 → time_of_day h4 m4 →
  h1 * 60 + m1 < h2 * 60 + m2 → h3 * 60 + m3 < h4 * 60 + m4 →
  schedule a = timed k h1 m1 h2 m2 → schedule b = timed k' h3 m3 h4 m4 →
  overlaps a b
  = TeacherSchedule.overlap_test (TeacherSchedule.scheduleEvent (class a) (schedule a) d)
                                 (TeacherSchedule.scheduleEvent (class b) (schedule b) d').
Proof.
  intros H1 H2 H3 H4 Ha Hb Ea Eb.
  assert (∀ c s t k h m h' m', time_of_day h m → time_of_day h' m' →
            h * 60 + m < h' * 60 + m' → s = timed k h m h' m' →
            let x := TeacherSchedule.scheduleEvent c s t in
            TeacherSchedule.startMinutes x = JS.Num (h * 60 + m)
            ∧ endMinutes x = JS.Num (h' * 60 + m')) as Hx.
  { intros c s t k0 h m h' m' [? ?] [? ?] Hlt ->. unfold endMinutes. cbn.
    rewrite !timeToMinutes_HHmm by lia. cbn. split; [done|]. f_equal. lia. }
  destruct (Hx (class a) (schedule a) d k h1 m1 h2 m2 H1 H2 Ha Ea) as [Hsa Hea].
  destruct (Hx (class b) (schedule b) d' k' h3 m3 h4 m4 H3 H4 Hb Eb) as [Hsb Heb].
  rewrite overlap_test_minutes_overlap.
  - unfold minutes_overlap. rewrite Hsa, Hea, Hsb, Heb. cbn.
    unfold overlaps, JS.str_gt. rewrite Ea, Eb. unfold timed. cbn.
    by rewrite !str_lt_HHmm.
  - unfold positive. rewrite Hsa, Hea. cbn. by apply Z.ltb_lt.
  - unfold positive. rewrite Hsb, Heb. cbn. by apply Z.ltb_lt.
Qed.

Lemma overlap_tests_agree_witness :
  overlaps (admin_event "09:00" "10:00") (admin_event "09:30" "10:30")
  = TeacherSchedule.overlap_test
      (TeacherSchedule.scheduleEvent "L1" (mkClassSchedule 2 "09:00" "10:00") 20094)
      (TeacherSchedule.scheduleEvent "L1" (mkClassSchedule 2 "09:30" "10:30") 20094).
Proof.
  apply (overlap_tests_agree (admin_event "09:00" "10:00") (admin_event "09:30" "10:30")
           20094 20094 2 9 0 10 0 2 9 30 10 30);
    [unfold time_of_day; lia..|lia|lia|vm_compute; reflexivity|vm_compute; reflexivity].
Defined.

(** ** The days of a week *)

(** X12.  When the week shown starts on a Monday, its seven days carry
    the weekday keys 2 to 8 in this order, and going to the next or to
    the previous week keeps the start on a Monday. *)
Theorem weekDays_keys (currentWeekStart : Dayjs.t) :
  Dayjs.day currentWeekStart = 1 →
  dayOfWeek <$> AdminPage.weekDays currentWeekStart = [2; 3; 4; 5; 6; 7; 8]
  ∧ Dayjs.day (AdminPage.goToNextWeek currentWeekStart) = 1
  ∧ Dayjs.day (AdminPage.goToPreviousWeek currentWeekStart) = 1.
Proof.
  unfold Dayjs.day, AdminPage.goToNextWeek, AdminPage.goToPreviousWeek. intros Hd.
  assert (∀ i, 0 ≤ i < 7 → dayOfWeek (currentWeekStart + i) = i + 2) as Hk.
  { intros i Hi. unfold dayOfWeek, Dayjs.day.
    assert ((currentWeekStart + i + 4) mod 7 = (1 + i) mod 7) as ->.
    { replace (currentWeekStart + i + 4) with ((currentWeekStart + 4) + i) by lia.
      by rewrite <- Z.add_mod_idemp_l, Hd by lia. }
    destruct (Z.eqb_spec ((1 + i) mod 7) 0) as [H0|H0].
    - assert (i = 6) as -> by (revert H0; Z.div_mod_to_equations; lia). done.
    - rewrite Z.mod_small by (revert H0; Z.div_mod_to_equations; lia). lia. }
  split_and!.
  - unfold AdminPage.weekDays. change (seqZ 0 7) with [0; 1; 2; 3; 4; 5; 6].
    cbn [fmap list_fmap]. by rewrite !Hk by lia.
  - replace (currentWeekStart + 7 + 4) with (currentWeekStart + 4 + 1 * 7) by lia.
    by rewrite Z.mod_add.
  - replace (currentWeekStart - 7 + 4) with (currentWeekStart + 4 + (-1) * 7) by lia.
    by rewrite Z.mod_add.
Qed.

Lemma weekDays_keys_witness :
  dayOfWeek <$> AdminPage.weekDays 20094 = [2; 3; 4; 5; 6; 7; 8]
  ∧ Dayjs.day (AdminPage.goToNextWeek 20094) = 1
  ∧ Dayjs.day (AdminPage.goToPreviousWeek 20094) = 1.
Proof. apply (weekDays_keys 20094). vm_compute; reflexivity. Defined.

(** ** Rooms and attendance *)



(** X14.  getAttendanceCount never counts more present than its total;
    when no session is recorded for the class on the date, nobody is
    counted present. *)
Theorem getAttendanceCount_bounds (classes : list Class.t) (attendanceSessions : list Session.t)
    (classId date : string) :
  let count := AdminPage.getAttendanceCount classes attendanceSessions classId date in
  (AdminPage.Count.present count ≤ AdminPage.Count.total count)%nat
  ∧ ((∀ s, s ∈ attendanceSessions →
           ¬ (Session.Class_ID s = classId ∧ Session.Ngay s = date)) →
     AdminPage.Count.present count = 0%nat).
Proof.
  unfold AdminPage.getAttendanceCount.
  destruct (List.find _ attendanceSessions) as [session|] eqn:Hf; cbn.
  - destruct (Session.Diem_danh session) as [records|]; cbn.
    + split; [apply length_filter|]. intros Hno. exfalso.
      apply find_some in Hf as [Hin Hs]. apply list_elem_of_In in Hin.
      apply andb_prop in Hs as [H1%String.eqb_eq H2%String.eqb_eq]. by apply (Hno session).
    + split; [lia|done].
  - split; [lia|done].
Qed.

(** ** The filter panel *)

(** X15.  Toggling an item twice restores the selection, and toggling
    an item changes the selection at that item only. *)
Theorem handleItemToggle_twice (selectedItems : gset string) (id : string) :
  AdminPage.handleItemToggle (AdminPage.handleItemToggle selectedItems id) id = selectedItems
  ∧ (id ∈ AdminPage.handleItemToggle selectedItems id ↔ id ∉ selectedItems)
  ∧ ∀ x, x ≠ id → x ∈ AdminPage.handleItemToggle selectedItems id ↔ x ∈ selectedItems.
Proof.
  unfold AdminPage.handleItemToggle.
  destruct (bool_decide_reflect (id ∈ selectedItems)) as [Hin|Hout].
  - rewrite bool_decide_eq_false_2
      by (rewrite elem_of_difference, elem_of_singleton; tauto).
    split_and!.
    + apply set_eq. intros x.
      rewrite elem_of_union, elem_of_difference, elem_of_singleton.
      destruct (decide (x = id)) as [->|]; tauto.
    + rewrite elem_of_difference, elem_of_singleton. tauto.
    + intros x Hx. rewrite elem_of_difference, elem_of_singleton. tauto.
  - rewrite bool_decide_eq_true_2 by (rewrite elem_of_union, elem_of_singleton; tauto).
    split_and!.
    + apply set_eq. intros x.
      rewrite elem_of_difference, elem_of_union, elem_of_singleton.
      destruct (decide (x = id)) as [->|]; tauto.
    + rewrite elem_of_union, elem_of_singleton. tauto.
    + intros x Hx. rewrite elem_of_union, elem_of_singleton. tauto.
Qed.

Lemma elem_of_sort_strings (l : list string) (x : string) : x ∈ ES.sort_strings l ↔ x ∈ l.
Proof. by rewrite sort_strings_Permutation. Qed.

Lemma filter_item_ids (trim : string → string) (subjectMap : string → option string)
    (classes : list Class.t) (rooms : ES.Map Room.t) (filterMode : AdminPage.FilterMode) :
  AdminPage.FilterItem.id <$> AdminPage.getFilterItems trim subjectMap classes rooms filterMode
  = match filterMode with
    | AdminPage.by_class =>
        ES.sort_strings (ES.unique (Class.Khoi <$> AdminPage.activeClasses classes))
    | AdminPage.by_subject =>
        ES.sort_strings
          (ES.unique (filter (λ s, AdminPage.filled trim s)
                             (Class.Mon_hoc <$> AdminPage.activeClasses classes)))
    | AdminPage.by_teacher =>
        fst <$> ES.unique ((λ c, (Class.Teacher_ID c, Class.Giao_vien_chu_nhiem c))
                           <$> AdminPage.activeClasses classes)
    | AdminPage.by_location =>
        ES.sort_strings
          (ES.unique (filter (λ s, AdminPage.filled trim s)
                             (Class.Phong_hoc <$> AdminPage.activeClasses classes)))
    end.
Proof.
  unfold AdminPage.getFilterItems.
  destruct filterMode; rewrite <- list_fmap_compose; try apply list_fmap_id; done.
Qed.

(** The ids of the filter list are those of the classes listed. *)
Lemma elem_of_filter_item_ids (trim : string → string) (subjectMap : string → option string)
    (classes : list Class.t) (rooms : ES.Map Room.t) (filterMode : AdminPage.FilterMode)
    (x : string) :
  x ∈ AdminPage.FilterItem.id
      <$> AdminPage.getFilterItems trim subjectMap classes rooms filterMode
  ↔ ∃ c, c ∈ AdminPage.activeClasses classes ∧ listed trim filterMode c = true
         ∧ x = match filterMode with
               | AdminPage.by_class => Class.Khoi c
               | AdminPage.by_subject => Class.Mon_hoc c
               | AdminPage.by_teacher => Class.Teacher_ID c
               | AdminPage.by_location => Class.Phong_hoc c
               end.
Proof.
  rewrite filter_item_ids. destruct filterMode; cbn [listed].
  - rewrite elem_of_sort_strings, elem_of_unique, list_elem_of_fmap.
    split; intros (c & ? & ?); exists c; tauto.
  - rewrite elem_of_sort_strings, elem_of_unique, list_elem_of_filter, list_elem_of_fmap.
    rewrite Is_true_true. split.
    + intros (Hf & c & -> & Hc). by exists c.
    + intros (c & Hc & Hf & ->). split; [done|]. by exists c.
  - rewrite list_elem_of_fmap. split.
    + intros ([i n] & -> & Hp). apply elem_of_unique, list_elem_of_fmap in Hp as (c & [= -> ->] & Hc).
      by exists c.
    + intros (c & Hc & _ & ->).
      exists (Class.Teacher_ID c, Class.Giao_vien_chu_nhiem c). split; [done|].
      apply elem_of_unique, list_elem_of_fmap. by exists c.
  - rewrite elem_of_sort_strings, elem_of_unique, list_elem_of_filter, list_elem_of_fmap.
    rewrite Is_true_true. split.
    + intros (Hf & c & -> & Hc). by exists c.
    + intros (c & Hc & Hf & ->). split; [done|]. by exists c.
Qed.

Lemma size_elem_of (X : gset string) (x : string) : x ∈ X → (size X =? 0)%nat = false.
Proof.
  intros Hx. apply Nat.eqb_neq. intros H0. apply size_empty_inv in H0.
  by apply (H0 x) in Hx.
Qed.

(** X16.  "Select all", pressed while the selection has not as many
    items as the filter list, selects every item of the list; the
    calendar then shows every active class by grade and by teacher, but
    by subject or by location only the active classes whose subject or
    room is not blank. *)
Theorem handleSelectAll_shows (trim : string → string) (subjectMap : string → option string)
    (classes : list Class.t) (rooms : ES.Map Room.t) (filterMode : AdminPage.FilterMode)
    (selectedItems : gset string) :
  let filterItems := AdminPage.getFilterItems trim subjectMap classes rooms filterMode in
  size selectedItems ≠ length filterItems → filterItems ≠ [] →
  let selected :=
    AdminPage.handleSelectAll trim subjectMap classes rooms filterMode selectedItems in
  (∀ x, x ∈ selected ↔ x ∈ AdminPage.FilterItem.id <$> filterItems)
  ∧ AdminPage.filteredClasses classes filterMode selected
    = filter (λ c, listed trim filterMode c) (AdminPage.activeClasses classes).
Proof.
  intros filterItems Hsize Hne selected.
  assert (selected = list_to_set (AdminPage.FilterItem.id <$> filterItems)) as Hsel.
  { unfold selected, AdminPage.handleSelectAll. fold filterItems.
    by apply Nat.eqb_neq in Hsize as ->. }
  assert (∀ x, x ∈ selected ↔ x ∈ AdminPage.FilterItem.id <$> filterItems) as Hel.
  { intros x. by rewrite Hsel, elem_of_list_to_set. }
  split; [done|].
  assert ((size selected =? 0)%nat = false) as H0.
  { destruct filterItems as [|item rest] eqn:Hitems; [done|].
    apply (size_elem_of _ (AdminPage.FilterItem.id item)). apply Hel.
    rewrite fmap_cons. apply elem_of_cons. by left. }
  unfold AdminPage.filteredClasses. apply filter_agree. intros c Hc.
  unfold AdminPage.shown. rewrite H0. rewrite !Is_true_true.
  pose proof (elem_of_filter_item_ids trim subjectMap classes rooms filterMode) as Hids.
  fold filterItems in Hids.
  destruct filterMode; cbn [listed] in *.
  - rewrite bool_decide_eq_true, Hel, Hids. split; [done|]. intros _. by exists c.
  - rewrite bool_decide_eq_true, Hel, Hids. split.
    + by intros (c' & _ & Hf & ->).
    + intros Hf. by exists c.
  - rewrite bool_decide_eq_true, Hel, Hids. split; [done|]. intros _. by exists c.
  - rewrite andb_true_iff, bool_decide_eq_true, Hel, Hids. split.
    + by intros (_ & c' & _ & Hf & ->).
    + intros Hf. split; [|by exists c].
      unfold AdminPage.filled in Hf. by apply andb_prop in Hf as [? _].
Qed.

Lemma NoDup_filter_item_ids (trim : string → string) (subjectMap : string → option string)
    (classes : list Class.t) (rooms : ES.Map Room.t) (filterMode : AdminPage.FilterMode) :
  filterMode ≠ AdminPage.by_teacher →
  NoDup (AdminPage.FilterItem.id
         <$> AdminPage.getFilterItems trim subjectMap classes rooms filterMode).
Proof.
  intros Hmode. rewrite filter_item_ids.
  destruct filterMode; [| |done|]; rewrite sort_strings_Permutation; apply NoDup_unique.
Qed.

(** X17.  By grade, by subject and by location the items of the filter
    list are pairwise different, and "select all" pressed a second time
    clears the selection it made. *)
Theorem handleSelectAll_twice (trim : string → string) (subjectMap : string → option string)
    (classes : list Class.t) (rooms : ES.Map Room.t) (filterMode : AdminPage.FilterMode)
    (selectedItems : gset string) :
  let filterItems := AdminPage.getFilterItems trim subjectMap classes rooms filterMode in
  filterMode ≠ AdminPage.by_teacher → size selectedItems ≠ length filterItems →
  NoDup (AdminPage.FilterItem.id <$> filterItems)
  ∧ AdminPage.handleSelectAll trim subjectMap classes rooms filterMode
      (AdminPage.handleSelectAll trim subjectMap classes rooms filterMode selectedItems)
    = ∅.
Proof.
  intros filterItems Hmode Hsize.
  pose proof (NoDup_filter_item_ids trim subjectMap classes rooms filterMode Hmode) as Hnd.
  fold filterItems in Hnd. split; [done|].
  unfold AdminPage.handleSelectAll at 2. fold filterItems.
  apply Nat.eqb_neq in Hsize as ->.
  unfold AdminPage.handleSelectAll. fold filterItems.
  rewrite size_list_to_set by done. by rewrite length_fmap, Nat.eqb_refl.
Qed.

Lemma handleSelectAll_shows_witness :
  let filterItems :=
    AdminPage.getFilterItems ascii_trim subject_names [class_L1; class_L2] []
                             AdminPage.by_location in
  let selected :=
    AdminPage.handleSelectAll ascii_trim subject_names [class_L1; class_L2] []
                              AdminPage.by_location ∅ in
  (∀ x, x ∈ selected ↔ x ∈ AdminPage.FilterItem.id <$> filterItems)
  ∧ AdminPage.filteredClasses [class_L1; class_L2] AdminPage.by_location selected
    = filter (λ c, listed ascii_trim AdminPage.by_location c)
             (AdminPage.activeClasses [class_L1; class_L2]).
Proof.
  apply (handleSelectAll_shows ascii_trim subject_names [class_L1; class_L2] []
           AdminPage.by_location ∅).
  - vm_compute. lia.
  - vm_compute. discriminate.
Defined.

Lemma handleSelectAll_twice_witness :
  let filterItems :=
    AdminPage.getFilterItems ascii_trim subject_names [class_L1; class_L2] []
                             AdminPage.by_subject in
  NoDup (AdminPage.FilterItem.id <$> filterItems)
  ∧ AdminPage.handleSelectAll ascii_trim subject_names [class_L1; class_L2] []
      AdminPage.by_subject
      (AdminPage.handleSelectAll ascii_trim subject_names [class_L1; class_L2] []
                                 AdminPage.by_subject {["Math"]})
    = ∅.
Proof.
  apply (handleSelectAll_twice ascii_trim subject_names [class_L1; class_L2] []
           AdminPage.by_subject {["Math"]}).
  - discriminate.
  - vm_compute. lia.
Defined.

(** ** The timetable as loaded *)

Lemma loadTimetable_snoc (data : list (string * Timetable.t)) (id : string)
    (value : Timetable.t) :
  loadTimetable (data ++ [(id, value)])
  = ES.set (loadTimetable data) (key_of value) (TimetableEntry.mk id value).
Proof. unfold loadTimetable. by rewrite foldl_app. Qed.

Lemma loadTimetable_get_last (data : list (string * Timetable.t)) (key : string) :
  ES.get (loadTimetable data) key
  = (λ iv, TimetableEntry.mk (fst iv) (snd iv))
    <$> last (filter (λ iv, key_of (snd iv) = key) data).
Proof.
  induction data as [|[id value] data IH] using rev_ind; [done|].
  rewrite loadTimetable_snoc, filter_app, filter_cons, filter_nil. cbn [snd].
  case_decide as Hk.
  - subst key. rewrite get_set_eq, last_snoc. done.
  - rewrite get_set_ne by done. by rewrite app_nil_r.
Qed.

Lemma loadTimetable_values (data : list (string * Timetable.t)) (entry : TimetableEntry.t) :
  entry ∈ ES.values (loadTimetable data) →
  (TimetableEntry.id entry, TimetableEntry.value entry) ∈ data.
Proof.
  induction data as [|[id value] data IH] using rev_ind.
  - by intros ?%elem_of_nil.
  - rewrite loadTimetable_snoc. intros [->|Hin]%elem_of_values_set.
    + apply elem_of_app. right. by apply list_elem_of_singleton.
    + apply elem_of_app. left. by apply IH.
Qed.

Lemma loadTimetable_get_record (before after : list (string * Timetable.t)) (id : string)
    (value : Timetable.t) :
  Forall (λ iv, key_of (snd iv) ≠ key_of value) after →
  ES.get (loadTimetable (before ++ (id, value) :: after)) (key_of value)
  = Some (TimetableEntry.mk id value).
Proof.
  intros Hafter.
  rewrite loadTimetable_get_last, filter_app, filter_cons. cbn [snd].
  rewrite decide_True by done.
  assert (filter (λ iv, key_of (snd iv) = key_of value) after = []) as ->.
  { induction Hafter as [|iv after Hiv _ IH]; [done|].
    by rewrite filter_cons, decide_False. }
  by rewrite last_snoc.
Qed.

(** X18.  The map loaded from a snapshot of the timetable files each
    record under the key of its class, date and weekday: looking a key
    up gives the last record of the snapshot with that key, under its
    id, and nothing when the snapshot has none; and every entry of the
    map is a record of the snapshot. *)
Theorem loadTimetable_get (data : list (string * Timetable.t)) :
  (∀ key,
     ES.get (loadTimetable data) key
     = (λ iv, TimetableEntry.mk (fst iv) (snd iv))
       <$> last (filter (λ iv, key_of (snd iv) = key) data))
  ∧ (∀ before id value after,
       data = before ++ (id, value) :: after →
       Forall (λ iv, key_of (snd iv) ≠ key_of value) after →
       ES.get (loadTimetable data) (key_of value) = Some (TimetableEntry.mk id value))
  ∧ ∀ entry, entry ∈ ES.values (loadTimetable data) →
             (TimetableEntry.id entry, TimetableEntry.value entry) ∈ data.
Proof.
  split_and!.
  - apply loadTimetable_get_last.
  - intros before id value after -> Hafter. by apply loadTimetable_get_record.
  - apply loadTimetable_values.
Qed.

(** ** Moving a lesson *)

Lemma replaces_entry (timetableEntries : ES.Map TimetableEntry.t) (entry : TimetableEntry.t)
    (classId dateStr : string) (dayOfWeek : Z) :
  entry ∈ ES.values timetableEntries →
  Timetable.Class_ID (TimetableEntry.value entry) = classId →
  Timetable.Thay_the_ngay (TimetableEntry.value entry) = Some dateStr →
  Timetable.Thay_the_thu (TimetableEntry.value entry) = Some dayOfWeek →
  AdminPage.isDateReplacedByCustomSchedule timetableEntries classId dateStr dayOfWeek = true.
Proof.
  intros Hin Hc Hd Ht. unfold AdminPage.isDateReplacedByCustomSchedule.
  apply existsb_exists. exists entry. split; [by apply list_elem_of_In|].
  unfold AdminPage.replaces. rewrite Hc, Hd, Ht, String.eqb_refl.
  by rewrite !bool_decide_eq_true_2.
Qed.

Lemma hidden_when_replaced (format : Dayjs.t → string) (classes : list Class.t)
    (timetableEntries : ES.Map TimetableEntry.t) (filterMode : AdminPage.FilterMode)
    (selectedItems : gset string) (date : Dayjs.t) (classId : string) (e : ScheduleEvent) :
  AdminPage.isDateReplacedByCustomSchedule timetableEntries classId (format date)
                                           (dayOfWeek date) = true →
  e ∈ AdminPage.getEventsForDate format classes timetableEntries filterMode selectedItems date →
  class e = classId → isCustomSchedule e = Some true.
Proof.
  intros Hrep. rewrite getEventsForDate_bind. intros (c & He & Hc)%list_elem_of_bind Hid.
  pose proof (pushed_class _ _ _ _ _ He) as Hid'.
  unfold AdminPage.pushed in He.
  destruct (ES.get _ _) as [entry|]; [by apply list_elem_of_singleton in He as ->|].
  rewrite <- Hid', Hid, Hrep in He. by apply elem_of_nil in He.
Qed.

(** X19.  Moving a weekly lesson of a shown class to another date, for
    that date only, writes one record; once a snapshot holds the record
    as the last one of its key, the lesson is shown on the target date
    with the times it had, and on the date it came from no weekly lesson
    of the class is shown any more. *)
Theorem moveScheduleThisDateOnly_moves (format : Dayjs.t → string) (classes : list Class.t)
    (timetableEntries : ES.Map TimetableEntry.t) (filterMode : AdminPage.FilterMode)
    (selectedItems : gset string) (c : Class.t) (s : ClassSchedule)
    (date targetDate : Dayjs.t) (newId : string) (before after : list (string * Timetable.t)) :
  c ∈ AdminPage.filteredClasses classes filterMode selectedItems →
  Thu s = dayOfWeek date →
  let event := AdminPage.weeklyEvent c s (format date) in
  ∃ value,
    AdminPage.moveScheduleThisDateOnly format timetableEntries c event targetDate
    = [push_entry value]
    ∧ (Forall (λ iv, key_of (snd iv) ≠ key_of value) after →
       let loaded := loadTimetable (before ++ (newId, value) :: after) in
       let moved :=
         mkScheduleEvent (Class.id c)
           (mkClassSchedule (dayOfWeek targetDate) (Gio_bat_dau s) (Gio_ket_thuc s))
           (format targetDate) (Some newId) (Some true) in
       moved ∈ AdminPage.getEventsForDate format classes loaded filterMode selectedItems
                                          targetDate
       ∧ ∀ e, e ∈ AdminPage.getEventsForDate format classes loaded filterMode selectedItems
                                             date →
              class e = Class.id c → isCustomSchedule e = Some true).
Proof.
  intros Hc Hs event.
  set (value := Timetable.mk (Class.id c) (Class.Ma_lop c) (Class.Ten_lop c)
                  (format targetDate) (dayOfWeek targetDate) (Gio_bat_dau s) (Gio_ket_thuc s)
                  (Some (Class.Phong_hoc c)) None (Some (format date)) (Some (Thu s))).
  exists value. split; [reflexivity|].
  intros Hafter loaded moved.
  pose proof (loadTimetable_get_record before after newId value Hafter) as Hget.
  fold loaded in Hget.
  split.
  - exact (custom_shown format classes loaded filterMode selectedItems targetDate c
             (TimetableEntry.mk newId value) Hc Hget).
  - intros e He Hid.
    apply (hidden_when_replaced format classes loaded filterMode selectedItems date
             (Class.id c) e); [|done|done].
    apply (replaces_entry loaded (TimetableEntry.mk newId value));
      [by eapply elem_of_values_get|done|done|by rewrite <- Hs].
Qed.

Lemma moveScheduleThisDateOnly_moves_witness :
  let event := AdminPage.weeklyEvent class_L1 (mkClassSchedule 4 "14:00" "15:30")
                                     (calendar_date 20096) in
  ∃ value,
    AdminPage.moveScheduleThisDateOnly calendar_date timetable_L1 class_L1 event 20097
    = [push_entry value]
    ∧ (Forall (λ iv : string * Timetable.t, key_of (snd iv) ≠ key_of value) [] →
       let loaded := loadTimetable ([("t1", makeup_L1)] ++ ("t2", value) :: []) in
       let moved :=
         mkScheduleEvent (Class.id class_L1)
           (mkClassSchedule (dayOfWeek 20097) "14:00" "15:30")
           (calendar_date 20097) (Some "t2") (Some true) in
       moved ∈ AdminPage.getEventsForDate calendar_date [class_L1; class_L2] loaded
                                          AdminPage.by_teacher ∅ 20097
       ∧ ∀ e, e ∈ AdminPage.getEventsForDate calendar_date [class_L1; class_L2] loaded
                                             AdminPage.by_teacher ∅ 20096 →
              class e = Class.id class_L1 → isCustomSchedule e = Some true).
Proof.
  apply (moveScheduleThisDateOnly_moves calendar_date [class_L1; class_L2] timetable_L1
           AdminPage.by_teacher ∅ class_L1 (mkClassSchedule 4 "14:00" "15:30")
           20096 20097 "t2" [("t1", makeup_L1)] []).
  - apply (list_elem_of_lookup_2 _ 0%nat). vm_compute; reflexivity.
  - vm_compute; reflexivity.
Defined.

Lemma find_by_id (entries : list TimetableEntry.t) (entry : TimetableEntry.t) :
  entry ∈ entries →
  (∀ other, other ∈ entries → TimetableEntry.id other = TimetableEntry.id entry →
            other = entry) →
  List.find (λ other, String.eqb (TimetableEntry.id other) (TimetableEntry.id entry)) entries
  = Some entry.
Proof.
  induction entries as [|x entries IH]; intros Hin Huniq; [by apply elem_of_nil in Hin|].
  cbn. destruct (String.eqb_spec (TimetableEntry.id x) (TimetableEntry.id entry)) as [Hx|Hx].
  - f_equal. apply Huniq; [apply elem_of_cons; by left|done].
  - apply IH.
    + apply elem_of_cons in Hin as [->|Hin]; [done|done].
    + intros other Ho. apply Huniq. apply elem_of_cons. by right.
Qed.

(** X20.  Moving a make-up lesson on, which itself stands for a lesson
    moved away from an original date, removes its record and writes a
    new one that carries the original date and weekday over; with the
    new record loaded, the original date still counts as moved away. *)
Theorem moveScheduleThisDateOnly_keeps_origin (format : Dayjs.t → string)
    (timetableEntries : ES.Map TimetableEntry.t) (c : Class.t) (entry : TimetableEntry.t)
    (dateStr origin : string) (originThu : Z) (targetDate : Dayjs.t) (newId : string)
    (before after : list (string * Timetable.t)) :
  entry ∈ ES.values timetableEntries →
  (∀ other, other ∈ ES.values timetableEntries →
            TimetableEntry.id other = TimetableEntry.id entry → other = entry) →
  TimetableEntry.id entry ≠ "" →
  Timetable.Thay_the_ngay (TimetableEntry.value entry) = Some origin → origin ≠ "" →
  Timetable.Thay_the_thu (TimetableEntry.value entry) = Some originThu →
  let event := AdminPage.customEvent c entry dateStr in
  ∃ value,
    AdminPage.moveScheduleThisDateOnly format timetableEntries c event targetDate
    = [remove_entry (TimetableEntry.id entry); push_entry value]
    ∧ Timetable.Thay_the_ngay value = Some origin
    ∧ Timetable.Thay_the_thu value = Some originThu
    ∧ (Forall (λ iv, key_of (snd iv) ≠ key_of value) after →
       AdminPage.isDateReplacedByCustomSchedule
         (loadTimetable (before ++ (newId, value) :: after)) (Class.id c) origin originThu
       = true).
Proof.
  intros Hin Huniq Hid Horigin Hne Hthu event.
  set (value := Timetable.mk (Class.id c) (Class.Ma_lop c) (Class.Ten_lop c)
                  (format targetDate) (dayOfWeek targetDate)
                  (Timetable.Gio_bat_dau (TimetableEntry.value entry))
                  (Timetable.Gio_ket_thuc (TimetableEntry.value entry))
                  (Some (Class.Phong_hoc c)) None (Some origin) (Some originThu)).
  exists value. split_and!; [|done|done|].
  - unfold AdminPage.moveScheduleThisDateOnly, event, AdminPage.customEvent.
    cbn [scheduleId isCustomSchedule schedule default negb Gio_bat_dau Gio_ket_thuc].
    assert (JS.falsy (TimetableEntry.id entry) = false) as ->
      by (by apply String.eqb_neq).
    rewrite (find_by_id _ entry Hin Huniq), Horigin, Hthu.
    assert (JS.falsy origin = false) as -> by (by apply String.eqb_neq).
    done.
  - intros Hafter.
    pose proof (loadTimetable_get_record before after newId value Hafter) as Hget.
    apply (replaces_entry _ (TimetableEntry.mk newId value));
      [by eapply elem_of_values_get|done..].
Qed.

(** X21.  Dropping an event on another day of the teacher calendar asks
    the store for the writes the admin calendar asks for when the same
    event is moved to that day for that date only; dropped on its own
    day, it asks for none. *)
Theorem handleDrop_as_admin (format : Dayjs.t → string)
    (timetableEntries : ES.Map TimetableEntry.t) (c : Class.t)
    (draggingEvent : TeacherSchedule.ScheduleEvent) (targetDay : Dayjs.t) :
  TeacherPage.handleDrop format timetableEntries c draggingEvent targetDay
  = if String.eqb (format targetDay) (format (TeacherSchedule.date draggingEvent)) then []
    else AdminPage.moveScheduleThisDateOnly format timetableEntries c
           (admin_view format draggingEvent) targetDay.
Proof.
  unfold TeacherPage.handleDrop, AdminPage.moveScheduleThisDateOnly, admin_view.
  cbn [scheduleId isCustomSchedule schedule AdminSchedule.date].
  destruct (String.eqb _ _); [done|].
  destruct (TeacherSchedule.scheduleId draggingEvent) as [scheduleId|]; [|done].
  destruct (JS.falsy scheduleId); [done|].
  destruct (List.find _ _) as [entry|]; [|done].
  destruct (Timetable.Thay_the_ngay (TimetableEntry.value entry)) as [day|]; [|done].
  destruct (JS.falsy day); done.
Qed.

Lemma same_lesson_eq (e : ScheduleEvent) (s : ClassSchedule) :
  AdminPage.same_lesson e s = true ↔ s = schedule e.
Proof.
  unfold AdminPage.same_lesson. rewrite !andb_true_iff, Z.eqb_eq, !String.eqb_eq.
  destruct s, (schedule e); cbn. split; [by intros [[-> ->] ->]|by intros [= -> -> ->]].
Qed.

(** X22.  Moving a lesson to the weekday of another date for all weeks
    rewrites the weekly lessons of the class, none of them null, in
    place: as many lessons
    as before with the times they had, the moved lesson on the new
    weekday and, the weekday differing, no longer on the old one, every
    other lesson as it was; the records removed besides are records of
    this class. *)
Theorem moveScheduleAllWeeks_lessons (timetableEntries : ES.Map TimetableEntry.t)
    (c : Class.t) (event : ScheduleEvent) (targetDate : Dayjs.t)
    (currentSchedules : list ClassSchedule) :
  Class.Lich_hoc c = Some (Some <$> currentSchedules) →
  ∃ updatedSchedules entriesToDelete,
    AdminPage.moveScheduleAllWeeks timetableEntries c event targetDate
    = update_class (Class.id c) updatedSchedules None
      :: (remove_entry <$> entriesToDelete)
    ∧ (λ s, (Gio_bat_dau s, Gio_ket_thuc s)) <$> updatedSchedules
      = (λ s, (Gio_bat_dau s, Gio_ket_thuc s)) <$> currentSchedules
    ∧ (schedule event ∈ currentSchedules →
       mkClassSchedule (dayOfWeek targetDate) (Gio_bat_dau (schedule event))
                       (Gio_ket_thuc (schedule event)) ∈ updatedSchedules)
    ∧ (dayOfWeek targetDate ≠ Thu (schedule event) → schedule event ∉ updatedSchedules)
    ∧ (∀ s, s ∈ currentSchedules → s ≠ schedule event → s ∈ updatedSchedules)
    ∧ ∀ id, id ∈ entriesToDelete →
            ∃ entry, entry ∈ ES.values timetableEntries ∧ TimetableEntry.id entry = id
                     ∧ Timetable.Class_ID (TimetableEntry.value entry) = Class.id c.
Proof.
  intros Hl. unfold AdminPage.moveScheduleAllWeeks. rewrite Hl. cbn [default id].
  rewrite every_lesson_Some.
  eexists _, _. split; [reflexivity|]. split_and!.
  - rewrite <- list_fmap_compose. apply list_fmap_ext. intros i s _. cbn.
    by destruct (AdminPage.same_lesson event s).
  - intros Hin. apply list_elem_of_fmap. exists (schedule event). split; [|done].
    by rewrite (proj2 (same_lesson_eq event (schedule event)) eq_refl).
  - intros Hne (s & Hs & Hin)%list_elem_of_fmap.
    destruct (AdminPage.same_lesson event s) eqn:Hsame.
    + rewrite Hs in Hne. by cbn in Hne.
    + subst s. by rewrite (proj2 (same_lesson_eq event (schedule event)) eq_refl) in Hsame.
  - intros s Hin Hne. apply list_elem_of_fmap. exists s. split; [|done].
    destruct (AdminPage.same_lesson event s) eqn:Hsame; [|done].
    by apply same_lesson_eq in Hsame.
  - intros id (entry & -> & [Hp Hin]%list_elem_of_filter)%list_elem_of_fmap.
    exists entry. split_and!; [done..|].
    apply Is_true_true, andb_prop in Hp as [Hc _]. by apply String.eqb_eq in Hc.
Qed.

Lemma moveScheduleThisDateOnly_keeps_origin_witness :
  let event := AdminPage.customEvent class_L1 (TimetableEntry.mk "t2" moved_L1) "2025-01-09" in
  ∃ value,
    AdminPage.moveScheduleThisDateOnly calendar_date (loadTimetable [("t2", moved_L1)])
                                        class_L1 event 20098
    = [remove_entry "t2"; push_entry value]
    ∧ Timetable.Thay_the_ngay value = Some "2025-01-08"
    ∧ Timetable.Thay_the_thu value = Some 4
    ∧ (Forall (λ iv : string * Timetable.t, key_of (snd iv) ≠ key_of value) [] →
       AdminPage.isDateReplacedByCustomSchedule
         (loadTimetable ([] ++ ("t3", value) :: [])) (Class.id class_L1) "2025-01-08" 4
       = true).
Proof.
  apply (moveScheduleThisDateOnly_keeps_origin calendar_date (loadTimetable [("t2", moved_L1)])
           class_L1 (TimetableEntry.mk "t2" moved_L1) "2025-01-09" "2025-01-08" 4 20098 "t3"
           [] []).
  - apply (list_elem_of_lookup_2 _ 0%nat). vm_compute; reflexivity.
  - intros other Hother _. by apply list_elem_of_singleton in Hother.
  - discriminate.
  - reflexivity.
  - discriminate.
  - reflexivity.
Defined.

Lemma moveScheduleAllWeeks_lessons_witness :
  let event := AdminPage.weeklyEvent class_L1 (mkClassSchedule 2 "09:00" "10:00")
                                     (calendar_date 20094) in
  let currentSchedules :=
    [mkClassSchedule 2 "09:00" "10:00"; mkClassSchedule 4 "14:00" "15:30"] in
  ∃ updatedSchedules entriesToDelete,
    AdminPage.moveScheduleAllWeeks timetable_L1 class_L1 event 20097
    = update_class (Class.id class_L1) updatedSchedules None
      :: (remove_entry <$> entriesToDelete)
    ∧ (λ s, (Gio_bat_dau s, Gio_ket_thuc s)) <$> updatedSchedules
      = (λ s, (Gio_bat_dau s, Gio_ket_thuc s)) <$> currentSchedules
    ∧ (schedule event ∈ currentSchedules →
       mkClassSchedule (dayOfWeek 20097) (Gio_bat_dau (schedule event))
                       (Gio_ket_thuc (schedule event)) ∈ updatedSchedules)
    ∧ (dayOfWeek 20097 ≠ Thu (schedule event) → schedule event ∉ updatedSchedules)
    ∧ (∀ s, s ∈ currentSchedules → s ≠ schedule event → s ∈ updatedSchedules)
    ∧ ∀ id, id ∈ entriesToDelete →
            ∃ entry, entry ∈ ES.values timetable_L1 ∧ TimetableEntry.id entry = id
                     ∧ Timetable.Class_ID (TimetableEntry.value entry) = Class.id class_L1.
Proof.
  apply (moveScheduleAllWeeks_lessons timetable_L1 class_L1
           (AdminPage.weeklyEvent class_L1 (mkClassSchedule 2 "09:00" "10:00")
                                  (calendar_date 20094))
           20097 [mkClassSchedule 2 "09:00" "10:00"; mkClassSchedule 4 "14:00" "15:30"]).
  reflexivity.
Defined.

(** X23.  Editing a weekly lesson for all weeks rewrites the weekly
    lessons of the class, none of them null, in place: every lesson
    keeps its weekday, the
    edited lesson takes the new times, every other lesson stays as it
    was, and with the times unchanged the list is the one it was. *)
Theorem saveScheduleAllWeeks_lessons (timetableEntries : ES.Map TimetableEntry.t)
    (c : Class.t) (event : ScheduleEvent) (values : AdminPage.FormValues.t)
    (currentSchedules : list ClassSchedule) :
  Class.Lich_hoc c = Some (Some <$> currentSchedules) →
  ∃ updatedSchedules room entriesToDelete,
    AdminPage.saveScheduleAllWeeks timetableEntries c event values
    = update_class (Class.id c) updatedSchedules room :: (remove_entry <$> entriesToDelete)
    ∧ Thu <$> updatedSchedules = Thu <$> currentSchedules
    ∧ (schedule event ∈ currentSchedules →
       mkClassSchedule (Thu (schedule event)) (AdminPage.FormValues.Gio_bat_dau values)
                       (AdminPage.FormValues.Gio_ket_thuc values) ∈ updatedSchedules)
    ∧ (∀ s, s ∈ currentSchedules → s ≠ schedule event → s ∈ updatedSchedules)
    ∧ (AdminPage.FormValues.Gio_bat_dau values = Gio_bat_dau (schedule event) →
       AdminPage.FormValues.Gio_ket_thuc values = Gio_ket_thuc (schedule event) →
       updatedSchedules = currentSchedules)
    ∧ ∀ id, id ∈ entriesToDelete →
            ∃ entry, entry ∈ ES.values timetableEntries ∧ TimetableEntry.id entry = id
                     ∧ Timetable.Class_ID (TimetableEntry.value entry) = Class.id c
                     ∧ Timetable.Thu (TimetableEntry.value entry) = Thu (schedule event).
Proof.
  intros Hl. unfold AdminPage.saveScheduleAllWeeks. rewrite Hl. cbn [default id].
  rewrite every_lesson_Some.
  eexists _, _, _. split; [reflexivity|]. split_and!.
  - rewrite <- list_fmap_compose. apply list_fmap_ext. intros i s _. cbn.
    destruct (AdminPage.same_lesson event s) eqn:Hsame; [|done].
    by apply same_lesson_eq in Hsame as ->.
  - intros Hin. apply list_elem_of_fmap. exists (schedule event). split; [|done].
    by rewrite (proj2 (same_lesson_eq event (schedule event)) eq_refl).
  - intros s Hin Hne. apply list_elem_of_fmap. exists s. split; [|done].
    destruct (AdminPage.same_lesson event s) eqn:Hsame; [|done].
    by apply same_lesson_eq in Hsame.
  - intros -> ->. rewrite <- (list_fmap_id currentSchedules) at 2.
    apply list_fmap_ext. intros i s _.
    destruct (AdminPage.same_lesson event s) eqn:Hsame; [|done].
    apply same_lesson_eq in Hsame as ->. by destruct (schedule event).
  - intros id (entry & -> & [Hp Hin]%list_elem_of_filter)%list_elem_of_fmap.
    exists entry. split_and!; [done..| |].
    + apply Is_true_true, andb_prop in Hp as [Hc _]. by apply String.eqb_eq in Hc.
    + apply Is_true_true, andb_prop in Hp as [_ Ht]. by apply Z.eqb_eq in Ht.
Qed.

Lemma saveScheduleAllWeeks_lessons_witness :
  let event := AdminPage.weeklyEvent class_L1 (mkClassSchedule 2 "09:00" "10:00")
                                     (calendar_date 20094) in
  let values := AdminPage.FormValues.mk "09:30" "10:30" "" "" in
  let currentSchedules :=
    [mkClassSchedule 2 "09:00" "10:00"; mkClassSchedule 4 "14:00" "15:30"] in
  ∃ updatedSchedules room entriesToDelete,
    AdminPage.saveScheduleAllWeeks timetable_L1 class_L1 event values
    = update_class (Class.id class_L1) updatedSchedules room
      :: (remove_entry <$> entriesToDelete)
    ∧ Thu <$> updatedSchedules = Thu <$> currentSchedules
    ∧ (schedule event ∈ currentSchedules →
       mkClassSchedule (Thu (schedule event)) (AdminPage.FormValues.Gio_bat_dau values)
                       (AdminPage.FormValues.Gio_ket_thuc values) ∈ updatedSchedules)
    ∧ (∀ s, s ∈ currentSchedules → s ≠ schedule event → s ∈ updatedSchedules)
    ∧ (AdminPage.FormValues.Gio_bat_dau values = Gio_bat_dau (schedule event) →
       AdminPage.FormValues.Gio_ket_thuc values = Gio_ket_thuc (schedule event) →
       updatedSchedules = currentSchedules)
    ∧ ∀ id, id ∈ entriesToDelete →
            ∃ entry, entry ∈ ES.values timetable_L1 ∧ TimetableEntry.id entry = id
                     ∧ Timetable.Class_ID (TimetableEntry.value entry) = Class.id class_L1
                     ∧ Timetable.Thu (TimetableEntry.value entry) = Thu (schedule event).
Proof.
  apply (saveScheduleAllWeeks_lessons timetable_L1 class_L1
           (AdminPage.weeklyEvent class_L1 (mkClassSchedule 2 "09:00" "10:00")
                                  (calendar_date 20094))
           (AdminPage.FormValues.mk "09:30" "10:30" "" "")
           [mkClassSchedule 2 "09:00" "10:00"; mkClassSchedule 4 "14:00" "15:30"]).
  reflexivity.
Defined.

(** ** The hour slots *)

Lemma HOUR_SLOTS_bounds (slot : AdminPage.HourSlot.t) :
  slot ∈ AdminPage.HOUR_SLOTS →
  6 ≤ AdminPage.HourSlot.hour slot ≤ 22
  ∧ AdminPage.HourSlot.start slot = HHmm (AdminPage.HourSlot.hour slot) 0
  ∧ AdminPage.HourSlot.end_ slot = HHmm (AdminPage.HourSlot.hour slot + 1) 0.
Proof.
  unfold AdminPage.HOUR_SLOTS.
  intros (i & -> & Hi%elem_of_seqZ)%list_elem_of_fmap. cbn. split; [lia|done].
Qed.

(** X24.  The hour slots run from 6:00 to 23:00 without gap or overlap:
    by the test getEventsForDateAndSlot applies, a start time of hour
    [h] lies in the slot of hour [h] and in no other, and there is such
    a slot exactly for the hours 6 to 22. *)
Theorem HOUR_SLOTS_cover (h m : Z) :
  time_of_day h m →
  (∀ slot, slot ∈ AdminPage.HOUR_SLOTS →
     AdminPage.in_slot (AdminPage.HourSlot.start slot) (AdminPage.HourSlot.end_ slot)
                       (HHmm h m) = true
     ↔ AdminPage.HourSlot.hour slot = h)
  ∧ ((∃ slot, slot ∈ AdminPage.HOUR_SLOTS ∧ AdminPage.HourSlot.hour slot = h)
     ↔ 6 ≤ h ≤ 22).
Proof.
  intros Ht. split.
  - intros slot (Hhour & -> & ->)%HOUR_SLOTS_bounds. unfold AdminPage.in_slot.
    destruct Ht as [Hh Hm].
    rewrite falsy_HHmm by lia.
    rewrite !str_lt_HHmm by (unfold time_of_day; lia). cbn [negb andb].
    rewrite andb_true_iff, negb_true_iff, Z.ltb_ge, Z.ltb_lt. lia.
  - split.
    + intros (slot & (Hhour & _)%HOUR_SLOTS_bounds & <-). done.
    + intros Hh. exists (AdminPage.HourSlot.mk h (HHmm h 0) (HHmm h 0) (HHmm (h + 1) 0)).
      split; [|done]. unfold AdminPage.HOUR_SLOTS. apply list_elem_of_fmap.
      exists (h - 6). split; [|apply elem_of_seqZ; lia].
      cbn. by replace (h - 6 + 6) with h by lia.
Qed.

Lemma HOUR_SLOTS_cover_witness :
  (∀ slot, slot ∈ AdminPage.HOUR_SLOTS →
     AdminPage.in_slot (AdminPage.HourSlot.start slot) (AdminPage.HourSlot.end_ slot)
                       (HHmm 9 30) = true
     ↔ AdminPage.HourSlot.hour slot = 9)
  ∧ ((∃ slot, slot ∈ AdminPage.HOUR_SLOTS ∧ AdminPage.HourSlot.hour slot = 9)
     ↔ 6 ≤ 9 ≤ 22).
Proof. apply (HOUR_SLOTS_cover 9 30). unfold time_of_day. lia. Defined.

(** ** The day columns of the teacher calendar *)

Lemma teacher_pushed_date (format : Dayjs.t → string)
    (timetableEntries : ES.Map TimetableEntry.t) (date : Dayjs.t) (c : Class.t)
    (events : list TeacherSchedule.ScheduleEvent) (e : TeacherSchedule.ScheduleEvent) :
  TeacherPage.pushed format timetableEntries date c = Some events →
  e ∈ events → TeacherSchedule.date e = date.
Proof.
  unfold TeacherPage.pushed.
  destruct (ES.get _ _); [by intros [= <-] ->%list_elem_of_singleton|].
  destruct (TeacherPage.isDateReplacedByCustomSchedule _ _ _ _);
    [by intros [= <-] ?%elem_of_nil|].
  destruct (Class.Lich_hoc c) as [schedules|]; [|by intros [= <-] ?%elem_of_nil].
  destruct (every_lesson schedules) as [lessons|]; [|done].
  by intros [= <-] (s & -> & _)%list_elem_of_fmap.
Qed.

Lemma day_pushed_date (format : Dayjs.t → string)
    (timetableEntries : ES.Map TimetableEntry.t) (date : Dayjs.t) (l : list Class.t)
    (events : list TeacherSchedule.ScheduleEvent) (e : TeacherSchedule.ScheduleEvent) :
  @concat _ <$> mapM (TeacherPage.pushed format timetableEntries date) l = Some events →
  e ∈ events → TeacherSchedule.date e = date.
Proof.
  intros (pushes & H%mapM_Some_1 & ->)%fmap_Some.
  induction H as [|c more l pushes Hc _ IH]; [by intros ?%elem_of_nil|].
  cbn. intros [He|He]%elem_of_app; [by eapply teacher_pushed_date|by apply IH].
Qed.

Lemma gathered_None (format : Dayjs.t → string) (classes : list Class.t) (teacherId : string)
    (timetableEntries : ES.Map TimetableEntry.t) (viewMode : TeacherPage.ViewMode)
    (selectedSubjects selectedLocations : gset string) (weekDays : list Dayjs.t) :
  TeacherPage.gathered format classes teacherId timetableEntries viewMode
                       selectedSubjects selectedLocations weekDays = None
  → ∃ date c, date ∈ weekDays
              ∧ c ∈ TeacherPage.filteredClasses classes teacherId viewMode
                                                selectedSubjects selectedLocations
              ∧ reads_null format timetableEntries date c.
Proof.
  rewrite gathered_mapM, fmap_None, mapM_None, Exists_exists.
  intros (date & Hdate & Hnone). apply fmap_None, mapM_None, Exists_exists in Hnone.
  destruct Hnone as (c & Hc & Hnull%teacher_pushed_None). by exists date, c.
Qed.

Lemma filter_all {A : Type} (P : A → Prop) `{∀ x, Decision (P x)} (l : list A) :
  (∀ x, x ∈ l → P x) → filter P l = l.
Proof.
  induction l as [|x l IH]; intros Hl; [done|].
  rewrite filter_cons, decide_True by (apply Hl, elem_of_cons; by left).
  f_equal. apply IH. intros y Hy. apply Hl, elem_of_cons. by right.
Qed.

Lemma filter_none {A : Type} (P : A → Prop) `{∀ x, Decision (P x)} (l : list A) :
  (∀ x, x ∈ l → ¬ P x) → filter P l = [].
Proof.
  induction l as [|x l IH]; intros Hl; [done|].
  rewrite filter_cons, decide_False by (apply Hl, elem_of_cons; by left).
  apply IH. intros y Hy. apply Hl, elem_of_cons. by right.
Qed.

Lemma events_of_day (f : Dayjs.t → option (list TeacherSchedule.ScheduleEvent))
    (weekDays : list Dayjs.t) (days : list (list TeacherSchedule.ScheduleEvent))
    (day : Dayjs.t) :
  (∀ d events e, f d = Some events → e ∈ events → TeacherSchedule.date e = d) →
  mapM f weekDays = Some days → NoDup weekDays → day ∈ weekDays →
  f day = Some (filter (λ e, Dayjs.isSame (TeacherSchedule.date e) day) (concat days)).
Proof.
  intros Hf H%mapM_Some_1.
  assert (∀ weekDays days, Forall2 (λ d events, f d = Some events) weekDays days →
            day ∉ weekDays →
            filter (λ e, Dayjs.isSame (TeacherSchedule.date e) day) (concat days) = [])
    as Hother.
  { clear weekDays days H. intros weekDays days H.
    induction H as [|d events weekDays days Hd _ IH]; intros Hday; [done|].
    cbn. rewrite filter_app, IH by (intros ?; apply Hday, elem_of_cons; by right).
    rewrite app_nil_r. apply filter_none. intros e He Hsame.
    apply (Hf _ _ _ Hd) in He. apply Is_true_true, Z.eqb_eq in Hsame.
    apply Hday, elem_of_cons. left. congruence. }
  induction H as [|d events weekDays days Hd Hrest IH]; [by intros _ ?%elem_of_nil|].
  intros [Hnew Hnd]%NoDup_cons Hday. cbn. rewrite filter_app.
  destruct (decide (day = d)) as [->|Hne].
  - rewrite (Hother _ _ Hrest Hnew), app_nil_r, Hd. f_equal. symmetry.
    apply filter_all. intros e He. apply (Hf _ _ _ Hd) in He.
    by apply Is_true_true, Z.eqb_eq.
  - apply elem_of_cons in Hday as [?|Hday]; [done|].
    rewrite filter_none, (IH Hnd Hday); [done|].
    intros e He Hsame. apply (Hf _ _ _ Hd) in He.
    apply Is_true_true, Z.eqb_eq in Hsame. congruence.
Qed.

(** X25.  When the gathering of the teacher calendar returns, each day
    column draws the events gathered for its own day and no others, in
    the order they were gathered: for each class shown, its timetable
    record of the day or else its weekly lessons of that weekday.  When
    it raises, it has read, on a day of the week, the weekly lessons of
    a class shown with a null lesson among them. *)
Theorem dayEvents_of_week (format : Dayjs.t → string) (classes : list Class.t)
    (teacherId : string) (timetableEntries : ES.Map TimetableEntry.t)
    (viewMode : TeacherPage.ViewMode) (selectedSubjects selectedLocations : gset string)
    (weekDays : list Dayjs.t) (day : Dayjs.t) :
  NoDup weekDays → day ∈ weekDays →
  let shown :=
    TeacherPage.filteredClasses classes teacherId viewMode selectedSubjects
                                selectedLocations in
  match TeacherPage.getWeekEvents format classes teacherId timetableEntries viewMode
                                  selectedSubjects selectedLocations weekDays with
  | Some weekEvents =>
      @concat _ <$> mapM (TeacherPage.pushed format timetableEntries day) shown
      = Some (TeacherSchedule.event <$> TeacherPage.dayEvents weekEvents day)
  | None =>
      ∃ date c, date ∈ weekDays ∧ c ∈ shown ∧ reads_null format timetableEntries date c
  end.
Proof.
  intros Hnd Hday shown. unfold TeacherPage.getWeekEvents.
  destruct (TeacherPage.gathered format classes teacherId timetableEntries viewMode
                                 selectedSubjects selectedLocations weekDays)
    as [events|] eqn:Hg; cbn [fmap option_fmap option_map]; [|by apply gathered_None].
  unfold TeacherPage.dayEvents.
  rewrite <- (@filter_fmap _ _ (λ e, Is_true (Dayjs.isSame (TeacherSchedule.date e) day))
                           (λ e, Is_true_dec _) TeacherSchedule.event).
  destruct (getWeekEvents_kept weekDays events) as [-> _].
  rewrite gathered_mapM in Hg. apply fmap_Some in Hg as (days & Hdays & ->).
  apply (events_of_day
           (λ date, @concat _ <$> mapM (TeacherPage.pushed format timetableEntries date) shown)
           weekDays days day); [|done..].
  intros d events e. apply day_pushed_date.
Qed.

Lemma dayEvents_of_week_witness :
  let shown := TeacherPage.filteredClasses [class_L1; class_L2] "T1" TeacherPage.view_all ∅ ∅ in
  match TeacherPage.getWeekEvents calendar_date [class_L1; class_L2] "T1" timetable_L1
                                  TeacherPage.view_all ∅ ∅ (TeacherSchedule.weekDays 20094) with
  | Some weekEvents =>
      @concat _ <$> mapM (TeacherPage.pushed calendar_date timetable_L1 20096) shown
      = Some (TeacherSchedule.event <$> TeacherPage.dayEvents weekEvents 20096)
  | None =>
      ∃ date c, date ∈ TeacherSchedule.weekDays 20094 ∧ c ∈ shown
                ∧ reads_null calendar_date timetable_L1 date c
  end.
Proof.
  apply (dayEvents_of_week calendar_date [class_L1; class_L2] "T1" timetable_L1
           TeacherPage.view_all ∅ ∅ (TeacherSchedule.weekDays 20094) 20096).
  - apply (bool_decide_unpack _). vm_compute. exact I.
  - apply (list_elem_of_lookup_2 _ 2%nat). vm_compute; reflexivity.
Defined.

(** X26.  In the teacher calendar "select all" by subject, pressed
    while not as many subjects are selected as are listed, shows all the
    teacher's classes, those with a blank subject too. *)
Theorem teacher_select_all_subjects (trim : string → string) (classes : list Class.t)
    (teacherId : string) (selectedSubjects selectedLocations : gset string) :
  size selectedSubjects ≠ length (TeacherPage.subjects classes teacherId) →
  let selected :=
    TeacherPage.handleSelectAll trim classes teacherId TeacherPage.view_subject
                                selectedSubjects selectedLocations in
  snd selected = selectedLocations
  ∧ TeacherPage.filteredClasses classes teacherId TeacherPage.view_subject
                                (fst selected) (snd selected)
    = TeacherPage.myClasses classes teacherId.
Proof.
  intros Hsize selected. unfold selected, TeacherPage.handleSelectAll.
  apply Nat.eqb_neq in Hsize as ->. cbn [fst snd]. split; [done|].
  unfold TeacherPage.filteredClasses.
  destruct (size _ =? 0)%nat; [done|]. apply filter_all.
  intros c Hc. apply elem_of_list_to_set. unfold TeacherPage.subjects.
  apply elem_of_sort_strings, elem_of_unique, list_elem_of_fmap. by exists c.
Qed.

Lemma teacher_select_all_subjects_witness :
  let selected :=
    TeacherPage.handleSelectAll ascii_trim [class_L1; class_L2] "T1" TeacherPage.view_subject
                                ∅ ∅ in
  snd selected = ∅
  ∧ TeacherPage.filteredClasses [class_L1; class_L2] "T1" TeacherPage.view_subject
                                (fst selected) (snd selected)
    = TeacherPage.myClasses [class_L1; class_L2] "T1".
Proof.
  apply (teacher_select_all_subjects ascii_trim [class_L1; class_L2] "T1" ∅ ∅).
  vm_compute. lia.
Defined.

(** ** Boxes of short lessons *)

(** X27.  Two lessons of a day of which the second starts when or after
    the first ends are laid out without columns, each in column 0 of 1;
    when the second starts less than 50 minutes after the first starts,
    its box begins inside the box of the first, which is drawn 50 high
    at least. *)
Theorem short_lesson_box_overruns (localeCompare : string → string → Z) (a b : ScheduleEvent)
    (k h1 m1 h2 m2 k' h3 m3 h4 m4 : Z) :
  time_of_day h1 m1 → time_of_day h2 m2 → time_of_day h3 m3 → time_of_day h4 m4 →
  schedule a = timed k h1 m1 h2 m2 → schedule b = timed k' h3 m3 h4 m4 →
  h1 * 60 + m1 < h2 * 60 + m2 ≤ h3 * 60 + m3 → h3 * 60 + m3 < h4 * 60 + m4 →
  (h3 * 60 + m3) - (h1 * 60 + m1) < 50 →
  Forall (λ p, column p = 0%nat ∧ totalColumns p = 1%nat)
         (groupOverlappingEvents localeCompare [a; b])
  ∧ ∃ ta ha tb,
      top (AdminPage.box a) = JS.Num ta ∧ height (AdminPage.box a) = JS.Num ha
      ∧ top (AdminPage.box b) = JS.Num tb ∧ ta ≤ tb < ta + ha.
Proof.
  intros H1 H2 H3 H4 Ea Eb Hab Hb Hshort. split.
  - rewrite groupOverlappingEvents_apart.
    + apply Forall_fmap, Forall_forall. by intros e _.
    + assert (interval_overlap a b = false) as Hno.
      { unfold interval_overlap. rewrite Ea, Eb. unfold timed. cbn.
        rewrite !str_lt_HHmm by done. apply andb_false_iff. right. apply Z.ltb_ge. lia. }
      intros i j x y Hij Hx Hy.
      destruct i as [|[|i]], j as [|[|j]]; try done; cbn in Hx, Hy; simplify_eq;
        [done|by rewrite interval_overlap_sym].
  - unfold AdminPage.box.
    rewrite (getEventStyle_timed a k h1 m1 h2 m2 H1 H2 Ea).
    rewrite (getEventStyle_timed b k' h3 m3 h4 m4 H3 H4 Eb). cbn.
    eexists _, _, _. split_and!; [reflexivity..| |]; lia.
Qed.

Lemma short_lesson_box_overruns_witness :
  Forall (λ p, column p = 0%nat ∧ totalColumns p = 1%nat)
         (groupOverlappingEvents JS.codeUnitCompare
            [admin_event "09:00" "09:30"; admin_event "09:30" "10:00"])
  ∧ ∃ ta ha tb,
      top (AdminPage.box (admin_event "09:00" "09:30")) = JS.Num ta
      ∧ height (AdminPage.box (admin_event "09:00" "09:30")) = JS.Num ha
      ∧ top (AdminPage.box (admin_event "09:30" "10:00")) = JS.Num tb ∧ ta ≤ tb < ta + ha.
Proof.
  apply (short_lesson_box_overruns JS.codeUnitCompare
           (admin_event "09:00" "09:30") (admin_event "09:30" "10:00")
           2 9 0 9 30 2 9 30 10 0);
    [unfold time_of_day; lia..|vm_compute; reflexivity|vm_compute; reflexivity|lia|lia|lia].
Defined.

(** ** The pages on the data of the examples *)

Example texts_of_numbers :
  ES.toString 0 = "0" ∧ ES.toString 10 = "10" ∧ ES.toString (-3) = "-3"
  ∧ ES.padStart 2 "0" "7" = "07" ∧ ES.padStart 2 "0" "123" = "123"
  ∧ timetableKey "L1" "2025-01-06" 2 = "L1_2025-01-06_2".
Proof. split_and!; vm_compute; reflexivity. Qed.

Example sets_and_sorting :
  ES.unique ["b"; "a"; "b"; "c"; "a"] = ["b"; "a"; "c"]
  ∧ ES.sort_strings ["b"; "a"; "10"; "9"; "B"] = ["10"; "9"; "B"; "a"; "b"].
Proof. split_and!; vm_compute; reflexivity. Qed.

Example hour_slots :
  length AdminPage.HOUR_SLOTS = 17%nat
  ∧ head AdminPage.HOUR_SLOTS = Some (AdminPage.HourSlot.mk 6 "06:00" "06:00" "07:00")
  ∧ last AdminPage.HOUR_SLOTS = Some (AdminPage.HourSlot.mk 22 "22:00" "22:00" "23:00").
Proof. split_and!; vm_compute; reflexivity. Qed.

Example filter_items :
  AdminPage.getFilterItems ascii_trim subject_names [class_L1; class_L2]
                           [("P1", Room.mk "Room 1" "Main")] AdminPage.by_subject
  = [AdminPage.FilterItem.mk "Math" "Mathematics"; AdminPage.FilterItem.mk "Physics" "Physics"]
  ∧ AdminPage.getFilterItems ascii_trim subject_names [class_L1; class_L2]
                             [("P1", Room.mk "Room 1" "Main")] AdminPage.by_location
    = [AdminPage.FilterItem.mk "P1" "Room 1 - Main"]
  ∧ AdminPage.getFilterItems ascii_trim subject_names [class_L1; class_L2]
                             [("P1", Room.mk "Room 1" "Main")] AdminPage.by_teacher
    = [AdminPage.FilterItem.mk "T1" "Lan"; AdminPage.FilterItem.mk "T2" "Minh"].
Proof. split_and!; vm_compute; reflexivity. Qed.

Example events_of_a_monday :
  AdminPage.getEventsForDate calendar_date [class_L1; class_L2] timetable_L1
                             AdminPage.by_teacher ∅ 20094
  = [mkScheduleEvent "L1" (mkClassSchedule 2 "16:00" "17:00") "2025-01-06" (Some "t1")
                     (Some true);
     mkScheduleEvent "L2" (mkClassSchedule 2 "09:30" "11:00") "2025-01-06" None (Some false)]
  ∧ AdminPage.getEventsForDate calendar_date [class_L1; class_L2] []
                               AdminPage.by_teacher {["T1"]} 20094
    = [mkScheduleEvent "L1" (mkClassSchedule 2 "09:00" "10:00") "2025-01-06" None (Some false)].
Proof. split_and!; vm_compute; reflexivity. Qed.

Example attendance_counts :
  AdminPage.getAttendanceCount [class_L1; class_L2]
    [Session.mk "L1" "2025-01-06" (Some [true; false; true])] "L1" "2025-01-06"
  = AdminPage.Count.mk 2 3
  ∧ AdminPage.getAttendanceCount [class_L1; class_L2] [] "L1" "2025-01-06"
    = AdminPage.Count.mk 0 3
  ∧ AdminPage.getAttendanceCount [class_L1; class_L2] [] "L2" "2025-01-06"
    = AdminPage.Count.mk 0 0.
Proof. split_and!; vm_compute; reflexivity. Qed.

Example a_lesson_moved :
  AdminPage.moveScheduleThisDateOnly calendar_date timetable_L1 class_L1
    (AdminPage.weeklyEvent class_L1 (mkClassSchedule 4 "14:00" "15:30") "2025-01-08") 20097
  = [push_entry moved_L1].
Proof. vm_compute; reflexivity. Qed.

Example a_null_lesson :
  AdminPage.getEventsForDate calendar_date [class_L3] [] AdminPage.by_teacher {["T1"]} 20095
  = [mkScheduleEvent "L3" (mkClassSchedule 3 "08:00" "09:00") "2025-01-07" None (Some false)]
  ∧ TeacherPage.gathered calendar_date [class_L3] "T1" [] TeacherPage.view_all ∅ ∅
                         (TeacherSchedule.weekDays 20094)
    = None
  ∧ TeacherPage.getWeekEvents calendar_date [class_L3] "T1" [] TeacherPage.view_all ∅ ∅
                              (TeacherSchedule.weekDays 20094)
    = None
  ∧ AdminPage.moveScheduleAllWeeks [] class_L3
      (AdminPage.weeklyEvent class_L3 (mkClassSchedule 3 "08:00" "09:00") "2025-01-07") 20096
    = [].
Proof. split_and!; vm_compute; reflexivity. Qed.
